(** * firehose-core tools: merged-blocks checker and Firehose downloader

    A shallow embedding of two commands of the repository:

    - [CheckMergedBlocksBatch] and [checkMergedBlockFileBroken]
      (package [tools]), which walk a store of merged-blocks files and
      write [.broken] / [.missing] marker objects;
    - [createToolsDownloadFromFirehoseE] (package [firehose]), the
      [download-from-firehose] command, which streams blocks from a remote
      endpoint into a merged-blocks writer.

    Go's fixed-width integers are modelled as [Z] with the wrap-around
    written out ([uint32], [uint64]); Go strings are [string]; the stores,
    the block reader, the stream and the writer are explicit values whose
    calls are recorded in a trace of events. *)

From Stdlib Require Import ZArith List String Ascii Bool Lia.
From Stdlib Require Strings.Byte.
Import ListNotations.

Local Open Scope string_scope.
Local Open Scope list_scope.
Local Open Scope Z_scope.

(** ** Machine integers *)

Definition uint32 (z : Z) : Z := z mod 2 ^ 32.
Definition uint64 (z : Z) : Z := z mod 2 ^ 64.

Definition maxUint32 : Z := 2 ^ 32 - 1.
Definition maxUint64 : Z := 2 ^ 64 - 1.

(** ** Go strings *)

(** [strings.HasSuffix]. *)
Definition HasSuffix (s suffix : string) : bool :=
  let ls := String.length s in
  let lx := String.length suffix in
  (lx <=? ls)%nat && String.eqb (substring (ls - lx) lx s) suffix.

Definition digitChar (d : Z) : ascii := ascii_of_nat (48 + Z.to_nat d).

Definition digitVal (c : ascii) : option Z :=
  let n := Z.of_nat (nat_of_ascii c) in
  if (48 <=? n) && (n <=? 57) then Some (n - 48) else None.

(** The [n] low decimal digits of [x], most significant first, put in
    front of [acc]. *)
Fixpoint digitsN (n : nat) (x : Z) (acc : string) : string :=
  match n with
  | O => acc
  | S n' => digitsN n' (x / 10) (String (digitChar (x mod 10)) acc)
  end.

(** Decimal representation without padding ([%d] of an unsigned value). *)
Fixpoint decimal (fuel : nat) (x : Z) (acc : string) : string :=
  match fuel with
  | O => acc
  | S fuel' =>
      let acc' := String (digitChar (x mod 10)) acc in
      if x / 10 =? 0 then acc' else decimal fuel' (x / 10) acc'
  end.

(** [fmt.Sprintf("%010d", x)] for an unsigned [x]: the decimal digits of
    [x], padded with zeros on the left to a width of ten; a value of more
    than ten digits is printed in full. *)
Definition fmt010d (x : Z) : string :=
  if x <? 10 ^ 10 then digitsN 10 x "" else decimal 20 x "".

(** ** Errors

    Go [error] values.  [io_EOF] and [StopIteration] are the sentinels the
    code compares against by identity; the [fmt.Errorf] results keep their
    arguments instead of the rendered text. *)

Inductive error : Type :=
| io_EOF
| StopIteration
| ErrSyntax                                   (* strconv.ErrSyntax *)
| ErrRange                                    (* strconv.ErrRange *)
| ErrExternal (msg : string)                  (* an error of a collaborator *)
| ErrUnresolvedRange                          (* "check merged blocks can only work with fully resolved range" *)
| ErrBelowExpected (baseNum expected : Z)     (* "unhandled error: found base number %d below expected %d" *)
| PanicDivideByZero                           (* runtime panic: integer divide by zero *)
| ErrStartStream (cause : error)              (* "unable to start blocks stream: %w" *)
| ErrPbbstreamBlockType                       (* "this tool only works with blocks that are **not** of type *pbbstream.Block" *)
| ErrUnmarshal (cause : error)                (* "unmarshal response block: %w" *)
| ErrEncode (cause : error)                   (* "error decoding response to bstream block: %w" *)
| ErrCursor (cause : error)                   (* "error decoding response cursor: %w" *)
| ErrInvalidSequence (parentId : string) (lastBlockNum : Z) (lastBlockID : string)
                                              (* "got an invalid sequence of blocks: ..." *)
| ErrBlockWriter (cause : error).             (* "write to blockwriter: %w" *)

Definition is_EOF (e : error) : bool :=
  match e with io_EOF => true | _ => false end.

Definition is_StopIteration (e : error) : bool :=
  match e with StopIteration => true | _ => false end.

(** [strconv.ParseUint(s, 10, bitSize)]: the digits are read one by one;
    a value that does not fit gives the largest value of the size together
    with [ErrRange], a character that is no digit gives 0 and
    [ErrSyntax]. *)
Fixpoint parseLoop (s : string) (n maxVal : Z) : Z * option error :=
  match s with
  | EmptyString => (n, None)
  | String c s' =>
      match digitVal c with
      | None => (0, Some ErrSyntax)
      | Some d =>
          if maxUint64 / 10 + 1 <=? n then (maxVal, Some ErrRange)
          else
            let n1 := n * 10 + d in
            if maxVal <? n1 then (maxVal, Some ErrRange)
            else parseLoop s' n1 maxVal
      end
  end.

Definition ParseUint (s : string) (bitSize : Z) : Z * option error :=
  match s with
  | EmptyString => (0, Some ErrSyntax)
  | _ => parseLoop s 0 (2 ^ bitSize - 1)
  end.

(** Modelled from the spec: [numberRegex] is declared outside the given
    sources.  The spec names bundle keys as "10-digit zero-padded base
    numbers", so the expression captures the leftmost run of ten decimal
    digits of the file name; [FindStringSubmatch] gives that capture, or
    nothing when the name has no such run. *)
Fixpoint takeDigits (n : nat) (s : string) : option string :=
  match n with
  | O => Some EmptyString
  | S n' =>
      match s with
      | EmptyString => None
      | String c s' =>
          match digitVal c, takeDigits n' s' with
          | Some _, Some r => Some (String c r)
          | _, _ => None
          end
      end
  end.

Fixpoint numberRegex_FindStringSubmatch (s : string) : option string :=
  match takeDigits 10 s with
  | Some m => Some m
  | None =>
      match s with
      | EmptyString => None
      | String _ s' => numberRegex_FindStringSubmatch s'
      end
  end.

(** ** Package [tools]: the merged-blocks checker *)

Module Tools.

(** [bstream.Block], with the fields the checker reads. *)
Record Block : Type := {
  Id : string;
  Number : Z;
  PreviousId : string;
  LibNum : Z
}.

(** Modelled from the spec: the declaration of [BlockRange] is outside the
    given sources.  The spec gives it as a start and an optional stop and
    calls it resolved when the start is known; a start that is not known
    is a negative one. *)
Record BlockRange : Type := {
  Start : Z;
  Stop : option Z
}.

Definition IsResolved (r : BlockRange) : bool := 0 <=? Start r.

Definition IsClosed (r : BlockRange) : bool :=
  match Stop r with Some _ => true | None => false end.

(** Modelled from the spec: [RoundToBundleStartBlock] and
    [RoundToBundleEndBlock] are declared outside the given sources.  The
    base number is "rounded down to the nearest multiple of
    fileBlockSize", the rounded end is the last number of that bundle;
    both work on [uint32], and the remainder by a zero size panics. *)
Definition RoundToBundleStartBlock (block fileBlockSize : Z) : option Z :=
  if fileBlockSize =? 0 then None
  else Some (uint32 (block - block mod fileBlockSize)).

Definition RoundToBundleEndBlock (block fileBlockSize : Z) : option Z :=
  if fileBlockSize =? 0 then None
  else Some (uint32 (block - block mod fileBlockSize + (fileBlockSize - 1))).

(** *** The collaborators *)

(** One call of the block reader's [Read]: a block or nil, an error or
    nil.  A reader is the list of the results of its successive calls; a
    reader that has given them all answers [(nil, io.EOF)]. *)
Definition ReadResult : Type := (option Block * option error)%type.

(** What the source store holds under a name: an object that cannot be
    opened, one for which no block reader can be made, or a readable
    one. *)
Inductive Object : Type :=
| OpenFails (e : error)
| ReaderFails (e : error)
| Readable (reads : list ReadResult).

(** The source store: [WalkFrom] gives, for a starting point, the names it
    hands to the callback in order, and the error the listing ends with if
    any; [OpenObject] gives the object of a name. *)
Record Store : Type := {
  WalkFrom : string -> list string * option error;
  OpenObject : string -> Object
}.

(** The destination store: the objects written so far, in order, and for
    each key whether a write of it fails. *)
Record DestStore : Type := {
  objects : list (string * string);
  fault : string -> option error
}.

Definition WriteObject (d : DestStore) (key content : string) : DestStore * option error :=
  match fault d key with
  | Some e => (d, Some e)
  | None => ({| objects := objects d ++ [(key, content)]; fault := fault d |}, None)
  end.

(** What a run does to the outside: a line on standard output, or a call
    of the destination store's [WriteObject] with its result. *)
Inductive event : Type :=
| Stdout (line : string)
| DestWrite (key : string) (res : option error).

(** *** [checkMergedBlockFileBroken] *)

(** The [for] loop over the reader; the result is the triple of named
    results [(broken, lastHash, err)] at the [return] that is reached. *)
Fixpoint readBlocks (reads : list ReadResult) (lastHash : string)
  : bool * string * option error :=
  match reads with
  | [] => (false, lastHash, None)
  | (None, err) :: _ =>
      match err with
      | Some io_EOF => (false, lastHash, None)
      | _ => (false, lastHash, err)
      end
  | (Some block, Some e) :: _ => (false, lastHash, Some e)
  | (Some block, None) :: rest =>
      if String.eqb (Id block) "" then (true, lastHash, None)
      else
        let lastHash := if String.eqb lastHash "" then PreviousId block else lastHash in
        if negb (String.eqb (PreviousId block) lastHash) then (true, lastHash, None)
        else readBlocks rest (Id block)
  end.

Definition checkMergedBlockFileBroken (store : Store) (filename lastBlockHash : string)
  : (bool * string * option error) * list event :=
  let out := [Stdout ("checking " ++ filename)%string] in
  match OpenObject store filename with
  | OpenFails e => ((true, "", Some e), out)
  | ReaderFails e => ((true, "", Some e), out)
  | Readable reads => (readBlocks reads lastBlockHash, out)
  end.

(** *** [CheckMergedBlocksBatch] *)

(** The variables the walk callback captures and updates. *)
Record ScanState : Type := {
  expected : Z;
  lastBlockHash : string;
  destStore : DestStore
}.

(** The loop [for expected < baseNum] that writes a [.missing] marker for
    every base number it passes.  [fuel] bounds the number of rounds. *)
Fixpoint fillMissing (fuel : nat) (expected baseNum fileBlockSize64 : Z) (dest : DestStore)
  : Z * DestStore * list event :=
  match fuel with
  | O => (expected, dest, [])
  | S fuel' =>
      if expected <? baseNum then
        let outputFile := (fmt010d expected ++ ".missing")%string in
        let line := ("found missing file " ++ outputFile ++ ", writing to store")%string in
        let '(dest1, res) := WriteObject dest outputFile "" in
        let '(expected2, dest2, evs) :=
          fillMissing fuel' (uint64 (expected + fileBlockSize64)) baseNum fileBlockSize64 dest1 in
        (expected2, dest2, Stdout line :: DestWrite outputFile res :: evs)
      else (expected, dest, [])
  end.

(** Rounds that are enough for the loop to reach [baseNum]. *)
Definition missingRounds (expected baseNum fileBlockSize64 : Z) : nat :=
  Z.to_nat ((baseNum - expected) / fileBlockSize64 + 1).

(** Lines 70-77 of the callback: the [.broken] marker of a bundle found
    broken and the new value of [lastBlockHash]. *)
Definition recordBroken (dest : DestStore) (baseNum : Z) (broken : bool) (lastHash : string)
  : string * DestStore * list event :=
  if broken then
    let outputFile := (fmt010d baseNum ++ ".broken")%string in
    let line := ("found broken file " ++ outputFile ++ ", writing to store")%string in
    let '(dest1, res) := WriteObject dest outputFile "" in
    ("", dest1, [Stdout line; DestWrite outputFile res])
  else (lastHash, dest, []).

(** Line 83, the test that ends the walk; [None] is the panic of the
    rounding, which the test reaches only for a closed range. *)
Definition stopReached (fileBlockSize : Z) (blockRange : BlockRange) (baseNum : Z) : option bool :=
  match Stop blockRange with
  | None => Some false
  | Some stop =>
      match RoundToBundleEndBlock (uint32 baseNum) fileBlockSize with
      | None => None
      | Some roundedEnd => Some (uint32 (uint64 (stop - 1)) <=? roundedEnd)
      end
  end.

(** Lines 62-88 of the callback, for a file whose base number is
    [baseNum].  The result is the new state, the events of the call and
    the error returned to the walk. *)
Definition checkBundle (blocksStore : Store) (fileBlockSize : Z) (blockRange : BlockRange)
    (st : ScanState) (filename : string) (baseNum : Z)
  : ScanState * list event * option error :=
  let fileBlockSize64 := uint64 fileBlockSize in
  let '(expected1, dest1, evs1) :=
    fillMissing (missingRounds (expected st) baseNum fileBlockSize64)
                (expected st) baseNum fileBlockSize64 (destStore st) in
  let '((broken, lastHash, err), evs2) :=
    checkMergedBlockFileBroken blocksStore filename (lastBlockHash st) in
  let '(lastBlockHash2, dest2, evs3) := recordBroken dest1 baseNum broken lastHash in
  let st2 := {| expected := expected1; lastBlockHash := lastBlockHash2; destStore := dest2 |} in
  let evs := evs1 ++ evs2 ++ evs3 in
  match err with
  | Some e => (st2, evs, Some e)
  | None =>
      match stopReached fileBlockSize blockRange baseNum with
      | None => (st2, evs, Some PanicDivideByZero)
      | Some true => (st2, evs, Some StopIteration)
      | Some false =>
          ({| expected := uint64 (baseNum + fileBlockSize64);
              lastBlockHash := lastBlockHash2;
              destStore := dest2 |}, evs, None)
      end
  end.

(** Lines 45-57: the base number of a file name the callback does not
    pass over, read from the first ten digits in it; the error of the
    parse is dropped. *)
Definition bundleBase (filename : string) : option Z :=
  if HasSuffix filename ".tmp" then None
  else
    match numberRegex_FindStringSubmatch filename with
    | None => None
    | Some m => Some (fst (ParseUint m 32))
    end.

(** Line 55: the bundle lies wholly before the start of the range. *)
Definition beforeStart (fileBlockSize : Z) (blockRange : BlockRange) (baseNum : Z) : bool :=
  uint64 (baseNum + uint64 fileBlockSize - 1) <? uint64 (Start blockRange).

(** The callback given to [WalkFrom], on the state [st] and one file
    name. *)
Definition walkFn (blocksStore : Store) (fileBlockSize : Z) (blockRange : BlockRange)
    (st : ScanState) (filename : string) : ScanState * list event * option error :=
  match bundleBase filename with
  | None => (st, [], None)
  | Some baseNum =>
      if beforeStart fileBlockSize blockRange baseNum then (st, [], None)
      else if baseNum <? expected st
      then (st, [], Some (ErrBelowExpected baseNum (expected st)))
      else checkBundle blocksStore fileBlockSize blockRange st filename baseNum
  end.

(** The store's walk over the names it lists: the callback's error ends
    it, [StopIteration] ends it without an error, and a listing that runs
    out gives the listing's own error. *)
Fixpoint walk (f : ScanState -> string -> ScanState * list event * option error)
    (files : list string) (listingErr : option error) (st : ScanState)
  : ScanState * list event * option error :=
  match files with
  | [] => (st, [], listingErr)
  | filename :: rest =>
      let '(st1, evs1, res) := f st filename in
      match res with
      | None =>
          let '(st2, evs2, res2) := walk f rest listingErr st1 in
          (st2, evs1 ++ evs2, res2)
      | Some e =>
          if is_StopIteration e then (st1, evs1, None) else (st1, evs1, Some e)
      end
  end.

(** The result of a run: the error returned (or nil), the events in
    order, and the objects of the destination store at the end. *)
Record Outcome : Type := {
  returned : option error;
  trace : list event;
  written : list (string * string)
}.

Definition failed (e : error) : Outcome :=
  {| returned := Some e; trace := []; written := [] |}.

(** Lines 29 and 41: [RoundToBundleStartBlock(uint32(blockRange.Start),
    fileBlockSize)], from which both [expected] and [firstFilename]
    start. *)
Definition startBundle (fileBlockSize : Z) (blockRange : BlockRange) : option Z :=
  RoundToBundleStartBlock (uint32 (Start blockRange)) fileBlockSize.

(** [blocksStore] and [destStore0] are the results of
    [dstore.NewDBinStore(sourceStoreURL)] and
    [dstore.NewSimpleStore(destStoreURL)]. *)
Definition CheckMergedBlocksBatch (blocksStore : error + Store) (destStore0 : error + DestStore)
    (fileBlockSize : Z) (blockRange : BlockRange) : Outcome :=
  if negb (IsResolved blockRange) then failed ErrUnresolvedRange
  else
    match startBundle fileBlockSize blockRange with
    | None => failed PanicDivideByZero
    | Some rounded =>
        let expected0 := uint64 rounded in
        match blocksStore with
        | inl e => failed e
        | inr store =>
            match destStore0 with
            | inl e => failed e
            | inr dest =>
                match startBundle fileBlockSize blockRange with
                | None => {| returned := Some PanicDivideByZero; trace := []; written := objects dest |}
                | Some rounded' =>
                    let firstFilename := fmt010d rounded' in
                    let '(files, listingErr) := WalkFrom store firstFilename in
                    let st0 := {| expected := expected0; lastBlockHash := ""; destStore := dest |} in
                    let '(st, evs, res) :=
                      walk (walkFn store fileBlockSize blockRange) files listingErr st0 in
                    {| returned := res; trace := evs; written := objects (destStore st) |}
                end
            end
        end
    end.

(** The keys of the marker writes of a trace, in order. *)
Fixpoint markers (evs : list event) : list string :=
  match evs with
  | [] => []
  | DestWrite key _ :: rest => key :: markers rest
  | Stdout _ :: rest => markers rest
  end.

(** The lines printed by a trace, in order. *)
Fixpoint printed (evs : list event) : list string :=
  match evs with
  | [] => []
  | Stdout line :: rest => line :: printed rest
  | DestWrite _ _ :: rest => printed rest
  end.

End Tools.

(** ** Package [firehose]: the [download-from-firehose] command *)

Module Firehose.

(** [pbbstream.Block]. *)
Record Block : Type := {
  Id : string;
  Number : Z;
  ParentId : string;
  ParentNum : Z;
  Timestamp : Z;
  LibNum : Z;
  Payload : string
}.

(** [pbfirehose.BlockMetadata], [pbfirehose.Response] and
    [pbfirehose.Request], with the fields the command uses. *)
Record BlockMetadata : Type := {
  MetaParentId : string;
  MetaParentNum : Z;
  MetaTime : Z;
  MetaLibNum : Z
}.

Record Response : Type := {
  RespBlock : string;
  Metadata : option BlockMetadata;
  RespCursor : string
}.

Record Request : Type := {
  StartBlockNum : Z;
  StopBlockNum : Z;
  FinalBlocksOnly : bool;
  Cursor : string
}.

(** [types.BlockRange] as the command uses it. *)
Record BlockRange : Type := {
  Start : Z;
  Stop : option Z
}.

Definition GetStopBlockOr (r : BlockRange) (def : Z) : Z :=
  match Stop r with Some stop => stop | None => def end.

(** What [getFirehoseStreamClientFromCmd] gives besides the client. *)
Record RequestInfo : Type := {
  InfoCursor : string
}.

(** A block of the chain's own model as the encoder receives it: as it
    is, or inside a [firecore.BlockEnveloppe] that carries the LIB
    number. *)
Inductive FireBlock (B : Type) : Type :=
| ChainBlock (b : B)
| BlockEnveloppe (b : B) (LIBNum : Z).

Arguments ChainBlock {B} b.
Arguments BlockEnveloppe {B} b LIBNum.

(** [firecore.Chain[B]] and the [bstream] globals the command reads:
    whether [BlockFactory()] makes a [*pbbstream.Block], what
    [anypb.UnmarshalTo] gives for a payload, whether a block's type is a
    [BlockLIBNumDerivable], its [GetFirehoseBlockNumber()], the encoder,
    [bstream.GetProtocolFirstStreamableBlock] and
    [bstream.CursorFromOpaque] (the id and number of the cursor's
    block). *)
Record Chain (B : Type) : Type := {
  BlockFactoryIsPbbstream : bool;
  UnmarshalTo : string -> error + B;
  IsLIBNumDerivable : B -> bool;
  GetFirehoseBlockNumber : B -> Z;
  Encode : FireBlock B -> error + Block;
  GetProtocolFirstStreamableBlock : Z;
  CursorFromOpaque : string -> error + (string * Z)
}.

Arguments BlockFactoryIsPbbstream {B} _.
Arguments UnmarshalTo {B} _ _.
Arguments IsLIBNumDerivable {B} _ _.
Arguments GetFirehoseBlockNumber {B} _ _.
Arguments Encode {B} _ _.
Arguments GetProtocolFirstStreamableBlock {B} _.
Arguments CursorFromOpaque {B} _ _.

(** A stream of the remote service: the responses [Recv] gives in order,
    then the error it ends with ([io_EOF] for a clean end). *)
Record Stream : Type := {
  responses : list Response;
  ending : error
}.

(** The stream client: what the [n]-th call of [Blocks] answers to a
    request. *)
Definition Client : Type := nat -> Request -> error + Stream.

(** The merged-blocks writer: the result of [ProcessBlock] on a block,
    given the blocks it has been given before. *)
Definition Writer : Type := list Block -> Block -> option error.

Inductive event : Type :=
| CallBlocks (request : Request)
| LogError (e : error) (retry_delay : Z)
| Sleep (seconds : Z)
| Warn (msg : string)
| ProcessBlock (blk : Block) (res : option error).

(** [time.Second * 4], in seconds. *)
Definition retryDelay : Z := 4.

(** The variables of the command that live across the two loops;
    [processed] is the writer's history. *)
Record Session : Type := {
  approximateLIBWarningIssued : bool;
  fallbackBlockTypeChecked : bool;
  lastBlockID : string;
  lastBlockNum : Z;
  processed : list Block
}.

Definition tooOldWarning : string :=
  "the server endpoint you are trying to download from is too old to support 'download-from-firehose', contact the provider so they update their Firehose server to a more recent version".

Definition approximatedWarning : string :=
  "LIB number is approximated, it is not provided by the chain's Block model so we msut set it to block number minus 1 (which is kinda ok because only final blocks are retrieved in this download tool)".

(** The LIB number given to a block whose type cannot derive it. *)
Definition approximateLIB (first number : Z) : Z :=
  let libNum := uint64 (number - 1) in
  if number <=? first then number else libNum.

Section Download.

Context {B : Type}.
Variable chain : Chain B.
Variable firehoseClient : Client.
Variable requestInfo : RequestInfo.
Variable mergeWriter : Writer.
Variable blockRange : BlockRange.

(** The block handed to the encoder in the fallback path. *)
Definition wrapBlock (block : B) : FireBlock B :=
  if negb (IsLIBNumDerivable chain block) then
    BlockEnveloppe block
      (approximateLIB (GetProtocolFirstStreamableBlock chain) (GetFirehoseBlockNumber chain block))
  else ChainBlock block.

(** From a response to the [pbbstream.Block] [blk], with the flags as
    they are afterwards and the warnings issued; an error is what the
    command returns. *)
Definition toBlock (st : Session) (response : Response)
  : Session * list event * (error + Block) :=
  match Metadata response with
  | None =>
      let checkedNow := negb (fallbackBlockTypeChecked st) in
      let evs1 := if checkedNow then [Warn tooOldWarning] else [] in
      if checkedNow && BlockFactoryIsPbbstream chain then (st, evs1, inl ErrPbbstreamBlockType)
      else
        let st1 := {| approximateLIBWarningIssued := approximateLIBWarningIssued st;
                      fallbackBlockTypeChecked := true;
                      lastBlockID := lastBlockID st;
                      lastBlockNum := lastBlockNum st;
                      processed := processed st |} in
        match UnmarshalTo chain (RespBlock response) with
        | inl e => (st1, evs1, inl (ErrUnmarshal e))
        | inr block =>
            let warnNow := negb (IsLIBNumDerivable chain block)
                           && negb (approximateLIBWarningIssued st1) in
            let evs2 := if warnNow then [Warn approximatedWarning] else [] in
            let st2 := {| approximateLIBWarningIssued :=
                            approximateLIBWarningIssued st1 || negb (IsLIBNumDerivable chain block);
                          fallbackBlockTypeChecked := fallbackBlockTypeChecked st1;
                          lastBlockID := lastBlockID st1;
                          lastBlockNum := lastBlockNum st1;
                          processed := processed st1 |} in
            match Encode chain (wrapBlock block) with
            | inl e => (st2, evs1 ++ evs2, inl (ErrEncode e))
            | inr blk => (st2, evs1 ++ evs2, inr blk)
            end
        end
  | Some meta =>
      match CursorFromOpaque chain (RespCursor response) with
      | inl e => (st, [], inl (ErrCursor e))
      | inr (id, num) =>
          (st, [], inr {| Id := id;
                          Number := num;
                          ParentId := MetaParentId meta;
                          ParentNum := MetaParentNum meta;
                          Timestamp := MetaTime meta;
                          LibNum := MetaLibNum meta;
                          Payload := RespBlock response |})
      end
  end.

(** The continuity check and the hand-over to the writer. *)
Definition acceptBlock (st : Session) (blk : Block) : Session * list event * option error :=
  if negb (String.eqb (lastBlockID st) "") && negb (String.eqb (ParentId blk) (lastBlockID st))
  then (st, [], Some (ErrInvalidSequence (ParentId blk) (lastBlockNum st) (lastBlockID st)))
  else
    let res := mergeWriter (processed st) blk in
    let st1 := {| approximateLIBWarningIssued := approximateLIBWarningIssued st;
                  fallbackBlockTypeChecked := fallbackBlockTypeChecked st;
                  lastBlockID := Id blk;
                  lastBlockNum := Number blk;
                  processed := processed st ++ [blk] |} in
    match res with
    | Some e => (st1, [ProcessBlock blk res], Some (ErrBlockWriter e))
    | None => (st1, [ProcessBlock blk res], None)
    end.

(** The body of the inner loop for one response. *)
Definition handleResponse (st : Session) (response : Response)
  : Session * list event * option error :=
  let '(st1, evs1, r) := toBlock st response in
  match r with
  | inl e => (st1, evs1, Some e)
  | inr blk =>
      let '(st2, evs2, res) := acceptBlock st1 blk in
      (st2, evs1 ++ evs2, res)
  end.

(** How the inner loop is left: the command returns, or the loop breaks
    and the outer loop goes round again. *)
Inductive Exit : Type :=
| Return (res : option error)
| Break.

Fixpoint recvLoop (rs : list Response) (ending : error) (st : Session)
  : Session * list event * Exit :=
  match rs with
  | [] =>
      if is_EOF ending then (st, [], Return None)
      else (st, [LogError ending retryDelay; Sleep retryDelay], Break)
  | response :: rest =>
      let '(st1, evs1, res) := handleResponse st response in
      match res with
      | Some e => (st1, evs1, Return (Some e))
      | None =>
          let '(st2, evs2, ex) := recvLoop rest ending st1 in
          (st2, evs1 ++ evs2, ex)
      end
  end.

Definition mkRequest : Request :=
  {| StartBlockNum := Start blockRange;
     StopBlockNum := GetStopBlockOr blockRange 0;
     FinalBlocksOnly := true;
     Cursor := InfoCursor requestInfo |}.

(** How a run ends: the command returns, or it is still in its outer
    loop after [fuel] calls of [Blocks]. *)
Inductive Outcome : Type :=
| Returned (res : option error)
| StillRunning.

(** The outer loop; [attempt] counts the calls of [Blocks] made before. *)
Fixpoint downloadLoop (fuel attempt : nat) (st : Session) : Session * list event * Outcome :=
  match fuel with
  | O => (st, [], StillRunning)
  | S fuel' =>
      let request := mkRequest in
      match firehoseClient attempt request with
      | inl e => (st, [CallBlocks request], Returned (Some (ErrStartStream e)))
      | inr stream =>
          let '(st1, evs1, ex) := recvLoop (responses stream) (ending stream) st in
          match ex with
          | Return res => (st1, CallBlocks request :: evs1, Returned res)
          | Break =>
              let '(st2, evs2, out) := downloadLoop fuel' (S attempt) st1 in
              (st2, (CallBlocks request :: evs1) ++ evs2, out)
          end
      end
  end.

Definition initialSession : Session :=
  {| approximateLIBWarningIssued := false;
     fallbackBlockTypeChecked := false;
     lastBlockID := "";
     lastBlockNum := 0;
     processed := [] |}.

(** The command from the two loops on. *)
Definition downloadFromFirehose (fuel : nat) : Session * list event * Outcome :=
  downloadLoop fuel 0%nat initialSession.

End Download.

(** The requests of a trace, the blocks given to the writer, and the
    number of waits, in order. *)
Fixpoint requests (evs : list event) : list Request :=
  match evs with
  | [] => []
  | CallBlocks r :: rest => r :: requests rest
  | _ :: rest => requests rest
  end.

Fixpoint writerInput (evs : list event) : list Block :=
  match evs with
  | [] => []
  | ProcessBlock blk _ :: rest => blk :: writerInput rest
  | _ :: rest => writerInput rest
  end.

Fixpoint sleeps (evs : list event) : list Z :=
  match evs with
  | [] => []
  | Sleep d :: rest => d :: sleeps rest
  | _ :: rest => sleeps rest
  end.

End Firehose.

(** ** Vocabulary of the checker's properties *)

Module ToolsSpec.
Import Tools.

(** A reader that gives the blocks and then the end of the file. *)
Definition okReads (blocks : list Block) : list ReadResult :=
  map (fun b => (Some b, None)) blocks.

(** The blocks have ids and link: each block's parent id is the id
    before it, the first one's is [last] unless [last] is empty. *)
Fixpoint chained (last : string) (blocks : list Block) : Prop :=
  match blocks with
  | [] => True
  | b :: rest => Id b <> "" /\ (last = "" \/ PreviousId b = last) /\ chained (Id b) rest
  end.

(** The id carried after the blocks: the id of the last of them, or
    [last] when there is none. *)
Fixpoint carried (last : string) (blocks : list Block) : string :=
  match blocks with
  | [] => last
  | b :: rest => carried (Id b) rest
  end.

(** The base numbers [expected], [expected + fileBlockSize], ... that are
    below [baseNum], and the names of their markers. *)
Definition skippedCount (expected baseNum fileBlockSize : Z) : nat :=
  Z.to_nat ((baseNum - expected + fileBlockSize - 1) / fileBlockSize).

Definition skippedBases (expected baseNum fileBlockSize : Z) : list Z :=
  map (fun i => expected + Z.of_nat i * fileBlockSize)
      (seq 0 (skippedCount expected baseNum fileBlockSize)).

Definition missingName (base : Z) : string := (fmt010d base ++ ".missing")%string.
Definition brokenName (base : Z) : string := (fmt010d base ++ ".broken")%string.

Definition missingNames (expected baseNum fileBlockSize : Z) : list string :=
  map missingName (skippedBases expected baseNum fileBlockSize).

(** Base numbers that follow each other from [base] in steps of the
    bundle size. *)
Fixpoint contiguousFrom (base fileBlockSize : Z) (bases : list Z) : Prop :=
  match bases with
  | [] => True
  | b :: rest => b = base /\ contiguousFrom (base + fileBlockSize) fileBlockSize rest
  end.

(** The chain check in the specification's words: an empty carried id is
    seeded with the parent id of the first block; then the first block
    whose parent id is not the carried id makes the bundle broken and
    ends the scan, and each block that links hands on its own id. *)
Fixpoint spec_linkScan (lastBlockId : string) (blocks : list Block) : bool * string :=
  match blocks with
  | [] => (false, lastBlockId)
  | b :: rest =>
      if String.eqb (PreviousId b) lastBlockId then spec_linkScan (Id b) rest
      else (true, lastBlockId)
  end.

Definition spec_chainCheck (lastBlockId : string) (blocks : list Block) : bool * string :=
  match blocks with
  | [] => (false, lastBlockId)
  | b :: _ =>
      spec_linkScan (if String.eqb lastBlockId "" then PreviousId b else lastBlockId) blocks
  end.

(** [chained] as a test. *)
Fixpoint chainedb (last : string) (blocks : list Block) : bool :=
  match blocks with
  | [] => true
  | b :: rest =>
      negb (String.eqb (Id b) "")
      && (String.eqb last "" || String.eqb (PreviousId b) last)
      && chainedb (Id b) rest
  end.

(** Two states of the scan that differ at most in the destination
    store. *)
Definition agree (st1 st2 : ScanState) : Prop :=
  expected st1 = expected st2 /\ lastBlockHash st1 = lastBlockHash st2.

End ToolsSpec.

(** ** Example inputs for the checker *)

Module ToolsExamples.
Import Tools ToolsSpec.

(** The object listed under a name; a name that is not listed cannot be
    opened. *)
Fixpoint lookupObject (entries : list (string * Object)) (name : string) : Object :=
  match entries with
  | [] => OpenFails (ErrExternal "not found")
  | (n, o) :: rest => if String.eqb n name then o else lookupObject rest name
  end.

(** A store made of a list of named objects kept in the order of their
    names: the walk gives the names that are not below the starting
    point. *)
Definition listStore (entries : list (string * Object)) : Store :=
  {| WalkFrom := fun start =>
       (map fst (filter (fun e => negb (String.ltb (fst e) start)) entries), None);
     OpenObject := lookupObject entries |}.

(** Destination stores: one that takes every write, one that refuses
    every write. *)
Definition emptyDest : DestStore :=
  {| objects := []; fault := fun _ => None |}.

Definition brokenDest : DestStore :=
  {| objects := []; fault := fun _ => Some (ErrExternal "write refused") |}.

(** A block of a chain in which the block of number [n] has the id
    [fmt010d n] and the block before it as parent. *)
Definition blockAt (n : Z) : Block :=
  {| Id := fmt010d n; Number := n; PreviousId := fmt010d (n - 1); LibNum := n - 1 |}.

(** The bundle of a hundred blocks of that chain that starts at [base],
    under its ten-digit name. *)
Definition bundleBlocks (base : Z) : list Block :=
  map (fun i => blockAt (base + Z.of_nat i)) (seq 0 100).

Definition bundleAt (base : Z) : string * Object :=
  (fmt010d base, Readable (okReads (bundleBlocks base))).

(** Bundles 100 and 300 of one chain; bundle 200 is not there. *)
Definition gapStore : Store :=
  listStore [bundleAt 100; bundleAt 300].

Definition gapRange : BlockRange := {| Start := 100; Stop := Some 400 |}.

(** An archive with a stray object whose name sorts after the bundles and
    carries the base number 100. *)
Definition strayStore : Store :=
  listStore [bundleAt 200; ("old-0000000100", Readable (okReads (bundleBlocks 100)))].

Definition strayRange : BlockRange := {| Start := 250; Stop := Some 1000 |}.

(** The last bundle below 2^32 for a bundle size of 100, which holds the
    block 2^32, and a range that starts at that block. *)
Definition highStore : Store :=
  listStore [bundleAt 4294967200].

Definition highRange : BlockRange := {| Start := 4294967296; Stop := Some 4294967298 |}.

(** A bundle of base number 5000000000, above 2^32, whose only block
    has no id, and a range that starts at the bundle 4294967200. *)
Definition noIdBlock : Block :=
  {| Id := ""; Number := 5000000000; PreviousId := "4999999999"; LibNum := 4999999999 |}.

Definition farStore : Store :=
  listStore [(fmt010d 5000000000, Readable (okReads [noIdBlock]))].

Definition farRange : BlockRange := {| Start := 4294967200; Stop := Some 5000000100 |}.

(** Two bundles of one chain, the second one far above 2^32, and a range
    that starts at the first. *)
Definition farGapStore : Store :=
  listStore [bundleAt 4294967200; bundleAt 6000000000].

Definition farGapRange : BlockRange := {| Start := 4294967200; Stop := Some 6000000100 |}.

(** A bundle whose reader fails after two blocks. *)
Definition readErrStore : Store :=
  listStore [(fmt010d 100,
              Readable (okReads [blockAt 100; blockAt 101]
                        ++ [(None, Some (ErrExternal "unexpected EOF"))]))].

(** Three bundles that follow each other. *)
Definition cleanStore : Store :=
  listStore [bundleAt 100; bundleAt 200; bundleAt 300].

Definition cleanRange : BlockRange := {| Start := 150; Stop := Some 350 |}.

End ToolsExamples.

(** ** Vocabulary and example inputs for the downloader *)

Module FirehoseSpec.
Import Firehose.

(** Events of the handling of a response: warnings and blocks given to
    the writer. *)
Definition plainEvent (ev : event) : Prop :=
  match ev with
  | Warn _ | ProcessBlock _ _ => True
  | _ => False
  end.

(** The order of the events of the retry loop: a receive error that is
    logged is not the end of the stream and is followed at once by one
    wait of [retryDelay], after which the trace ends or [Blocks] is
    called with the request [req]; there is no other wait. *)
Fixpoint retryDiscipline (req : Request) (evs : list event) : Prop :=
  match evs with
  | [] => True
  | LogError e d :: rest =>
      is_EOF e = false /\ d = retryDelay /\
      match rest with
      | Sleep w :: rest' =>
          w = retryDelay /\
          match rest' with
          | [] => True
          | CallBlocks r :: _ => r = req
          | _ => False
          end /\
          retryDiscipline req rest'
      | _ => False
      end
  | Sleep _ :: _ => False
  | _ :: rest => retryDiscipline req rest
  end.

End FirehoseSpec.

Module FirehoseExamples.
Import Firehose.

(** A chain whose own blocks are their numbers and cannot derive the LIB
    number; the first streamable block is 1.  The block [n] has the id
    "b" followed by [n] in ten digits. *)
Definition blockId (n : Z) : string := ("b" ++ fmt010d n)%string.

Definition numberChain : Chain Z :=
  {| BlockFactoryIsPbbstream := false;
     UnmarshalTo := fun payload => inr (fst (ParseUint payload 64));
     IsLIBNumDerivable := fun _ => false;
     GetFirehoseBlockNumber := fun b => b;
     Encode := fun fb =>
       match fb with
       | ChainBlock b =>
           inr {| Id := blockId b; Number := b; ParentId := blockId (b - 1); ParentNum := b - 1;
                  Timestamp := 0; LibNum := 0; Payload := "" |}
       | BlockEnveloppe b lib =>
           inr {| Id := blockId b; Number := b; ParentId := blockId (b - 1); ParentNum := b - 1;
                  Timestamp := 0; LibNum := lib; Payload := "" |}
       end;
     GetProtocolFirstStreamableBlock := 1;
     CursorFromOpaque := fun c =>
       let n := fst (ParseUint c 64) in inr (blockId n, n) |}.

(** The response for the block [n], with metadata; its cursor is the
    number [n] in ten digits. *)
Definition responseAt (n : Z) : Response :=
  {| RespBlock := fmt010d n;
     Metadata := Some {| MetaParentId := blockId (n - 1); MetaParentNum := n - 1;
                         MetaTime := 0; MetaLibNum := n - 1 |};
     RespCursor := fmt010d n |}.

(** The same from a server too old to send metadata. *)
Definition oldResponseAt (n : Z) : Response :=
  {| RespBlock := fmt010d n; Metadata := None; RespCursor := fmt010d n |}.

(** What a server sends for a request: the blocks after the cursor's
    block when there is a cursor, the blocks from the start otherwise, up
    to the block 3. *)
Definition serve (request : Request) : list Response :=
  let from :=
    if String.eqb (Cursor request) "" then StartBlockNum request
    else fst (ParseUint (Cursor request) 64) + 1 in
  map (fun i => responseAt (from + Z.of_nat i)) (seq 0 (Z.to_nat (4 - from))).

(** A server whose first stream breaks after two blocks and whose later
    streams are served to their end. *)
Definition flakyClient : Client := fun attempt request =>
  match attempt with
  | O => inr {| responses := firstn 2 (serve request);
                ending := ErrExternal "connection reset" |}
  | S _ => inr {| responses := serve request; ending := io_EOF |}
  end.

Definition okWriter : Writer := fun _ _ => None.

Definition noCursor : RequestInfo := {| InfoCursor := "" |}.

Definition range_1_4 : BlockRange := {| Start := 1; Stop := Some 4 |}.

Definition session (id : string) (num : Z) : Session :=
  {| approximateLIBWarningIssued := false;
     fallbackBlockTypeChecked := false;
     lastBlockID := id;
     lastBlockNum := num;
     processed := [] |}.

End FirehoseExamples.

(** ** Further vocabulary of the checker's properties *)

Module ToolsReport.
Import Tools ToolsSpec.

(** A decimal digit, by the order of the characters. *)
Definition isDigit (c : ascii) : bool := (("0" <=? c) && (c <=? "9"))%char.

(** The name has ten decimal digits in a row from the position [i] on. *)
Definition digitRunAt (name : string) (i : nat) : Prop :=
  forall j : nat, (j < 10)%nat ->
    exists c : ascii, String.get (i + j) name = Some c /\ isDigit c = true.

(** The lines printed with the two kinds of marker. *)
Definition missingLine (base : Z) : string :=
  ("found missing file " ++ missingName base ++ ", writing to store")%string.

Definition brokenLine (base : Z) : string :=
  ("found broken file " ++ brokenName base ++ ", writing to store")%string.

(** What a scan finds at a base number: the bundle is missing, or the
    file of that base number was checked and found broken or not. *)
Inductive finding : Type :=
| MissingBundle (base : Z)
| CheckedBundle (filename : string) (base : Z) (broken : bool).

Definition findingBase (f : finding) : Z :=
  match f with
  | MissingBundle base => base
  | CheckedBundle _ base _ => base
  end.

(** The events of a finding: its lines and, for a bundle that is
    missing or broken, the write of its marker, with the result the
    destination store gives for the key. *)
Definition findingEvents (fault : string -> option error) (f : finding) : list event :=
  match f with
  | MissingBundle base =>
      [Stdout (missingLine base); DestWrite (missingName base) (fault (missingName base))]
  | CheckedBundle filename base broken =>
      Stdout ("checking " ++ filename)%string
      :: (if broken
          then [Stdout (brokenLine base); DestWrite (brokenName base) (fault (brokenName base))]
          else [])
  end.

(** The files that were checked, with their base numbers, in order. *)
Fixpoint checkedFiles (fs : list finding) : list (string * Z) :=
  match fs with
  | [] => []
  | MissingBundle _ :: rest => checkedFiles rest
  | CheckedBundle filename base _ :: rest => (filename, base) :: checkedFiles rest
  end.

(** The base numbers of the findings rise strictly and start at [lo] or
    above. *)
Fixpoint increasingFrom (lo : Z) (fs : list finding) : Prop :=
  match fs with
  | [] => True
  | f :: rest => lo <= findingBase f /\ increasingFrom (findingBase f + 1) rest
  end.

(** The names of a listing that the callback does not pass over, with
    their base numbers, in order. *)
Fixpoint consideredFiles (fileBlockSize : Z) (blockRange : BlockRange) (files : list string)
  : list (string * Z) :=
  match files with
  | [] => []
  | filename :: rest =>
      match bundleBase filename with
      | Some baseNum =>
          if beforeStart fileBlockSize blockRange baseNum
          then consideredFiles fileBlockSize blockRange rest
          else (filename, baseNum) :: consideredFiles fileBlockSize blockRange rest
      | None => consideredFiles fileBlockSize blockRange rest
      end
  end.

(** The first [n] base numbers from [base] on in steps of the bundle
    size. *)
Definition grid (base fileBlockSize : Z) (n : nat) : list Z :=
  map (fun i => base + Z.of_nat i * fileBlockSize) (seq 0 n).

(** The keys of the marker writes of a trace that succeeded, in order. *)
Fixpoint succeeded (evs : list event) : list string :=
  match evs with
  | [] => []
  | DestWrite key None :: rest => key :: succeeded rest
  | _ :: rest => succeeded rest
  end.

(** How a trace tells of the destination store [d1] it began with and
    the store [d2] it ended with: each write has the result the store
    gives for its key, and the store has gained an empty object for each
    write that succeeded. *)
Definition accounts (d1 d2 : DestStore) (evs : list event) : Prop :=
  fault d2 = fault d1 /\
  objects d2 = objects d1 ++ map (fun key => (key, "")) (succeeded evs) /\
  Forall (fun ev => match ev with
                    | DestWrite key res => res = fault d1 key
                    | Stdout _ => True
                    end) evs.

End ToolsReport.

(** ** Further vocabulary of the downloader's properties *)

Module FirehoseReport.
Import Firehose.

(** Each block names as its parent the block before it, the first one
    the block of id [lastId]; a block that follows an empty id is not
    held to anything. *)
Fixpoint linkedFrom (lastId : string) (blocks : list Block) : Prop :=
  match blocks with
  | [] => True
  | b :: rest => (lastId = "" \/ ParentId b = lastId) /\ linkedFrom (Id b) rest
  end.

(** The id and the number of the last of the blocks, or [lastId] and
    [lastNum] when there is none. *)
Fixpoint idAfter (lastId : string) (blocks : list Block) : string :=
  match blocks with
  | [] => lastId
  | b :: rest => idAfter (Id b) rest
  end.

Fixpoint numAfter (lastNum : Z) (blocks : list Block) : Z :=
  match blocks with
  | [] => lastNum
  | b :: rest => numAfter (Number b) rest
  end.

(** The errors the command wraps or makes itself; an error of [Recv] is
    none of them. *)
Definition terminalError (e : error) : bool :=
  match e with
  | ErrStartStream _ | ErrPbbstreamBlockType | ErrUnmarshal _ | ErrEncode _
  | ErrCursor _ | ErrInvalidSequence _ _ _ | ErrBlockWriter _ => true
  | _ => false
  end.

(** The warnings of a trace, in order. *)
Fixpoint warnings (evs : list event) : list string :=
  match evs with
  | [] => []
  | Warn msg :: rest => msg :: warnings rest
  | _ :: rest => warnings rest
  end.

(** The warnings a session has behind it, as its two flags tell. *)
Definition warned (st : Session) : list string :=
  if approximateLIBWarningIssued st then [tooOldWarning; approximatedWarning]
  else if fallbackBlockTypeChecked st then [tooOldWarning]
  else [].

(** The block of a response that carries metadata, when its cursor can
    be read. *)
Definition metaBlock {B : Type} (chain : Chain B) (response : Response) : option Block :=
  match Metadata response with
  | None => None
  | Some meta =>
      match CursorFromOpaque chain (RespCursor response) with
      | inl _ => None
      | inr (id, num) =>
          Some {| Id := id;
                  Number := num;
                  ParentId := MetaParentId meta;
                  ParentNum := MetaParentNum meta;
                  Timestamp := MetaTime meta;
                  LibNum := MetaLibNum meta;
                  Payload := RespBlock response |}
      end
  end.

(** From the session [st] the events [evs] lead to the session [st']:
    the blocks given to the writer link on from the last block of [st],
    they are what [st'] has more than [st], and the last of them is the
    last block of [st']. *)
Definition tracks (st : Session) (evs : list event) (st' : Session) : Prop :=
  linkedFrom (lastBlockID st) (writerInput evs) /\
  processed st' = processed st ++ writerInput evs /\
  lastBlockID st' = idAfter (lastBlockID st) (writerInput evs) /\
  lastBlockNum st' = numAfter (lastBlockNum st) (writerInput evs).

(** Every response of the list is handled without an error from the
    session [st] on, so that the inner loop comes to the receive after
    the last of them. *)
Fixpoint handled {B : Type} (chain : Chain B) (mergeWriter : Writer)
    (st : Session) (rs : list Response) : Prop :=
  match rs with
  | [] => True
  | response :: rest =>
      snd (handleResponse chain mergeWriter st response) = None /\
      handled chain mergeWriter (fst (fst (handleResponse chain mergeWriter st response))) rest
  end.

(** The flag of the second warning is set only after that of the
    first. *)
Definition wellWarned (st : Session) : Prop :=
  approximateLIBWarningIssued st = true -> fallbackBlockTypeChecked st = true.

(** No warning, the first warning, or the first and then the second. *)
Definition atMostOnce (ws : list string) : Prop :=
  ws = [] \/ ws = [tooOldWarning] \/ ws = [tooOldWarning; approximatedWarning].

End FirehoseReport.

Module FirehoseMoreExamples.
Import Firehose FirehoseExamples.

(** A server whose streams are served to their end. *)
Definition steadyClient : Client := fun _ request =>
  inr {| responses := serve request; ending := io_EOF |}.

(** A server that goes on by itself: its stream number [n] gives the
    block [n+1] and breaks. *)
Definition resumingClient : Client := fun n _ =>
  inr {| responses := [responseAt (Z.of_nat n + 1)]; ending := ErrExternal "unavailable" |}.

(** The block made from [responseAt n]. *)
Definition servedBlock (n : Z) : Block :=
  {| Id := blockId n; Number := n; ParentId := blockId (n - 1); ParentNum := n - 1;
     Timestamp := 0; LibNum := n - 1; Payload := fmt010d n |}.

End FirehoseMoreExamples.

(** ** Package [main]: the generator of the well-known registry *)

Module Generator.

(** A file of a descriptor set: its name, which may be unset, and what
    [proto.Marshal] gives for it. *)
Record FileDescriptorProto : Type := {
  FileName : option string;
  Marshalled : error + list Byte.byte
}.

Record ProtoFile : Type := {
  Name : string;
  Data : list Byte.byte
}.

Definition wellKnownProtoRepos : list string :=
  ["buf.build/streamingfast/firehose-ethereum";
   "buf.build/streamingfast/firehose-near";
   "buf.build/streamingfast/firehose-solana"].

(** [hex.EncodeToString]: two characters of [hextable] for each byte,
    the high half first. *)
Definition hextable : string := "0123456789abcdef".

Definition hexDigit (n : N) : ascii :=
  match String.get (N.to_nat n) hextable with
  | Some c => c
  | None => "0"%char
  end.

Fixpoint EncodeToString (src : list Byte.byte) : string :=
  match src with
  | [] => EmptyString
  | v :: rest =>
      String (hexDigit (N.shiftr (Byte.to_N v) 4))
        (String (hexDigit (N.land (Byte.to_N v) 15)) (EncodeToString rest))
  end.

(** The template function [toHex]. *)
Definition toHex (input : list Byte.byte) : string := EncodeToString input.

(** What [main] finds outside: the arguments, the environment variable
    (empty when unset), the answer of the descriptor service to a module
    and an [Authorization] header, and the results of parsing the
    templates, making the output directory, creating the output file and
    executing the template on a package name and the files (the text it
    writes and its error if any). *)
Record World : Type := {
  Args : list string;
  BUFBUILD_AUTH_TOKEN : string;
  GetFileDescriptorSet : string -> string -> error + list FileDescriptorProto;
  ParseFS : option error;
  Dir : string -> string;
  MkdirAll : string -> option error;
  Create : string -> option error;
  ExecuteTemplate : string -> list ProtoFile -> string * option error
}.

Inductive event : Type :=
| Request (module authorization : string)
| Sleep (seconds : Z)
| MadeDir (path : string)
| Created (path : string)
| Written (target text : string)
| Flushed (path : string)
| Println (line : string).

(** How the process ends: [main] returns, or one of its checks ends the
    process ([cli.Ensure], [log.Fatalf], [cli.NoError]). *)
Inductive exit : Type :=
| Returns
| EnsureArgs
| FatalNoToken
| FatalRequest (e : error)
| FatalMarshal (name : option string) (e : error)
| NoErrorTemplate (e : error)
| NoErrorMkdir (e : error)
| NoErrorCreate (e : error)
| NoErrorRender (e : error).

(** The inner loop over the files of one descriptor set. *)
Fixpoint appendFiles (files : list FileDescriptorProto) (protofiles : list ProtoFile)
  : exit + list ProtoFile :=
  match files with
  | [] => inr protofiles
  | file :: rest =>
      match Marshalled file with
      | inl e => inl (FatalMarshal (FileName file) e)
      | inr cnt =>
          let name := match FileName file with Some n => n | None => EmptyString end in
          appendFiles rest (protofiles ++ [{| Name := name; Data := cnt |}])
      end
  end.

(** The loop over the repositories. *)
Fixpoint fetchAll (w : World) (authToken : string) (repos : list string)
    (protofiles : list ProtoFile) : list event * (exit + list ProtoFile) :=
  match repos with
  | [] => ([], inr protofiles)
  | repo :: rest =>
      let authorization := ("Bearer " ++ authToken)%string in
      match GetFileDescriptorSet w repo authorization with
      | inl e => ([Request repo authorization], inl (FatalRequest e))
      | inr files =>
          match appendFiles files protofiles with
          | inl x => ([Request repo authorization], inl x)
          | inr protofiles' =>
              let '(evs, res) := fetchAll w authToken rest protofiles' in
              (Request repo authorization :: Sleep 1 :: evs, res)
          end
      end
  end.

(** The end of [main] from the execution of the template on; [deferred]
    are the events of the deferred function, which runs only when [main]
    returns. *)
Definition render (w : World) (target packageName : string) (protofiles : list ProtoFile)
    (deferred : list event) : list event * exit :=
  let '(text, err) := ExecuteTemplate w packageName protofiles in
  match err with
  | Some e => ([Written target text], NoErrorRender e)
  | None =>
      ([Written target text; Println "Done creating well known registry"] ++ deferred, Returns)
  end.

(** [main], over the repositories [repos]. *)
Definition mainOver (repos : list string) (w : World) : list event * exit :=
  match Args w with
  | [_; output; packageName] =>
      let authToken := BUFBUILD_AUTH_TOKEN w in
      if String.eqb authToken "" then ([], FatalNoToken)
      else
        let '(evs, fetched) := fetchAll w authToken repos [] in
        match fetched with
        | inl x => (evs, x)
        | inr protofiles =>
            match ParseFS w with
            | Some e => (evs, NoErrorTemplate e)
            | None =>
                if String.eqb output "-" then
                  let '(evs2, x) := render w "-" packageName protofiles [] in
                  (evs ++ evs2, x)
                else
                  match MkdirAll w (Dir w output) with
                  | Some e => (evs, NoErrorMkdir e)
                  | None =>
                      match Create w output with
                      | Some e => (evs ++ [MadeDir (Dir w output)], NoErrorCreate e)
                      | None =>
                          let '(evs2, x) :=
                            render w output packageName protofiles [Flushed output] in
                          (evs ++ [MadeDir (Dir w output); Created output] ++ evs2, x)
                      end
                  end
            end
        end
  | _ => ([], EnsureArgs)
  end.

Definition main (w : World) : list event * exit := mainOver wellKnownProtoRepos w.

(** The requests of a trace and the texts written, in order. *)
Fixpoint requested (evs : list event) : list string :=
  match evs with
  | [] => []
  | Request module _ :: rest => module :: requested rest
  | _ :: rest => requested rest
  end.

Fixpoint writes (evs : list event) : list string :=
  match evs with
  | [] => []
  | Written _ text :: rest => text :: writes rest
  | _ :: rest => writes rest
  end.

Fixpoint naps (evs : list event) : list Z :=
  match evs with
  | [] => []
  | Sleep seconds :: rest => seconds :: naps rest
  | _ :: rest => naps rest
  end.

Fixpoint flushes (evs : list event) : list string :=
  match evs with
  | [] => []
  | Flushed path :: rest => path :: flushes rest
  | _ :: rest => flushes rest
  end.

(** The file the template gets for a file of a descriptor set that can
    be marshalled. *)
Definition protoFileOf (file : FileDescriptorProto) : option ProtoFile :=
  match Marshalled file with
  | inl _ => None
  | inr cnt =>
      Some {| Name := match FileName file with Some n => n | None => EmptyString end;
              Data := cnt |}
  end.

(** Reading two characters of [hextable] back as a byte. *)
Definition nibbleOf (c : ascii) : option N :=
  let n := N.of_nat (nat_of_ascii c) in
  if ((48 <=? n) && (n <=? 57))%N then Some (n - 48)%N
  else if ((97 <=? n) && (n <=? 102))%N then Some (n - 87)%N
  else None.

Definition byteOf (hi lo : ascii) : option Byte.byte :=
  match nibbleOf hi, nibbleOf lo with
  | Some h, Some l => Byte.of_N (16 * h + l)
  | _, _ => None
  end.

(** The events of a fetch of all of [repos] that meets no error. *)
Definition fetchEvents (authToken : string) (repos : list string) : list event :=
  flat_map (fun repo => [Request repo ("Bearer " ++ authToken)%string; Sleep 1]) repos.

End Generator.

Module GeneratorExamples.
Import Generator.

(** A descriptor service with two files for each module, the second
    without a name, and an environment in which nothing fails; the
    template's text is the package name. *)
Definition twoFiles (module : string) : list FileDescriptorProto :=
  [{| FileName := Some (module ++ "/a.proto")%string; Marshalled := inr [Byte.x0a; Byte.xff] |};
   {| FileName := None; Marshalled := inr [] |}].

Definition goodWorld : World :=
  {| Args := ["generator"; "out/registry.go"; "wellknown"];
     BUFBUILD_AUTH_TOKEN := "secret";
     GetFileDescriptorSet := fun module _ => inr (twoFiles module);
     ParseFS := None;
     Dir := fun _ => "out";
     MkdirAll := fun _ => None;
     Create := fun _ => None;
     ExecuteTemplate := fun packageName _ => (packageName, None) |}.

(** The same with a service that refuses the second module. *)
Definition refusingWorld : World :=
  {| Args := ["generator"; "out/registry.go"; "wellknown"];
     BUFBUILD_AUTH_TOKEN := "secret";
     GetFileDescriptorSet := fun module _ =>
       if String.eqb module "buf.build/streamingfast/firehose-near"
       then inl (ErrExternal "rate limited") else inr (twoFiles module);
     ParseFS := None;
     Dir := fun _ => "out";
     MkdirAll := fun _ => None;
     Create := fun _ => None;
     ExecuteTemplate := fun packageName _ => (packageName, None) |}.

End GeneratorExamples.

(** ** Package [firehose]: the [firehose-client] command with
    [print-cursor-only] *)

Module FirehoseClient.

(** [pbfirehose.Response] and [pbfirehose.Request] as this command uses
    them; [Step] is the text of [response.Step.String()]. *)
Record Response : Type := {
  Step : string;
  Cursor : string
}.

Record Request : Type := {
  StartBlockNum : Z;
  StopBlockNum : Z;
  Transforms : list string;
  FinalBlocksOnly : bool;
  ReqCursor : string
}.

Record RequestInfo : Type := {
  InfoTransforms : list string;
  InfoFinalBlocksOnly : bool;
  InfoCursor : string
}.

(** A stream: the result of [Header] (the values of [hostname]), the
    responses [Recv] gives in order, and the error it ends with. *)
Record Stream : Type := {
  header : error + list string;
  responses : list Response;
  ending : error
}.

Inductive event : Type :=
| CallBlocks (request : Request)
| Warn (msg : string)
| Info (msg : string) (remote_hostname : option string)
| Stdout (line : string)
| ConnClose.

(** The errors the command returns. *)
Inductive failure : Type :=
| ErrClient (e : error)                          (* of [getFirehoseStreamClientFromCmd] *)
| ErrInvalidRange (arg : string) (cause : error) (* "invalid range %q: %w" *)
| ErrStart (cause : error)                       (* "unable to start blocks stream: %w" *)
| ErrOutputPrinter (cause : error)               (* "unable to create output printer: %w" *)
| ErrStreamReceive (cause : error).              (* "stream error while receiving: %w" *)

(** The receive loop when only cursors are printed: one line
    [step - cursor] for each response. *)
Fixpoint cursorLoop (rs : list Response) (ending : error) : list event * option failure :=
  match rs with
  | [] =>
      if is_EOF ending then ([], None) else ([], Some (ErrStreamReceive ending))
  | response :: rest =>
      let '(evs, res) := cursorLoop rest ending in
      (Stdout (Step response ++ " - " ++ Cursor response)%string :: evs, res)
  end.

(** The command with the flag [print-cursor-only] set, in which case no
    goroutine is started.  [client] is the result of
    [getFirehoseStreamClientFromCmd] (the [Blocks] call and the request
    info), [parsedRange] that of [types.GetBlockRangeFromArg] on
    [rangeArg], [printer] the error of [print.GetOutputPrinter] if any.
    The deferred [connClose] ends every run that got a client. *)
Definition getFirehoseClientE (client : error + ((Request -> error + Stream) * RequestInfo))
    (rangeArg : string) (parsedRange : error + Firehose.BlockRange) (printer : option error)
  : list event * option failure :=
  match client with
  | inl e => ([], Some (ErrClient e))
  | inr (blocks, requestInfo) =>
      let '(evs, res) :=
        match parsedRange with
        | inl e => ([], Some (ErrInvalidRange rangeArg e))
        | inr blockRange =>
            let request :=
              {| StartBlockNum := Firehose.Start blockRange;
                 StopBlockNum := Firehose.GetStopBlockOr blockRange 0;
                 Transforms := InfoTransforms requestInfo;
                 FinalBlocksOnly := InfoFinalBlocksOnly requestInfo;
                 ReqCursor := InfoCursor requestInfo |} in
            match blocks request with
            | inl e => ([CallBlocks request], Some (ErrStart e))
            | inr stream =>
                let connected :=
                  match header stream with
                  | inl _ => [Warn "cannot read header"; Info "connected" None]
                  | inr hosts => [Info "connected" (hd_error hosts)]
                  end in
                match printer with
                | Some e => (CallBlocks request :: connected, Some (ErrOutputPrinter e))
                | None =>
                    let '(lines, res) := cursorLoop (responses stream) (ending stream) in
                    (CallBlocks request :: connected ++ lines, res)
                end
            end
        end in
      (evs ++ [ConnClose], res)
  end.

(** The lines printed and the calls of [Blocks] of a trace, in order. *)
Fixpoint printed (evs : list event) : list string :=
  match evs with
  | [] => []
  | Stdout line :: rest => line :: printed rest
  | _ :: rest => printed rest
  end.

Fixpoint calls (evs : list event) : list Request :=
  match evs with
  | [] => []
  | CallBlocks request :: rest => request :: calls rest
  | _ :: rest => calls rest
  end.

Fixpoint closes (evs : list event) : nat :=
  match evs with
  | [] => 0
  | ConnClose :: rest => S (closes rest)
  | _ :: rest => closes rest
  end.

(** A stream of two responses that breaks after them. *)
Definition brokenStream : Stream :=
  {| header := inr ["host-1"];
     responses := [{| Step := "STEP_NEW"; Cursor := "c1" |};
                   {| Step := "STEP_FINAL"; Cursor := "c2" |}];
     ending := ErrExternal "connection reset" |}.

End FirehoseClient.

(** ** Go strings and numbers: lemmas *)

Example fmt010d_200 : fmt010d 200 = "0000000200".
Proof. reflexivity. Qed.

Example fmt010d_wide : fmt010d 12345678901 = "12345678901".
Proof. reflexivity. Qed.

Example ParseUint_clamps : ParseUint "5000000000" 32 = (4294967295, Some ErrRange).
Proof. reflexivity. Qed.

Example numberRegex_inner : numberRegex_FindStringSubmatch "old-0000000100" = Some "0000000100".
Proof. reflexivity. Qed.

Example HasSuffix_tmp : HasSuffix "0000000100.tmp" ".tmp" = true.
Proof. reflexivity. Qed.

Lemma digitVal_digitChar (d : Z) : 0 <= d < 10 -> digitVal (digitChar d) = Some d.
Proof.
  intros H.
  assert (d = 0 \/ d = 1 \/ d = 2 \/ d = 3 \/ d = 4 \/ d = 5 \/ d = 6 \/ d = 7 \/ d = 8 \/ d = 9) as C by lia.
  repeat (destruct C as [C | C]; [subst d; reflexivity |]).
  subst d; reflexivity.
Qed.

Lemma digitChar_not_dot (d : Z) : 0 <= d < 10 -> Ascii.eqb (digitChar d) "."%char = false.
Proof.
  intros H.
  assert (d = 0 \/ d = 1 \/ d = 2 \/ d = 3 \/ d = 4 \/ d = 5 \/ d = 6 \/ d = 7 \/ d = 8 \/ d = 9) as C by lia.
  repeat (destruct C as [C | C]; [subst d; reflexivity |]).
  subst d; reflexivity.
Qed.

Lemma mod10_digit (x : Z) : 0 <= x mod 10 < 10.
Proof. apply Z.mod_pos_bound; lia. Qed.

Lemma takeDigits_digitsN (k : nat) : forall (x : Z) (acc accm : string) (m : nat),
  takeDigits m acc = Some accm ->
  takeDigits (k + m) (digitsN k x acc) = Some (digitsN k x accm).
Proof.
  induction k as [|k IH]; intros x acc accm m H; [exact H|].
  cbn [digitsN]. replace (S k + m)%nat with (k + S m)%nat by lia.
  apply IH. cbn [takeDigits].
  rewrite (digitVal_digitChar _ (mod10_digit x)), H. reflexivity.
Qed.

Lemma numberRegex_unfold (s : string) :
  numberRegex_FindStringSubmatch s =
  match takeDigits 10 s with
  | Some m => Some m
  | None => match s with
            | EmptyString => None
            | String _ s' => numberRegex_FindStringSubmatch s'
            end
  end.
Proof. destruct s; reflexivity. Qed.

Lemma numberRegex_fmt010d (b : Z) :
  b < 10 ^ 10 -> numberRegex_FindStringSubmatch (fmt010d b) = Some (fmt010d b).
Proof.
  intros H. unfold fmt010d.
  destruct (Z.ltb_spec b (10 ^ 10)) as [_|]; [|lia].
  rewrite numberRegex_unfold.
  change 10%nat with (10 + 0)%nat at 1.
  rewrite (takeDigits_digitsN 10 b "" "" 0 eq_refl). reflexivity.
Qed.

Lemma parseLoop_digitsN (maxVal : Z) (k : nat) : forall (x n : Z) (rest : string),
  maxVal <= maxUint64 -> 0 <= n -> 0 <= x ->
  n * 10 ^ Z.of_nat k + x mod 10 ^ Z.of_nat k <= maxVal ->
  parseLoop (digitsN k x rest) n maxVal =
  parseLoop rest (n * 10 ^ Z.of_nat k + x mod 10 ^ Z.of_nat k) maxVal.
Proof.
  induction k as [|k IH]; intros x n rest Hmax Hn Hx Hb.
  - cbn [digitsN]. change (10 ^ Z.of_nat 0) with 1. rewrite Z.mod_1_r. f_equal. lia.
  - cbn [digitsN].
    assert (E : 10 ^ Z.of_nat (S k) = 10 * 10 ^ Z.of_nat k).
    { rewrite Nat2Z.inj_succ, Z.pow_succ_r by lia. reflexivity. }
    rewrite E in *.
    assert (P : 0 < 10 ^ Z.of_nat k) by (apply Z.pow_pos_nonneg; lia).
    rewrite Z.rem_mul_r in * by lia.
    pose proof (mod10_digit x) as D.
    pose proof (Z.mod_pos_bound (x / 10) (10 ^ Z.of_nat k) P) as Q.
    rewrite IH by (first [lia | apply Z.div_pos; lia | nia]).
    cbn [parseLoop]. rewrite (digitVal_digitChar _ D).
      set (n' := n * 10 ^ Z.of_nat k + (x / 10) mod 10 ^ Z.of_nat k) in *.
      assert (Hn' : 0 <= n') by (subst n'; nia).
      assert (B : n' * 10 + x mod 10 <= maxVal) by (subst n'; nia).
      assert (M : maxUint64 / 10 + 1 = 1844674407370955162) by reflexivity.
      assert (M' : maxUint64 = 18446744073709551615) by reflexivity.
      destruct (Z.leb_spec (maxUint64 / 10 + 1) n') as [L|L]; [lia|].
      destruct (Z.ltb_spec maxVal (n' * 10 + x mod 10)) as [L'|L']; [lia|].
      f_equal. subst n'. ring.
Qed.

Lemma ParseUint_fmt010d (b : Z) :
  0 <= b < 2 ^ 32 -> ParseUint (fmt010d b) 32 = (b, None).
Proof.
  intros H. unfold fmt010d.
  destruct (Z.ltb_spec b (10 ^ 10)) as [_|]; [|lia].
  assert (E : ParseUint (digitsN 10 b "") 32 = parseLoop (digitsN 10 b "") 0 (2 ^ 32 - 1)).
  { cbn [digitsN]. reflexivity. }
  rewrite E, (parseLoop_digitsN (2 ^ 32 - 1) 10 b 0 "").
  - cbn [parseLoop]. f_equal. rewrite Z.mod_small; lia.
  - unfold maxUint64; lia.
  - lia.
  - lia.
  - rewrite Z.mod_small; lia.
Qed.

Lemma length_digitsN (k : nat) : forall x acc,
  String.length (digitsN k x acc) = (k + String.length acc)%nat.
Proof.
  induction k as [|k IH]; intros x acc; [reflexivity|].
  cbn [digitsN]. rewrite IH. cbn [String.length]. lia.
Qed.

Lemma HasSuffix_fmt010d (b : Z) :
  b < 10 ^ 10 -> HasSuffix (fmt010d b) ".tmp" = false.
Proof.
  intros H. unfold fmt010d.
  destruct (Z.ltb_spec b (10 ^ 10)) as [_|]; [|lia].
  unfold HasSuffix. rewrite length_digitsN.
  cbn [digitsN String.length Nat.add Nat.sub Nat.leb andb substring].
  cbn [String.eqb].
  rewrite digitChar_not_dot by apply mod10_digit. reflexivity.
Qed.

(** ** The checker: lemmas *)

Module ToolsFacts.
Import Tools ToolsSpec ToolsExamples.

Lemma uint64_small (z : Z) : 0 <= z < 2 ^ 64 -> uint64 z = z.
Proof. intros H. unfold uint64. apply Z.mod_small. exact H. Qed.

Lemma uint32_small (z : Z) : 0 <= z < 2 ^ 32 -> uint32 z = z.
Proof. intros H. unfold uint32. apply Z.mod_small. exact H. Qed.

Lemma markers_app (a b : list event) : markers (a ++ b) = markers a ++ markers b.
Proof.
  induction a as [|e a IH]; [reflexivity|].
  destruct e; cbn [markers app]; rewrite IH; reflexivity.
Qed.

Lemma printed_app (a b : list event) : printed (a ++ b) = printed a ++ printed b.
Proof.
  induction a as [|e a IH]; [reflexivity|].
  destruct e; cbn [printed app]; rewrite IH; reflexivity.
Qed.

Lemma skippedCount_zero (e b s : Z) : 0 < s -> b <= e -> skippedCount e b s = 0%nat.
Proof.
  intros Hs H. unfold skippedCount.
  assert ((b - e + s - 1) / s <= 0).
  { assert ((b - e + s - 1) / s < 1); [|lia].
    apply Z.div_lt_upper_bound; lia. }
  lia.
Qed.

Lemma skippedCount_succ (e b s : Z) :
  0 < s -> e < b -> skippedCount e b s = S (skippedCount (e + s) b s).
Proof.
  intros Hs H. unfold skippedCount.
  replace (b - e + s - 1) with ((b - (e + s) + s - 1) + 1 * s) by ring.
  rewrite Z.div_add by lia.
  assert (0 <= (b - (e + s) + s - 1) / s) by (apply Z.div_pos; lia).
  rewrite Z2Nat.inj_add by lia. change (Z.to_nat 1) with 1%nat. lia.
Qed.

Lemma skippedBases_nil (e b s : Z) : 0 < s -> b <= e -> skippedBases e b s = [].
Proof. intros. unfold skippedBases. rewrite skippedCount_zero by assumption. reflexivity. Qed.

Lemma skippedBases_cons (e b s : Z) :
  0 < s -> e < b -> skippedBases e b s = e :: skippedBases (e + s) b s.
Proof.
  intros Hs H. unfold skippedBases. rewrite (skippedCount_succ e b s Hs H).
  cbn [seq map]. f_equal; [lia|].
  rewrite <- seq_shift, map_map. apply map_ext. intros i. lia.
Qed.

Lemma missingRounds_enough (e b s : Z) :
  0 < s -> (skippedCount e b s <= missingRounds e b s)%nat.
Proof.
  intros Hs. unfold skippedCount, missingRounds.
  assert ((b - e + s - 1) / s <= (b - e) / s + 1); [|lia].
  rewrite <- (Z.div_add (b - e) 1 s) by lia.
  apply Z.div_le_mono; lia.
Qed.

Lemma WriteObject_fault (d d' : DestStore) (key content : string) (res : option error) :
  WriteObject d key content = (d', res) -> fault d' = fault d.
Proof.
  unfold WriteObject. destruct (fault d key); intros H; inversion H; reflexivity.
Qed.

Lemma WriteObject_res (d d' : DestStore) (key content : string) (res : option error) :
  WriteObject d key content = (d', res) -> res = fault d key.
Proof.
  unfold WriteObject. destruct (fault d key); intros H; inversion H; reflexivity.
Qed.

(** The loop over the skipped bundles, given rounds enough: it stops at
    the first base number that is not below [b] and has written one
    [.missing] marker for each base number it passed. *)
Lemma fillMissing_spec (b s : Z) :
  0 < s < 2 ^ 32 -> b < 2 ^ 32 ->
  forall (fuel : nat) (e : Z) (dest : DestStore),
    0 <= e -> (skippedCount e b s <= fuel)%nat ->
    exists dest' evs,
      fillMissing fuel e b s dest = (e + Z.of_nat (skippedCount e b s) * s, dest', evs) /\
      markers evs = missingNames e b s /\
      fault dest' = fault dest.
Proof.
  intros Hs Hb. induction fuel as [|fuel IH]; intros e dest He Hf.
  - exists dest, []. cbn [fillMissing].
    assert (C : skippedCount e b s = 0%nat) by lia.
    unfold missingNames, skippedBases. rewrite C. cbn.
    repeat split. f_equal. f_equal. lia.
  - cbn [fillMissing]. destruct (Z.ltb_spec e b) as [L|L].
    + pose proof (skippedCount_succ e b s (proj1 Hs) L) as C.
      destruct (WriteObject dest (fmt010d e ++ ".missing") "") as [dest1 res] eqn:W.
      rewrite (uint64_small (e + s)) by lia.
      destruct (IH (e + s) dest1) as (dest' & evs & E & M & F); [lia|lia|].
      rewrite E. eexists _, _. split; [|split].
      * f_equal. f_equal. rewrite C. lia.
      * cbn [markers]. rewrite M. unfold missingNames.
        rewrite (skippedBases_cons e b s) by lia. reflexivity.
      * rewrite F. eapply WriteObject_fault; eassumption.
    + exists dest, []. rewrite skippedCount_zero by lia.
      unfold missingNames. rewrite skippedBases_nil by lia.
      repeat split. f_equal. f_equal. lia.
Qed.

Lemma skippedCount_reach (e b s : Z) :
  0 < s -> b <= e + Z.of_nat (skippedCount e b s) * s.
Proof.
  intros Hs. unfold skippedCount.
  destruct (Z.le_gt_cases b e) as [L|L].
  - assert (0 <= Z.of_nat (Z.to_nat ((b - e + s - 1) / s)) * s) by nia. lia.
  - assert (P : 0 <= (b - e + s - 1) / s) by (apply Z.div_pos; lia).
    rewrite Z2Nat.id by exact P.
    pose proof (Z.div_mod (b - e + s - 1) s ltac:(lia)) as D.
    pose proof (Z.mod_pos_bound (b - e + s - 1) s Hs) as M. nia.
Qed.

Lemma skippedCount_exact (e b s : Z) :
  0 < s -> e <= b -> (b - e) mod s = 0 ->
  e + Z.of_nat (skippedCount e b s) * s = b.
Proof.
  intros Hs L M. unfold skippedCount.
  pose proof (Z.div_mod (b - e) s ltac:(lia)) as D. rewrite M in D.
  assert (Q : 0 <= (b - e) / s) by (apply Z.div_pos; lia).
  replace (b - e + s - 1) with ((s - 1) + (b - e) / s * s) by lia.
  rewrite Z.div_add by lia. rewrite (Z.div_small (s - 1) s) by lia.
  rewrite Z2Nat.id by lia. lia.
Qed.

Lemma In_skippedBases (e b s x : Z) :
  0 < s ->
  (In x (skippedBases e b s) <-> exists k : Z, 0 <= k /\ x = e + k * s /\ x < b).
Proof.
  intros Hs. unfold skippedBases. rewrite in_map_iff. split.
  - intros (i & E & I). apply in_seq in I. exists (Z.of_nat i).
    split; [lia|]. split; [lia|]. subst x.
    unfold skippedCount in I.
    assert (Q : Z.of_nat i < (b - e + s - 1) / s) by lia.
    assert (Z.of_nat i + 1 <= (b - e + s - 1) / s) as Q' by lia.
    pose proof (Z.mul_div_le (b - e + s - 1) s Hs). nia.
  - intros (k & K & E & L). exists (Z.to_nat k). split; [lia|].
    apply in_seq. split; [lia|]. cbn. unfold skippedCount.
    assert (k < (b - e + s - 1) / s); [|lia].
    assert (k + 1 <= (b - e + s - 1) / s); [|lia].
    apply Z.div_le_lower_bound; nia.
Qed.

Lemma digitVal_range (c : ascii) (d : Z) : digitVal c = Some d -> 0 <= d <= 9.
Proof.
  unfold digitVal.
  destruct (Z.leb_spec 48 (Z.of_nat (nat_of_ascii c))) as [L1|L1];
    destruct (Z.leb_spec (Z.of_nat (nat_of_ascii c)) 57) as [L2|L2]; cbn [andb];
    intros E; inversion E; lia.
Qed.

Lemma parseLoop_bound (maxVal : Z) (s : string) : forall n : Z,
  0 <= n <= maxVal -> 0 <= fst (parseLoop s n maxVal) <= maxVal.
Proof.
  induction s as [|c s IH]; intros n Hn; cbn [parseLoop]; [exact Hn|].
  destruct (digitVal c) as [d|] eqn:D; [|cbn; lia].
  apply digitVal_range in D.
  destruct (maxUint64 / 10 + 1 <=? n); [cbn; lia|].
  destruct (Z.ltb_spec maxVal (n * 10 + d)); [cbn; lia|].
  apply IH. lia.
Qed.

Lemma ParseUint_bound (s : string) : 0 <= fst (ParseUint s 32) < 2 ^ 32.
Proof.
  unfold ParseUint. destruct s as [|c s]; [cbn; lia|].
  pose proof (parseLoop_bound (2 ^ 32 - 1) (String c s) 0 ltac:(lia)). lia.
Qed.

Lemma bundleBase_bound (filename : string) (b : Z) :
  bundleBase filename = Some b -> 0 <= b < 2 ^ 32.
Proof.
  unfold bundleBase. destruct (HasSuffix filename ".tmp"); [discriminate|].
  destruct (numberRegex_FindStringSubmatch filename) as [m|]; [|discriminate].
  intros H. inversion H. apply ParseUint_bound.
Qed.

Lemma bundleBase_fmt010d (b : Z) : 0 <= b < 2 ^ 32 -> bundleBase (fmt010d b) = Some b.
Proof.
  intros H. unfold bundleBase.
  rewrite HasSuffix_fmt010d, numberRegex_fmt010d, ParseUint_fmt010d by lia.
  reflexivity.
Qed.

Lemma parseLoop_digitsN_over (maxVal : Z) (k : nat) : forall (x n : Z) (rest : string),
  maxVal <= maxUint64 -> 0 <= n <= maxVal -> 0 <= x ->
  maxVal < n * 10 ^ Z.of_nat k + x mod 10 ^ Z.of_nat k ->
  parseLoop (digitsN k x rest) n maxVal = (maxVal, Some ErrRange).
Proof.
  induction k as [|k IH]; intros x n rest Hmax Hn Hx Hb.
  - change (10 ^ Z.of_nat 0) with 1 in Hb. rewrite Z.mod_1_r in Hb. lia.
  - cbn [digitsN].
    assert (E : 10 ^ Z.of_nat (S k) = 10 * 10 ^ Z.of_nat k).
    { rewrite Nat2Z.inj_succ, Z.pow_succ_r by lia. reflexivity. }
    rewrite E in Hb.
    assert (P : 0 < 10 ^ Z.of_nat k) by (apply Z.pow_pos_nonneg; lia).
    rewrite Z.rem_mul_r in Hb by lia.
    pose proof (mod10_digit x) as D.
    pose proof (Z.mod_pos_bound (x / 10) (10 ^ Z.of_nat k) P) as Q.
    assert (Hx' : 0 <= x / 10) by (apply Z.div_pos; lia).
    set (n' := n * 10 ^ Z.of_nat k + (x / 10) mod 10 ^ Z.of_nat k) in *.
    destruct (Z.le_gt_cases n' maxVal) as [L|L].
    + rewrite parseLoop_digitsN by (try assumption; lia).
      fold n'. cbn [parseLoop]. rewrite (digitVal_digitChar _ D).
      destruct (Z.leb_spec (maxUint64 / 10 + 1) n'); [reflexivity|].
      destruct (Z.ltb_spec maxVal (n' * 10 + x mod 10)); [reflexivity|].
      subst n'. nia.
    + apply IH; assumption.
Qed.

Lemma ParseUint_fmt010d_over (v : Z) :
  2 ^ 32 <= v < 10 ^ 10 -> ParseUint (fmt010d v) 32 = (maxUint32, Some ErrRange).
Proof.
  intros H. unfold fmt010d.
  destruct (Z.ltb_spec v (10 ^ 10)) as [_|]; [|lia].
  assert (E : ParseUint (digitsN 10 v "") 32 = parseLoop (digitsN 10 v "") 0 (2 ^ 32 - 1)).
  { cbn [digitsN]. reflexivity. }
  rewrite E. unfold maxUint32. apply parseLoop_digitsN_over.
  - unfold maxUint64. lia.
  - lia.
  - lia.
  - rewrite Z.mod_small; lia.
Qed.

Lemma bundleBase_fmt010d_over (v : Z) :
  2 ^ 32 <= v < 10 ^ 10 -> bundleBase (fmt010d v) = Some maxUint32.
Proof.
  intros H. unfold bundleBase.
  rewrite HasSuffix_fmt010d, numberRegex_fmt010d, ParseUint_fmt010d_over by lia.
  reflexivity.
Qed.

(** *** The chain check of one file *)

Lemma chained_app (last : string) (pre post : list Block) :
  chained last (pre ++ post) <-> chained last pre /\ chained (carried last pre) post.
Proof.
  revert last. induction pre as [|b pre IH]; intros last; cbn [app chained carried].
  - tauto.
  - rewrite IH. tauto.
Qed.

Lemma carried_snoc (last : string) (pre : list Block) (b : Block) :
  carried last (pre ++ [b]) = Id b.
Proof.
  revert last. induction pre as [|x pre IH]; intros last; [reflexivity|].
  cbn [app carried]. apply IH.
Qed.

Lemma eqb_false_iff (a b : string) : String.eqb a b = false <-> a <> b.
Proof. apply String.eqb_neq. Qed.

(** Blocks that link are read through: the loop goes on with what
    follows them, carrying the id of the last of them. *)
Lemma readBlocks_chained (blocks : list Block) : forall (last : string) (rest : list ReadResult),
  chained last blocks ->
  readBlocks (okReads blocks ++ rest) last = readBlocks rest (carried last blocks).
Proof.
  induction blocks as [|b blocks IH]; intros last rest H; [reflexivity|].
  destruct H as (Hid & Hlink & Hrest).
  cbn [okReads map app readBlocks carried].
  apply String.eqb_neq in Hid. rewrite Hid.
  assert (E : String.eqb (PreviousId b)
                (if String.eqb last "" then PreviousId b else last) = true).
  { destruct (String.eqb_spec last "") as [E|E].
    - apply String.eqb_refl.
    - destruct Hlink as [L|L]; [contradiction|]. rewrite L. apply String.eqb_refl. }
  rewrite E. cbn [negb]. apply IH. exact Hrest.
Qed.

Lemma readBlocks_clean (blocks : list Block) (last : string) :
  chained last blocks ->
  readBlocks (okReads blocks) last = (false, carried last blocks, None).
Proof.
  intros H. rewrite <- (app_nil_r (okReads blocks)).
  rewrite readBlocks_chained by exact H. reflexivity.
Qed.

Lemma okReads_app (a b : list Block) : okReads (a ++ b) = okReads a ++ okReads b.
Proof. apply map_app. Qed.

Lemma readBlocks_mismatch (pre post : list Block) (b : Block) (last : string)
    (rest : list ReadResult) :
  chained last pre -> Id b <> "" ->
  carried last pre <> "" -> PreviousId b <> carried last pre ->
  readBlocks (okReads (pre ++ b :: post) ++ rest) last = (true, carried last pre, None).
Proof.
  intros H Hid Hne Hmis.
  rewrite okReads_app, <- app_assoc, readBlocks_chained by exact H.
  cbn [okReads map app readBlocks].
  apply String.eqb_neq in Hid, Hne, Hmis. rewrite Hid, Hne, Hmis. reflexivity.
Qed.

Lemma readBlocks_emptyId (pre post : list Block) (b : Block) (last : string)
    (rest : list ReadResult) :
  chained last pre -> Id b = "" ->
  readBlocks (okReads (pre ++ b :: post) ++ rest) last = (true, carried last pre, None).
Proof.
  intros H Hid.
  rewrite okReads_app, <- app_assoc, readBlocks_chained by exact H.
  cbn [okReads map app readBlocks]. rewrite Hid. reflexivity.
Qed.

Lemma readBlocks_readError (pre : list Block) (ob : option Block) (e : error)
    (last : string) (rest : list ReadResult) :
  chained last pre -> is_EOF e = false ->
  readBlocks (okReads pre ++ (ob, Some e) :: rest) last = (false, carried last pre, Some e).
Proof.
  intros H He. rewrite readBlocks_chained by exact H.
  cbn [readBlocks]. destruct ob; [reflexivity|]. destruct e; try reflexivity. discriminate.
Qed.

Lemma readBlocks_okReads_noerr (blocks : list Block) : forall last : string,
  snd (readBlocks (okReads blocks) last) = None.
Proof.
  induction blocks as [|b blocks IH]; intros last; [reflexivity|].
  cbn [okReads map readBlocks].
  destruct (String.eqb (Id b) ""); [reflexivity|].
  destruct (negb _); [reflexivity|]. apply IH.
Qed.

(** A result that is both broken and an error never comes from the
    loop. *)
Lemma readBlocks_broken_no_error (reads : list ReadResult) : forall (last last' : string) (err : option error),
  readBlocks reads last = (true, last', err) -> err = None.
Proof.
  induction reads as [|[ob oe] reads IH]; intros last last' err H; cbn [readBlocks] in H.
  - inversion H.
  - destruct ob as [b|].
    + destruct oe as [e|]; [inversion H|].
      destruct (String.eqb (Id b) ""); [inversion H; reflexivity|].
      destruct (negb _); [inversion H; reflexivity|].
      eapply IH; eassumption.
    + destruct oe as [e|]; [destruct e|]; inversion H.
Qed.

End ToolsFacts.

Module ToolsWalk.
Import Tools ToolsSpec ToolsExamples ToolsFacts.

Lemma fillMissing_none (fuel : nat) (e b s : Z) (dest : DestStore) :
  b <= e -> fillMissing fuel e b s dest = (e, dest, []).
Proof.
  intros H. destruct fuel; cbn [fillMissing]; [reflexivity|].
  destruct (Z.ltb_spec e b); [lia|reflexivity].
Qed.

Lemma stopReached_some (s : Z) (range : BlockRange) (b : Z) :
  s <> 0 -> exists t, stopReached s range b = Some t.
Proof.
  intros Hs. unfold stopReached, RoundToBundleEndBlock.
  destruct (Stop range); [|eauto].
  destruct (Z.eqb_spec s 0); [contradiction|eauto].
Qed.

Lemma checkMergedBlockFileBroken_events (store : Store) (filename last : string) :
  markers (snd (checkMergedBlockFileBroken store filename last)) = [].
Proof.
  unfold checkMergedBlockFileBroken. destruct (OpenObject store filename); reflexivity.
Qed.

(** What the callback's main part does for a bundle, in terms of the
    result of the chain check. *)
Lemma checkBundle_spec (store : Store) (s : Z) (range : BlockRange) (st : ScanState)
    (filename : string) (b : Z) (broken : bool) (lastHash : string) (err : option error) :
  0 < s < 2 ^ 32 -> 0 <= b < 2 ^ 32 -> 0 <= expected st ->
  fst (checkMergedBlockFileBroken store filename (lastBlockHash st)) = (broken, lastHash, err) ->
  exists st' evs r,
    checkBundle store s range st filename b = (st', evs, r) /\
    markers evs = missingNames (expected st) b s ++ (if broken then [brokenName b] else []) /\
    lastBlockHash st' = (if broken then "" else lastHash) /\
    fault (destStore st') = fault (destStore st) /\
    r = match err with
        | Some e => Some e
        | None => match stopReached s range b with
                  | Some true => Some StopIteration
                  | _ => None
                  end
        end /\
    (r = None -> expected st' = b + s) /\
    0 <= expected st'.
Proof.
  intros Hs Hb He Hc. unfold checkBundle.
  rewrite (uint64_small s) by lia.
  destruct (fillMissing_spec b s Hs (proj2 Hb) (missingRounds (expected st) b s) (expected st)
              (destStore st) He (missingRounds_enough _ _ _ (proj1 Hs)))
    as (dest1 & evs1 & E1 & M1 & F1).
  rewrite E1.
  pose proof (checkMergedBlockFileBroken_events store filename (lastBlockHash st)) as Mc.
  destruct (checkMergedBlockFileBroken store filename (lastBlockHash st))
    as [[[br lh] er] evs2] eqn:C.
  cbn [fst snd] in Hc, Mc. inversion Hc; subst br lh er. clear Hc.
  destruct (stopReached_some s range b ltac:(lia)) as [t T]. rewrite T.
  unfold recordBroken. destruct broken.
  - destruct (WriteObject dest1 (fmt010d b ++ ".broken") "") as [dest2 res] eqn:W.
    pose proof (WriteObject_fault _ _ _ _ _ W) as F2.
    destruct err as [e|]; [|destruct t]; eexists _, _, _; (split; [reflexivity|]);
      rewrite !markers_app, M1, Mc; cbn [markers app lastBlockHash destStore expected];
      (repeat split; try congruence; try discriminate);
      try (intros _; rewrite uint64_small; lia); try nia; try (rewrite uint64_small; lia).
  - destruct err as [e|]; [|destruct t]; eexists _, _, _; (split; [reflexivity|]);
      rewrite !markers_app, M1, Mc; cbn [markers app lastBlockHash destStore expected];
      (repeat split; try congruence; try discriminate);
      try (intros _; rewrite uint64_small; lia); try nia; try (rewrite uint64_small; lia).
Qed.

Lemma walkFn_bundle (store : Store) (s : Z) (range : BlockRange) (st : ScanState)
    (filename : string) (b : Z) :
  bundleBase filename = Some b -> beforeStart s range b = false -> expected st <= b ->
  walkFn store s range st filename = checkBundle store s range st filename b.
Proof.
  intros B G L. unfold walkFn. rewrite B, G.
  destruct (Z.ltb_spec b (expected st)); [lia|reflexivity].
Qed.

Lemma walkFn_below (store : Store) (s : Z) (range : BlockRange) (st : ScanState)
    (filename : string) (b : Z) :
  bundleBase filename = Some b -> b < expected st ->
  walkFn store s range st filename =
  if beforeStart s range b then (st, [], None)
  else (st, [], Some (ErrBelowExpected b (expected st))).
Proof.
  intros B L. unfold walkFn. rewrite B.
  destruct (beforeStart s range b); [reflexivity|].
  destruct (Z.ltb_spec b (expected st)); [reflexivity|lia].
Qed.

Lemma beforeStart_false (s : Z) (range : BlockRange) (b : Z) :
  0 < s < 2 ^ 32 -> 0 <= b < 2 ^ 32 -> 0 <= Start range < 2 ^ 64 ->
  Start range <= b + s - 1 -> beforeStart s range b = false.
Proof.
  intros Hs Hb Hr H. unfold beforeStart.
  rewrite (uint64_small s), (uint64_small (b + s - 1)), (uint64_small (Start range)) by lia.
  apply Z.ltb_ge. exact H.
Qed.

(** A bundle that follows the expected base number, opens, and whose
    blocks link to the carried id: nothing is written. *)
Lemma checkBundle_clean (store : Store) (s : Z) (range : BlockRange) (st : ScanState)
    (filename : string) (blocks : list Block) :
  0 < s < 2 ^ 32 -> 0 <= expected st < 2 ^ 32 ->
  OpenObject store filename = Readable (okReads blocks) ->
  chained (lastBlockHash st) blocks ->
  exists st' r,
    checkBundle store s range st filename (expected st)
      = (st', [Stdout ("checking " ++ filename)%string], r) /\
    destStore st' = destStore st /\
    lastBlockHash st' = carried (lastBlockHash st) blocks /\
    (r = Some StopIteration \/ (r = None /\ expected st' = expected st + s)).
Proof.
  intros Hs Hb O C. unfold checkBundle.
  rewrite fillMissing_none by lia.
  unfold checkMergedBlockFileBroken. rewrite O, (readBlocks_clean _ _ C).
  cbn [recordBroken app].
  destruct (stopReached_some s range (expected st) ltac:(lia)) as [t T]. rewrite T.
  destruct t; eexists _, _; (split; [reflexivity|]); cbn [destStore lastBlockHash expected].
  - repeat split. left. reflexivity.
  - repeat split. right. split; [reflexivity|].
    rewrite (uint64_small s), uint64_small by lia. reflexivity.
Qed.

Lemma contiguousFrom_ge (s : Z) (bases : list Z) : forall base : Z,
  0 < s -> contiguousFrom base s bases -> Forall (fun b => base <= b) bases.
Proof.
  induction bases as [|b bases IH]; intros base Hs H; [constructor|].
  destruct H as [E H]. subst b. constructor; [lia|].
  eapply Forall_impl; [|apply (IH (base + s) Hs H)]. cbn. intros x Hx. lia.
Qed.

(** Once the expected base number is 2^32 or more, files named after
    base numbers of 2^32 or more change nothing: each is read as the
    base number 2^32-1, below the expected one. *)
Lemma walk_high (store : Store) (s : Z) (range : BlockRange) (lerr : option error)
    (st : ScanState) :
  2 ^ 32 <= expected st ->
  forall bases : list Z,
    Forall (fun b => 2 ^ 32 <= b < 10 ^ 10) bases ->
    exists r, walk (walkFn store s range) (map fmt010d bases) lerr st = (st, [], r).
Proof.
  intros He. induction bases as [|b bases IH]; intros Hall.
  - exists lerr. reflexivity.
  - inversion Hall as [|x l Hb Hall']; subst x l. cbn [map walk].
    rewrite (walkFn_below store s range st _ maxUint32 (bundleBase_fmt010d_over b Hb))
      by (unfold maxUint32; lia).
    destruct (beforeStart s range maxUint32).
    + destruct (IH Hall') as [r E]. rewrite E. exists r. reflexivity.
    + eexists. reflexivity.
Qed.

(** The walk over bundles that follow each other from the expected base
    number and whose blocks form one chain. *)
Lemma walk_clean (store : Store) (s : Z) (range : BlockRange) (lerr : option error) :
  0 < s < 2 ^ 32 -> 0 <= Start range < 2 ^ 64 ->
  forall (archive : list (Z * list Block)) (st : ScanState),
    contiguousFrom (expected st) s (map fst archive) ->
    Start range <= expected st + s - 1 ->
    Forall (fun entry => 0 <= fst entry < 10 ^ 10 /\
              OpenObject store (fmt010d (fst entry)) = Readable (okReads (snd entry))) archive ->
    chained (lastBlockHash st) (List.concat (map snd archive)) ->
    exists st' evs r,
      walk (walkFn store s range) (map (fun entry => fmt010d (fst entry)) archive) lerr st
        = (st', evs, r) /\
      markers evs = [] /\ destStore st' = destStore st.
Proof.
  intros Hs Hr. induction archive as [|[b blocks] archive IH]; intros st Hc Hstart Hall Hch.
  - exists st, [], lerr. cbn. auto.
  - destruct (Z.lt_ge_cases (expected st) (2 ^ 32)) as [Low|High].
    + cbn [map fst snd List.concat] in *. destruct Hc as [Eb Hc]. subst b.
      inversion Hall as [|x l [Hb Ho] Hall']; subst x l. cbn [fst snd] in Hb, Ho.
      apply chained_app in Hch. destruct Hch as [Ch1 Ch2].
      cbn [walk].
      rewrite (walkFn_bundle store s range st _ (expected st));
        [|apply bundleBase_fmt010d; lia|apply beforeStart_false; lia|lia].
      destruct (checkBundle_clean store s range st _ blocks Hs ltac:(lia) Ho Ch1)
        as (st1 & r1 & E1 & D1 & L1 & R1).
      rewrite E1. destruct R1 as [R1|[R1 X1]]; subst r1.
      * cbn [is_StopIteration]. eexists _, _, _. split; [reflexivity|]. cbn [markers]. auto.
      * destruct (IH st1) as (st2 & evs2 & r2 & E2 & M2 & D2).
        -- rewrite X1. exact Hc.
        -- lia.
        -- exact Hall'.
        -- rewrite L1. exact Ch2.
        -- rewrite E2. eexists _, _, _. split; [reflexivity|].
           cbn [markers app]. rewrite M2, D2, D1. auto.
    + rewrite <- (map_map fst fmt010d).
      destruct (walk_high store s range lerr st High (map fst (((b, blocks)) :: archive)))
        as [r E].
      * pose proof (contiguousFrom_ge s _ _ (proj1 Hs) Hc) as Ge.
        apply Forall_forall. intros x Hx.
        rewrite Forall_forall in Ge. specialize (Ge x Hx).
        apply in_map_iff in Hx. destruct Hx as (entry & Ex & Hin).
        rewrite Forall_forall in Hall. destruct (Hall entry Hin) as [Hb _]. subst x. lia.
      * rewrite E. exists st, [], r. auto.
Qed.

(** The run of the command once the range is resolved and both stores
    are open. *)
Lemma CheckMergedBlocksBatch_run (store : Store) (dest : DestStore) (s : Z)
    (range : BlockRange) (b0 : Z) (files : list string) (lerr : option error) :
  IsResolved range = true -> startBundle s range = Some b0 ->
  WalkFrom store (fmt010d b0) = (files, lerr) ->
  CheckMergedBlocksBatch (inr store) (inr dest) s range =
  let '(st, evs, res) :=
    walk (walkFn store s range) files lerr
         {| expected := uint64 b0; lastBlockHash := ""; destStore := dest |} in
  {| returned := res; trace := evs; written := objects (destStore st) |}.
Proof.
  intros R B W. unfold CheckMergedBlocksBatch. rewrite R, B, W. reflexivity.
Qed.

Lemma startBundle_small (s : Z) (range : BlockRange) :
  0 < s -> 0 <= Start range < 2 ^ 32 ->
  startBundle s range = Some (Start range - Start range mod s).
Proof.
  intros Hs Hr. unfold startBundle, RoundToBundleStartBlock.
  destruct (Z.eqb_spec s 0); [lia|].
  rewrite (uint32_small (Start range)) by lia.
  pose proof (Z.mod_pos_bound (Start range) s Hs).
  pose proof (Z.mod_le (Start range) s ltac:(lia) Hs).
  rewrite uint32_small by lia. reflexivity.
Qed.

End ToolsWalk.

(** ** The checker: claims *)

Module ToolsClaims.
Import Tools ToolsSpec ToolsExamples ToolsFacts ToolsWalk.

Lemma chainedb_chained (blocks : list Block) : forall last : string,
  chainedb last blocks = true -> chained last blocks.
Proof.
  induction blocks as [|b blocks IH]; intros last H; cbn [chainedb chained] in *; [exact I|].
  apply andb_prop in H. destruct H as [H H3]. apply andb_prop in H. destruct H as [H1 H2].
  split; [|split].
  - apply String.eqb_neq. apply negb_true_iff. exact H1.
  - apply orb_prop in H2. destruct H2 as [H2|H2]; apply String.eqb_eq in H2; auto.
  - apply IH. exact H3.
Qed.

Lemma readBlocks_linkScan (blocks : list Block) : forall (last : string) (rest : list ReadResult),
  last <> "" -> Forall (fun b => Id b <> "") blocks ->
  readBlocks (okReads blocks ++ rest) last =
  if fst (spec_linkScan last blocks)
  then (true, snd (spec_linkScan last blocks), None)
  else readBlocks rest (snd (spec_linkScan last blocks)).
Proof.
  induction blocks as [|b blocks IH]; intros last rest Hl Hall; [reflexivity|].
  inversion Hall as [|x l Hid Hall']; subst x l.
  cbn [okReads map app readBlocks spec_linkScan].
  apply String.eqb_neq in Hl. pose proof Hid as Hid'. apply String.eqb_neq in Hid'.
  rewrite Hid', Hl.
  destruct (String.eqb (PreviousId b) last); cbn [negb fst snd]; [|reflexivity].
  apply IH; assumption.
Qed.

Lemma readBlocks_chainCheck (blocks : list Block) (last : string) (rest : list ReadResult) :
  Forall (fun b => Id b <> "") blocks ->
  readBlocks (okReads blocks ++ rest) last =
  if fst (spec_chainCheck last blocks)
  then (true, snd (spec_chainCheck last blocks), None)
  else readBlocks rest (snd (spec_chainCheck last blocks)).
Proof.
  intros Hall. destruct blocks as [|b blocks]; [reflexivity|].
  cbn [spec_chainCheck].
  destruct (String.eqb_spec last "") as [E|E].
  - subst last. inversion Hall as [|x l Hid Hall']; subst x l.
    cbn [okReads map app readBlocks spec_linkScan].
    pose proof Hid as Hid'. apply String.eqb_neq in Hid'.
    rewrite Hid'. cbn [String.eqb]. rewrite !String.eqb_refl. cbn [negb].
    apply readBlocks_linkScan; assumption.
  - apply readBlocks_linkScan; assumption.
Qed.

Lemma spec_linkScan_carried (blocks : list Block) : forall last : string,
  fst (spec_linkScan last blocks) = false ->
  snd (spec_linkScan last blocks) = carried last blocks.
Proof.
  induction blocks as [|b blocks IH]; intros last H; [reflexivity|].
  cbn [spec_linkScan carried] in *.
  destruct (String.eqb (PreviousId b) last); [apply IH; exact H|discriminate].
Qed.

Lemma spec_chainCheck_carried (blocks : list Block) (last : string) :
  fst (spec_chainCheck last blocks) = false ->
  snd (spec_chainCheck last blocks) = carried last blocks.
Proof.
  destruct blocks as [|b blocks]; [reflexivity|].
  cbn [spec_chainCheck carried]. intros H.
  rewrite spec_linkScan_carried by exact H. reflexivity.
Qed.

(** C3 (amended).  With blocks of non-empty ids read to the end of the
    file, [checkMergedBlockFileBroken] gives what the specification
    words: an empty carried id is seeded with the first block's parent
    id, the first block whose parent id differs from the carried id makes
    the bundle broken and nothing after it is read, and blocks that all
    link give not-broken with the id of the last block.  For a range
    that starts below 2^32 and bundles, stored under the ten digits of
    their base numbers, that follow each other from the range's bundle
    and form one chain, the scan writes no marker. *)
Theorem C3_chain_check_and_clean_archive
    (last : string) (blocks : list Block) (rest : list ReadResult)
    (store : Store) (dest : DestStore) (s : Z) (range : BlockRange)
    (archive : list (Z * list Block)) (lerr : option error) :
  Forall (fun b => Id b <> "") blocks ->
  0 < s < 2 ^ 32 ->
  0 <= Start range < 2 ^ 32 ->
  WalkFrom store (fmt010d (Start range - Start range mod s))
    = (map (fun entry => fmt010d (fst entry)) archive, lerr) ->
  contiguousFrom (Start range - Start range mod s) s (map fst archive) ->
  Forall (fun entry => 0 <= fst entry < 10 ^ 10 /\
            OpenObject store (fmt010d (fst entry)) = Readable (okReads (snd entry))) archive ->
  chained "" (List.concat (map snd archive)) ->
  readBlocks (okReads blocks) last
    = (fst (spec_chainCheck last blocks), snd (spec_chainCheck last blocks), None) /\
  (fst (spec_chainCheck last blocks) = true ->
   readBlocks (okReads blocks ++ rest) last = readBlocks (okReads blocks) last) /\
  (fst (spec_chainCheck last blocks) = false ->
   snd (spec_chainCheck last blocks) = carried last blocks) /\
  markers (trace (CheckMergedBlocksBatch (inr store) (inr dest) s range)) = [] /\
  written (CheckMergedBlocksBatch (inr store) (inr dest) s range) = objects dest.
Proof.
  intros Hids Hs Hr Hw Hc Hall Hch.
  assert (R1 : readBlocks (okReads blocks) last
    = (fst (spec_chainCheck last blocks), snd (spec_chainCheck last blocks), None)).
  { rewrite <- (app_nil_r (okReads blocks)), readBlocks_chainCheck by exact Hids.
    destruct (fst (spec_chainCheck last blocks)); reflexivity. }
  split; [exact R1|]. split; [|split].
  - intros B. rewrite R1, readBlocks_chainCheck by exact Hids. rewrite B. reflexivity.
  - apply spec_chainCheck_carried.
  - pose proof (Z.mod_pos_bound (Start range) s ltac:(lia)) as Hm.
    rewrite (CheckMergedBlocksBatch_run store dest s range _ _ lerr
               ltac:(unfold IsResolved; apply Z.leb_le; lia)
               (startBundle_small s range ltac:(lia) Hr) Hw).
    pose proof (Z.mod_le (Start range) s ltac:(lia) ltac:(lia)) as Hm'.
    set (b0 := Start range - Start range mod s) in *.
    assert (Hb0 : 0 <= b0 <= Start range) by (subst b0; lia).
    rewrite (uint64_small b0) by lia.
    set (st0 := {| expected := b0; lastBlockHash := ""; destStore := dest |}).
    destruct (walk_clean store s range lerr Hs ltac:(lia) archive st0)
      as (st' & evs & r & E & M & D).
    + exact Hc.
    + cbn [st0 expected]. subst b0. lia.
    + exact Hall.
    + exact Hch.
    + rewrite E. cbn [trace written]. rewrite D. auto.
Qed.

Lemma C3_chain_check_and_clean_archive_witness :
  readBlocks (okReads [blockAt 7; blockAt 8]) "" = (false, "0000000008", None) /\
  markers (trace (CheckMergedBlocksBatch (inr cleanStore) (inr emptyDest) 100 cleanRange)) = [].
Proof.
  assert (H := C3_chain_check_and_clean_archive "" [blockAt 7; blockAt 8] []
                 cleanStore emptyDest 100 cleanRange
                 [(100, bundleBlocks 100); (200, bundleBlocks 200); (300, bundleBlocks 300)]
                 None).
  destruct H as (H1 & _ & _ & H4 & _).
  - repeat constructor; vm_compute; discriminate.
  - lia.
  - cbn [cleanRange Start]. lia.
  - vm_compute. reflexivity.
  - vm_compute. repeat split.
  - repeat constructor; vm_compute; try reflexivity; discriminate.
  - apply chainedb_chained. vm_compute. reflexivity.
  - split; [|exact H4]. rewrite H1. vm_compute. reflexivity.
Defined.

(** C3, the claim as stated fails.  The bundle 4294967200 holds a hundred
    linked blocks, among them the blocks 2^32 to 2^32+3 of the range, and
    the scan of that range writes a [.missing] marker for the base number
    0, since the start of the range is rounded after its cut to 32
    bits.  And a block without an id that names the carried id as its
    parent links, so the bundle is not broken in the claim's words, yet
    the check finds it broken. *)
Lemma C3_counterexample_high_start_and_empty_id :
  chained "" (bundleBlocks 4294967200) /\
  4294967200 <= Start highRange /\
  Stop highRange = Some (Start highRange + 2) /\
  (exists rest,
     markers (trace (CheckMergedBlocksBatch (inr highStore) (inr emptyDest) 100 highRange))
     = "0000000000.missing" :: rest) /\
  PreviousId noIdBlock = "4999999999" /\
  spec_chainCheck "4999999999" [noIdBlock] = (false, "") /\
  readBlocks (okReads [noIdBlock]) "4999999999" = (true, "4999999999", None).
Proof.
  split; [apply chainedb_chained; vm_compute; reflexivity|].
  split; [cbn [highRange Start]; lia|]. split; [reflexivity|].
  split; [|repeat split; reflexivity].
  rewrite (CheckMergedBlocksBatch_run highStore emptyDest 100 highRange 0 ["4294967200"] None)
    by (vm_compute; reflexivity).
  change (uint64 0) with 0.
  set (st0 := {| expected := 0; lastBlockHash := ""; destStore := emptyDest |}).
  cbn [walk].
  rewrite (walkFn_bundle highStore 100 highRange st0 "4294967200" 4294967200);
    [|vm_compute; reflexivity|vm_compute; reflexivity|cbn [st0 expected]; lia].
  destruct (fst (checkMergedBlockFileBroken highStore "4294967200" (lastBlockHash st0)))
    as [[br lh] er] eqn:C.
  destruct (checkBundle_spec highStore 100 highRange st0 "4294967200" 4294967200 br lh er
              ltac:(lia) ltac:(lia) ltac:(cbn [st0 expected]; lia) C)
    as (st' & evs & r & E & M & _).
  rewrite E.
  cbn [st0 expected] in M. unfold missingNames in M.
  rewrite (skippedBases_cons 0 4294967200 100) in M by lia.
  cbn [map app] in M.
  destruct r as [e|].
  - destruct (is_StopIteration e); cbn [trace]; rewrite M; eexists; reflexivity.
  - cbn [walk trace]. rewrite markers_app, M. cbn [markers app]. eexists. reflexivity.
Qed.

Lemma check_broken_cause (store : Store) (filename last : string)
    (pre post : list Block) (bad : Block) (rest : list ReadResult) :
  OpenObject store filename = Readable (okReads (pre ++ bad :: post) ++ rest) ->
  chained last pre ->
  Id bad = "" \/ (carried last pre <> "" /\ PreviousId bad <> carried last pre) ->
  fst (checkMergedBlockFileBroken store filename last) = (true, carried last pre, None).
Proof.
  intros O C H. unfold checkMergedBlockFileBroken. rewrite O. cbn [fst].
  destruct (String.eqb_spec (Id bad) "") as [E|E].
  - apply readBlocks_emptyId; assumption.
  - destruct H as [H|[H1 H2]]; [contradiction|].
    apply readBlocks_mismatch; assumption.
Qed.

Lemma check_clean (store : Store) (filename last : string) (blocks : list Block) :
  OpenObject store filename = Readable (okReads blocks) ->
  chained last blocks ->
  fst (checkMergedBlockFileBroken store filename last) = (false, carried last blocks, None).
Proof.
  intros O C. unfold checkMergedBlockFileBroken. rewrite O. cbn [fst].
  apply readBlocks_clean. exact C.
Qed.

(** C4 (amended).  A bundle of base number [b] below 2^32, stored under
    the ten digits of [b], that the chain check finds broken, by a block
    with an empty id or by a block whose parent id differs from the
    carried id, gets one [.broken] marker, named with the ten digits of
    [b] and written after the [.missing] markers of the gap before it if
    any, and [lastBlockHash] becomes empty; a bundle that follows and
    whose own blocks link gets no [.broken] marker. *)
Theorem C4_broken_marker_and_reset
    (store : Store) (s : Z) (range : BlockRange) (st : ScanState)
    (b : Z) (pre post : list Block) (bad : Block) (rest : list ReadResult)
    (b2 : Z) (blocks2 : list Block) :
  0 < s < 2 ^ 32 ->
  0 <= Start range < 2 ^ 64 ->
  0 <= b < 2 ^ 32 -> Start range <= b + s - 1 ->
  0 <= expected st <= b ->
  OpenObject store (fmt010d b) = Readable (okReads (pre ++ bad :: post) ++ rest) ->
  chained (lastBlockHash st) pre ->
  Id bad = "" \/
    (carried (lastBlockHash st) pre <> "" /\ PreviousId bad <> carried (lastBlockHash st) pre) ->
  0 <= b2 < 2 ^ 32 -> Start range <= b2 + s - 1 ->
  OpenObject store (fmt010d b2) = Readable (okReads blocks2) ->
  chained "" blocks2 ->
  exists st' evs r,
    walkFn store s range st (fmt010d b) = (st', evs, r) /\
    markers evs = missingNames (expected st) b s ++ [(fmt010d b ++ ".broken")%string] /\
    lastBlockHash st' = "" /\
    (r = None \/ r = Some StopIteration) /\
    (r = None -> expected st' = b + s) /\
    (expected st' <= b2 ->
     exists st'' evs2 r2,
       walkFn store s range st' (fmt010d b2) = (st'', evs2, r2) /\
       markers evs2 = missingNames (expected st') b2 s /\
       lastBlockHash st'' = carried "" blocks2).
Proof.
  intros Hs Hr Hb G He O C Cause Hb2 G2 O2 C2.
  pose proof (bundleBase_fmt010d b Hb) as B.
  pose proof (bundleBase_fmt010d b2 Hb2) as B2.
  pose proof (beforeStart_false s range b Hs Hb Hr G) as G'.
  pose proof (beforeStart_false s range b2 Hs Hb2 Hr G2) as G2'.
  rewrite (walkFn_bundle store s range st _ b B G') by lia.
  destruct (checkBundle_spec store s range st (fmt010d b) b true _ None Hs Hb ltac:(lia)
              (check_broken_cause store _ _ pre post bad rest O C Cause))
    as (st' & evs & r & E & M & L & _ & Rr & X & P).
  exists st', evs, r. split; [exact E|]. split; [exact M|]. split; [exact L|].
  split; [subst r; destruct (stopReached s range b) as [[|]|]; auto|].
  split; [exact X|].
  intros Le.
  rewrite (walkFn_bundle store s range st' _ b2 B2 G2' Le).
  assert (C2' : chained (lastBlockHash st') blocks2) by (rewrite L; exact C2).
  destruct (checkBundle_spec store s range st' (fmt010d b2) b2 false _ None Hs Hb2 P
              (check_clean store _ _ blocks2 O2 C2'))
    as (st'' & evs2 & r2 & E2 & M2 & L2 & _).
  exists st'', evs2, r2. split; [exact E2|]. split.
  - rewrite M2. apply app_nil_r.
  - rewrite L2, L. reflexivity.
Qed.

Lemma C4_broken_marker_and_reset_witness :
  exists st' evs r,
    walkFn gapStore 100 gapRange
      {| expected := 200; lastBlockHash := "0000000199"; destStore := emptyDest |}
      "0000000300" = (st', evs, r) /\
    markers evs = ["0000000200.missing"; "0000000300.broken"] /\
    lastBlockHash st' = "".
Proof.
  destruct (C4_broken_marker_and_reset gapStore 100 gapRange
              {| expected := 200; lastBlockHash := "0000000199"; destStore := emptyDest |}
              300 [] (tl (bundleBlocks 300)) (blockAt 300) []
              300 (bundleBlocks 300))
    as (st' & evs & r & E & M & L & _).
  - lia.
  - cbn [gapRange Start]. lia.
  - lia.
  - cbn [gapRange Start]. lia.
  - cbn [expected]. lia.
  - vm_compute. reflexivity.
  - exact I.
  - right. split; vm_compute; discriminate.
  - lia.
  - cbn [gapRange Start]. lia.
  - vm_compute. reflexivity.
  - apply chainedb_chained. vm_compute. reflexivity.
  - exists st', evs, r. split; [exact E|]. split; [|exact L].
    rewrite M. vm_compute. reflexivity.
Defined.

(** C4, the claim as stated fails: the only block of the bundle
    5000000000 has no id, so the bundle is broken; the marker the scan
    writes for it is 4294967295.broken, named after the largest 32-bit
    number, and no marker has the name of the bundle. *)
Lemma C4_counterexample_marker_of_high_bundle :
  WalkFrom farStore "4294967200" = (["5000000000"], None) /\
  OpenObject farStore "5000000000" = Readable (okReads [noIdBlock]) /\
  Id noIdBlock = "" /\
  markers (trace (CheckMergedBlocksBatch (inr farStore) (inr emptyDest) 100 farRange))
    = ["4294967200.missing"; "4294967295.broken"] /\
  ~ In "5000000000.broken"
       (markers (trace (CheckMergedBlocksBatch (inr farStore) (inr emptyDest) 100 farRange))).
Proof.
  assert (M : markers (trace (CheckMergedBlocksBatch (inr farStore) (inr emptyDest) 100 farRange))
              = ["4294967200.missing"; "4294967295.broken"]) by (vm_compute; reflexivity).
  split; [vm_compute; reflexivity|]. split; [vm_compute; reflexivity|].
  split; [reflexivity|]. split; [exact M|].
  rewrite M. intros [H|[H|[]]]; discriminate.
Qed.

(** The chain check of a file read to its end, decided by [chainedb]. *)
Lemma readBlocks_decide (blocks : list Block) : forall last : string,
  exists lastHash : string,
    readBlocks (okReads blocks) last = (negb (chainedb last blocks), lastHash, None) /\
    (chainedb last blocks = true -> lastHash = carried last blocks).
Proof.
  induction blocks as [|b blocks IH]; intros last.
  - exists last. split; reflexivity.
  - cbn [okReads map readBlocks chainedb carried].
    destruct (String.eqb (Id b) ""); cbn [negb andb].
    + exists last. split; [reflexivity|discriminate].
    + destruct (String.eqb_spec last "") as [E|E]; cbn [orb].
      * rewrite String.eqb_refl. cbn [negb andb]. apply IH.
      * destruct (String.eqb (PreviousId b) last); cbn [negb andb].
        -- apply IH.
        -- exists last. split; [reflexivity|discriminate].
Qed.

(** C5 (amended).  For a bundle of base number [b] below 2^32, stored
    under the ten digits of [b] and not below the expected base number,
    the callback writes one [.missing] marker, named with ten digits,
    for each of expected, expected+fileBlockSize, ... below [b], then at
    most the [.broken] marker of [b], and when it returns nil the
    expected base number is b+fileBlockSize.  With bundles 100 and 300
    that are read to their end, a bundle size of 100 and the range
    [100,400), the only [.missing] marker is 0000000200.missing; bundle
    100 gets its [.broken] marker exactly when its blocks do not link,
    and bundle 300 exactly when its blocks do not link on from the id
    carried out of bundle 100, which is the id of its last block, or
    empty when bundle 100 is broken or has no block. *)
Theorem C5_missing_markers
    (store : Store) (s : Z) (range : BlockRange) (st : ScanState) (b : Z)
    (store2 : Store) (dest2 : DestStore) (blocks100 blocks300 : list Block) :
  0 < s < 2 ^ 32 ->
  0 <= Start range < 2 ^ 64 ->
  0 <= b < 2 ^ 32 -> Start range <= b + s - 1 ->
  0 <= expected st <= b ->
  WalkFrom store2 "0000000100" = (["0000000100"; "0000000300"], None) ->
  OpenObject store2 "0000000100" = Readable (okReads blocks100) ->
  OpenObject store2 "0000000300" = Readable (okReads blocks300) ->
  (exists st' evs r (brokenMarker : list string),
     walkFn store s range st (fmt010d b) = (st', evs, r) /\
     markers evs = map missingName (skippedBases (expected st) b s) ++ brokenMarker /\
     (brokenMarker = [] \/ brokenMarker = [(fmt010d b ++ ".broken")%string]) /\
     (r = None -> expected st' = b + s)) /\
  (forall x, In x (skippedBases (expected st) b s) <->
             exists k, 0 <= k /\ x = expected st + k * s /\ x < b) /\
  markers (trace (CheckMergedBlocksBatch (inr store2) (inr dest2) 100
                    {| Start := 100; Stop := Some 400 |}))
  = (if chainedb "" blocks100 then [] else ["0000000100.broken"])
    ++ ["0000000200.missing"]
    ++ (if chainedb (if chainedb "" blocks100 then carried "" blocks100 else "") blocks300
        then [] else ["0000000300.broken"]).
Proof.
  intros Hs Hr Hb G He W O1 O3.
  pose proof (bundleBase_fmt010d b Hb) as B.
  pose proof (beforeStart_false s range b Hs Hb Hr G) as G'.
  split; [|split].
  - rewrite (walkFn_bundle store s range st _ b B G') by lia.
    destruct (fst (checkMergedBlockFileBroken store (fmt010d b) (lastBlockHash st)))
      as [[br lh] er] eqn:C.
    destruct (checkBundle_spec store s range st (fmt010d b) b br lh er Hs Hb ltac:(lia) C)
      as (st' & evs & r & E & M & _ & _ & _ & X & _).
    exists st', evs, r, (if br then [brokenName b] else []).
    split; [exact E|]. split; [exact M|]. split; [destruct br; auto|exact X].
  - intros x. apply In_skippedBases. lia.
  - set (rg := {| Start := 100; Stop := Some 400 |}).
    rewrite (CheckMergedBlocksBatch_run store2 dest2 100 rg 100 _ None
               ltac:(reflexivity) ltac:(reflexivity) W).
    change (uint64 100) with 100.
    set (st0 := {| expected := 100; lastBlockHash := ""; destStore := dest2 |}).
    cbn [walk].
    rewrite (walkFn_bundle store2 100 rg st0 "0000000100" 100)
      by (try (vm_compute; reflexivity); cbn [st0 expected]; lia).
    destruct (readBlocks_decide blocks100 "") as (lh1 & R1 & K1).
    assert (C1 : fst (checkMergedBlockFileBroken store2 "0000000100" (lastBlockHash st0))
                 = (negb (chainedb "" blocks100), lh1, None)).
    { unfold checkMergedBlockFileBroken. rewrite O1. exact R1. }
    destruct (checkBundle_spec store2 100 rg st0 "0000000100" 100 _ lh1 None
                ltac:(lia) ltac:(lia) ltac:(cbn [st0 expected]; lia) C1)
      as (st1 & evs1 & r1 & E1 & M1 & L1 & _ & Rr1 & X1 & _).
    rewrite E1. change (stopReached 100 rg 100) with (Some false) in Rr1. subst r1.
    specialize (X1 eq_refl).
    rewrite (walkFn_bundle store2 100 rg st1 "0000000300" 300)
      by (try (vm_compute; reflexivity); rewrite X1; lia).
    assert (L1' : lastBlockHash st1
                  = if chainedb "" blocks100 then carried "" blocks100 else "").
    { rewrite L1. destruct (chainedb "" blocks100); cbn [negb]; [apply K1|]; reflexivity. }
    destruct (readBlocks_decide blocks300 (lastBlockHash st1)) as (lh3 & R3 & _).
    assert (C3 : fst (checkMergedBlockFileBroken store2 "0000000300" (lastBlockHash st1))
                 = (negb (chainedb (lastBlockHash st1) blocks300), lh3, None)).
    { unfold checkMergedBlockFileBroken. rewrite O3. exact R3. }
    destruct (checkBundle_spec store2 100 rg st1 "0000000300" 300 _ lh3 None
                ltac:(lia) ltac:(lia) ltac:(rewrite X1; lia) C3)
      as (st3 & evs3 & r3 & E3 & M3 & _ & _ & Rr3 & _).
    rewrite E3. change (stopReached 100 rg 300) with (Some true) in Rr3. subst r3.
    cbn [is_StopIteration trace]. rewrite markers_app, M1, M3, X1, L1'.
    cbn [st0 expected].
    change (missingNames 100 100 100) with (@nil string).
    change (missingNames 200 300 100) with ["0000000200.missing"].
    change (100 + 100) with 200.
    change (missingNames 200 300 100) with ["0000000200.missing"].
    destruct (chainedb "" blocks100).
    + destruct (chainedb (carried "" blocks100) blocks300); reflexivity.
    + destruct (chainedb "" blocks300); reflexivity.
Qed.

Lemma C5_missing_markers_witness :
  markers (trace (CheckMergedBlocksBatch (inr gapStore) (inr emptyDest) 100
                    {| Start := 100; Stop := Some 400 |}))
  = ["0000000200.missing"; "0000000300.broken"] /\
  (forall x, In x (skippedBases 100 300 100) <->
             exists k, 0 <= k /\ x = 100 + k * 100 /\ x < 300).
Proof.
  destruct (C5_missing_markers gapStore 100 gapRange
              {| expected := 100; lastBlockHash := ""; destStore := emptyDest |}
              300 gapStore emptyDest (bundleBlocks 100) (bundleBlocks 300))
    as (_ & S & H).
  - lia.
  - cbn [gapRange Start]. lia.
  - lia.
  - cbn [gapRange Start]. lia.
  - cbn [expected]. lia.
  - vm_compute. reflexivity.
  - vm_compute. reflexivity.
  - vm_compute. reflexivity.
  - split; [rewrite H; vm_compute; reflexivity|exact S].
Defined.

(** C5, the claim as stated fails.  The bundles 100 and 300 each hold a
    hundred linked blocks of one chain, and the scan of [100,400) writes
    two markers, since the first block of bundle 300 does not link to
    the last block of bundle 100.  And after the bundle 4294967200 the
    file 6000000000 is read as the base number 4294967295, below the
    expected one: the scan ends with an error and writes no [.missing]
    marker for the bundles skipped between the two. *)
Lemma C5_counterexample_two_markers_and_high_bundle :
  chained "" (bundleBlocks 100) /\
  chained "" (bundleBlocks 300) /\
  markers (trace (CheckMergedBlocksBatch (inr gapStore) (inr emptyDest) 100 gapRange))
  = ["0000000200.missing"; "0000000300.broken"] /\
  WalkFrom farGapStore "4294967200" = (["4294967200"; "6000000000"], None) /\
  markers (trace (CheckMergedBlocksBatch (inr farGapStore) (inr emptyDest) 100 farGapRange))
  = [] /\
  returned (CheckMergedBlocksBatch (inr farGapStore) (inr emptyDest) 100 farGapRange)
  = Some (ErrBelowExpected 4294967295 4294967300).
Proof.
  split; [apply chainedb_chained; vm_compute; reflexivity|].
  split; [apply chainedb_chained; vm_compute; reflexivity|].
  repeat split; vm_compute; reflexivity.
Qed.

(** C6 (amended).  A file whose base number is below the expected one is
    passed over without an error when its bundle ends before the start of
    the range; otherwise the callback returns the error "found base
    number below expected" without an event and without a change of the
    state, and the walk ends with that error. *)
Theorem C6_base_below_expected
    (store : Store) (s : Z) (range : BlockRange) (st : ScanState)
    (filename : string) (b : Z) (rest : list string) (lerr : option error) :
  bundleBase filename = Some b ->
  b < expected st ->
  walkFn store s range st filename
    = (if beforeStart s range b then (st, [], None)
       else (st, [], Some (ErrBelowExpected b (expected st)))) /\
  (beforeStart s range b = false ->
   walk (walkFn store s range) (filename :: rest) lerr st
     = (st, [], Some (ErrBelowExpected b (expected st)))).
Proof.
  intros B L. pose proof (walkFn_below store s range st filename b B L) as W.
  split; [exact W|]. intros G. cbn [walk]. rewrite W, G. reflexivity.
Qed.

Lemma C6_base_below_expected_witness :
  walk (walkFn strayStore 100 strayRange) ["0000000200"; "0000000300"] None
       {| expected := 300; lastBlockHash := ""; destStore := emptyDest |}
  = ({| expected := 300; lastBlockHash := ""; destStore := emptyDest |}, [],
     Some (ErrBelowExpected 200 300)).
Proof.
  destruct (C6_base_below_expected strayStore 100 strayRange
              {| expected := 300; lastBlockHash := ""; destStore := emptyDest |}
              "0000000200" 200 ["0000000300"] None) as [_ H].
  - vm_compute. reflexivity.
  - cbn [expected]. lia.
  - apply H. vm_compute. reflexivity.
Defined.

(** C6, the claim as stated fails: after the bundle 200 the expected base
    number is 300; the walk then gives a file with the base number 100,
    which lies before the start 250 of the range, and the callback
    returns nil; the scan ends without an error. *)
Lemma C6_counterexample_skipped_before_start :
  WalkFrom strayStore "0000000200" = (["0000000200"; "old-0000000100"], None) /\
  bundleBase "old-0000000100" = Some 100 /\
  exists st evs,
    walk (walkFn strayStore 100 strayRange) ["0000000200"] None
         {| expected := 200; lastBlockHash := ""; destStore := emptyDest |}
      = (st, evs, None) /\
    expected st = 300 /\
    walkFn strayStore 100 strayRange st "old-0000000100" = (st, [], None) /\
    returned (CheckMergedBlocksBatch (inr strayStore) (inr emptyDest) 100 strayRange) = None.
Proof.
  split; [vm_compute; reflexivity|]. split; [vm_compute; reflexivity|].
  eexists _, _. split; [vm_compute; reflexivity|].
  split; [reflexivity|]. split; vm_compute; reflexivity.
Qed.

(** *** Writes that fail *)

Lemma fillMissing_sim (b s : Z) : forall (fuel : nat) (e : Z) (d1 d2 : DestStore),
  fst (fst (fillMissing fuel e b s d1)) = fst (fst (fillMissing fuel e b s d2)) /\
  markers (snd (fillMissing fuel e b s d1)) = markers (snd (fillMissing fuel e b s d2)) /\
  printed (snd (fillMissing fuel e b s d1)) = printed (snd (fillMissing fuel e b s d2)).
Proof.
  induction fuel as [|fuel IH]; intros e d1 d2; cbn [fillMissing]; [auto|].
  destruct (e <? b); [|auto].
  destruct (WriteObject d1 _ _) as [d1' res1].
  destruct (WriteObject d2 _ _) as [d2' res2].
  specialize (IH (uint64 (e + s)) d1' d2').
  destruct (fillMissing fuel (uint64 (e + s)) b s d1') as [[e1 x1] evs1].
  destruct (fillMissing fuel (uint64 (e + s)) b s d2') as [[e2 x2] evs2].
  cbn [fst snd markers printed] in *. destruct IH as (A & B & C).
  rewrite A, B, C. auto.
Qed.

Lemma checkBundle_sim (store : Store) (s : Z) (range : BlockRange)
    (st1 st2 : ScanState) (filename : string) (b : Z) :
  agree st1 st2 ->
  agree (fst (fst (checkBundle store s range st1 filename b)))
        (fst (fst (checkBundle store s range st2 filename b))) /\
  markers (snd (fst (checkBundle store s range st1 filename b)))
    = markers (snd (fst (checkBundle store s range st2 filename b))) /\
  printed (snd (fst (checkBundle store s range st1 filename b)))
    = printed (snd (fst (checkBundle store s range st2 filename b))) /\
  snd (checkBundle store s range st1 filename b)
    = snd (checkBundle store s range st2 filename b).
Proof.
  intros [A1 A2]. unfold checkBundle. rewrite <- A1, <- A2.
  pose proof (fillMissing_sim b (uint64 s) (missingRounds (expected st1) b (uint64 s))
                (expected st1) (destStore st1) (destStore st2)) as (F1 & F2 & F3).
  destruct (fillMissing _ _ _ _ (destStore st1)) as [[e1 d1] evs1].
  destruct (fillMissing _ _ _ _ (destStore st2)) as [[e2 d2] evs2].
  cbn [fst snd] in F1, F2, F3. subst e2.
  destruct (checkMergedBlockFileBroken store filename (lastBlockHash st1))
    as [[[br lh] er] evsc].
  unfold recordBroken. destruct br.
  - destruct (WriteObject d1 _ _) as [d1' r1]. destruct (WriteObject d2 _ _) as [d2' r2].
    destruct er; [|destruct (stopReached s range b) as [[|]|]];
      cbn [fst snd]; unfold agree; cbn [expected lastBlockHash];
      rewrite !markers_app, !printed_app, F2, F3; auto.
  - destruct er; [|destruct (stopReached s range b) as [[|]|]];
      cbn [fst snd]; unfold agree; cbn [expected lastBlockHash];
      rewrite !markers_app, !printed_app, F2, F3; auto.
Qed.

Lemma walkFn_sim (store : Store) (s : Z) (range : BlockRange)
    (st1 st2 : ScanState) (filename : string) :
  agree st1 st2 ->
  agree (fst (fst (walkFn store s range st1 filename)))
        (fst (fst (walkFn store s range st2 filename))) /\
  markers (snd (fst (walkFn store s range st1 filename)))
    = markers (snd (fst (walkFn store s range st2 filename))) /\
  printed (snd (fst (walkFn store s range st1 filename)))
    = printed (snd (fst (walkFn store s range st2 filename))) /\
  snd (walkFn store s range st1 filename) = snd (walkFn store s range st2 filename).
Proof.
  intros A. unfold walkFn.
  destruct (bundleBase filename) as [b|]; [|cbn; auto].
  destruct (beforeStart s range b); [cbn; auto|].
  destruct A as [A1 A2]. rewrite <- A1.
  destruct (b <? expected st1); [cbn; unfold agree; auto|].
  apply checkBundle_sim. split; assumption.
Qed.

Lemma walk_sim (store : Store) (s : Z) (range : BlockRange) (lerr : option error)
    (files : list string) : forall st1 st2 : ScanState,
  agree st1 st2 ->
  markers (snd (fst (walk (walkFn store s range) files lerr st1)))
    = markers (snd (fst (walk (walkFn store s range) files lerr st2))) /\
  printed (snd (fst (walk (walkFn store s range) files lerr st1)))
    = printed (snd (fst (walk (walkFn store s range) files lerr st2))) /\
  snd (walk (walkFn store s range) files lerr st1)
    = snd (walk (walkFn store s range) files lerr st2).
Proof.
  induction files as [|f files IH]; intros st1 st2 A; cbn [walk]; [auto|].
  pose proof (walkFn_sim store s range st1 st2 f A) as (A' & M & P & R).
  destruct (walkFn store s range st1 f) as [[st1' evs1] r1].
  destruct (walkFn store s range st2 f) as [[st2' evs2] r2].
  cbn [fst snd] in *. subst r2.
  destruct r1 as [e|].
  - destruct (is_StopIteration e); cbn [fst snd]; auto.
  - specialize (IH st1' st2' A').
    destruct (walk (walkFn store s range) files lerr st1') as [[x1 y1] z1].
    destruct (walk (walkFn store s range) files lerr st2') as [[x2 y2] z2].
    cbn [fst snd] in *. destruct IH as (M' & P' & R').
    rewrite !markers_app, !printed_app, M, P, M', P', R'. auto.
Qed.

(** C7 (amended).  The result of a marker write is dropped: whatever the
    destination store answers, the run returns the same, prints the same
    lines, none of them about a write that failed, and asks for the same
    markers in the same order; so a failed write neither ends the scan
    nor keeps later bundles from being checked and marked. *)
Theorem C7_write_failures_ignored
    (blocksStore : error + Store) (dest1 dest2 : DestStore) (s : Z) (range : BlockRange) :
  returned (CheckMergedBlocksBatch blocksStore (inr dest1) s range)
    = returned (CheckMergedBlocksBatch blocksStore (inr dest2) s range) /\
  printed (trace (CheckMergedBlocksBatch blocksStore (inr dest1) s range))
    = printed (trace (CheckMergedBlocksBatch blocksStore (inr dest2) s range)) /\
  markers (trace (CheckMergedBlocksBatch blocksStore (inr dest1) s range))
    = markers (trace (CheckMergedBlocksBatch blocksStore (inr dest2) s range)).
Proof.
  unfold CheckMergedBlocksBatch.
  destruct (negb (IsResolved range)); [auto|].
  destruct (startBundle s range) as [b0|]; [|auto].
  destruct blocksStore as [e|store]; [auto|].
  destruct (WalkFrom store (fmt010d b0)) as [files lerr].
  pose proof (walk_sim store s range lerr files
                {| expected := uint64 b0; lastBlockHash := ""; destStore := dest1 |}
                {| expected := uint64 b0; lastBlockHash := ""; destStore := dest2 |}
                (conj eq_refl eq_refl)) as (M & P & R).
  destruct (walk _ files lerr {| expected := uint64 b0; lastBlockHash := ""; destStore := dest1 |})
    as [[x1 y1] z1].
  destruct (walk _ files lerr {| expected := uint64 b0; lastBlockHash := ""; destStore := dest2 |})
    as [[x2 y2] z2].
  cbn [fst snd returned trace] in *. auto.
Qed.

(** C7, the claim as stated fails: with a destination store that refuses
    every write, the run over the bundles 100 and 300 asks for two marker
    writes, both fail, and it prints exactly the lines of the run in
    which both succeed; no line tells of a failure. *)
Lemma C7_counterexample_failure_not_logged :
  trace (CheckMergedBlocksBatch (inr gapStore) (inr brokenDest) 100 gapRange)
  = [Stdout "checking 0000000100";
     Stdout "found missing file 0000000200.missing, writing to store";
     DestWrite "0000000200.missing" (Some (ErrExternal "write refused"));
     Stdout "checking 0000000300";
     Stdout "found broken file 0000000300.broken, writing to store";
     DestWrite "0000000300.broken" (Some (ErrExternal "write refused"))] /\
  printed (trace (CheckMergedBlocksBatch (inr gapStore) (inr brokenDest) 100 gapRange))
  = printed (trace (CheckMergedBlocksBatch (inr gapStore) (inr emptyDest) 100 gapRange)) /\
  written (CheckMergedBlocksBatch (inr gapStore) (inr brokenDest) 100 gapRange) = [] /\
  returned (CheckMergedBlocksBatch (inr gapStore) (inr brokenDest) 100 gapRange) = None.
Proof. repeat split; vm_compute; reflexivity. Qed.

(** *** Numbers of 2^32 and more *)

Lemma uint32_uint64 (z : Z) : uint32 (uint64 z) = uint32 z.
Proof.
  unfold uint32, uint64. apply Z.mod_mod_divide.
  exists (2 ^ 32). reflexivity.
Qed.

Lemma stopReached_mod (s : Z) (a stop b : Z) :
  stopReached s {| Start := a; Stop := Some (stop + 2 ^ 32) |} b
  = stopReached s {| Start := a; Stop := Some stop |} b.
Proof.
  unfold stopReached. cbn [Stop].
  destruct (RoundToBundleEndBlock (uint32 b) s); [|reflexivity].
  rewrite !uint32_uint64. unfold uint32.
  replace (stop + 2 ^ 32 - 1) with (stop - 1 + 1 * 2 ^ 32) by ring.
  rewrite Z.mod_add by lia. reflexivity.
Qed.

(** C9 (amended).  The bundle of the start, from which both [expected]
    and the first file name come, is that of the start cut to 32 bits;
    the base number of a file name is at most 2^32-1, and a ten-digit
    name of 2^32 or more is read as 2^32-1, the range error of the parse
    being dropped; the stop test sees the stop only modulo 2^32. *)
Theorem C9_32_bit_arithmetic
    (store : Store) (s : Z) (range : BlockRange) (st : ScanState)
    (filename : string) (b v stop : Z) :
  bundleBase filename = Some b ->
  2 ^ 32 <= v < 10 ^ 10 ->
  startBundle s range
    = startBundle s {| Start := Start range mod 2 ^ 32; Stop := Stop range |} /\
  0 <= b <= maxUint32 /\
  ParseUint (fmt010d v) 32 = (maxUint32, Some ErrRange) /\
  bundleBase (fmt010d v) = Some maxUint32 /\
  walkFn store s {| Start := Start range; Stop := Some (stop + 2 ^ 32) |} st filename
    = walkFn store s {| Start := Start range; Stop := Some stop |} st filename.
Proof.
  intros B Hv. split; [|split; [|split; [|split]]].
  - unfold startBundle. cbn [Start]. f_equal.
    unfold uint32. rewrite Z.mod_mod by lia. reflexivity.
  - pose proof (bundleBase_bound _ _ B). unfold maxUint32. lia.
  - apply ParseUint_fmt010d_over. exact Hv.
  - unfold bundleBase.
    rewrite HasSuffix_fmt010d, numberRegex_fmt010d, ParseUint_fmt010d_over by lia.
    reflexivity.
  - unfold walkFn. rewrite B.
    change (beforeStart s {| Start := Start range; Stop := Some (stop + 2 ^ 32) |} b)
      with (beforeStart s {| Start := Start range; Stop := Some stop |} b).
    destruct (beforeStart _ _ b); [reflexivity|].
    destruct (b <? expected st); [reflexivity|].
    unfold checkBundle. rewrite stopReached_mod. reflexivity.
Qed.

Lemma C9_32_bit_arithmetic_witness :
  startBundle 100 highRange = Some 0 /\
  bundleBase "5000000000" = Some 4294967295.
Proof.
  destruct (C9_32_bit_arithmetic highStore 100 highRange
              {| expected := 0; lastBlockHash := ""; destStore := emptyDest |}
              "4294967200" 4294967200 5000000000 10) as (H1 & _ & _ & H4 & _).
  - vm_compute. reflexivity.
  - lia.
  - split; [rewrite H1; vm_compute; reflexivity|]. exact H4.
Defined.

(** C9, the claim as stated fails: the base number read from the name
    5000000000 is 4294967295, the largest 32-bit value, and not
    5000000000 modulo 2^32, which is 705032704. *)
Lemma C9_counterexample_parse_clamps :
  bundleBase "5000000000" = Some 4294967295 /\
  5000000000 mod 2 ^ 32 = 705032704 /\
  bundleBase "5000000000" <> Some (5000000000 mod 2 ^ 32).
Proof.
  split; [vm_compute; reflexivity|]. split; [reflexivity|].
  vm_compute. discriminate.
Qed.

(** *** Read errors *)

(** C10.  A read that fails after blocks that link, with an error that
    is not the end of the file, gives not-broken together with the
    error: the callback writes no [.broken] marker for the bundle and
    the walk ends with the error.  An object that cannot be opened, or
    for which no reader can be made, gives broken together with the
    error and an empty id: the callback writes the [.broken] marker of
    the bundle, empties [lastBlockHash] and then returns the error.  No
    other object gives a result that is broken and carries an error. *)
Theorem C10_read_error_mid_bundle
    (store : Store) (s : Z) (range : BlockRange) (st : ScanState)
    (filename : string) (b : Z) (pre : list Block) (ob : option Block) (e : error)
    (rest : list ReadResult) (files : list string) (lerr : option error) :
  0 < s < 2 ^ 32 ->
  bundleBase filename = Some b -> beforeStart s range b = false ->
  0 <= expected st <= b ->
  OpenObject store filename = Readable (okReads pre ++ (ob, Some e) :: rest) ->
  chained (lastBlockHash st) pre ->
  is_EOF e = false -> is_StopIteration e = false ->
  fst (checkMergedBlockFileBroken store filename (lastBlockHash st))
    = (false, carried (lastBlockHash st) pre, Some e) /\
  (exists st' evs,
     walkFn store s range st filename = (st', evs, Some e) /\
     markers evs = missingNames (expected st) b s /\
     walk (walkFn store s range) (filename :: files) lerr st = (st', evs, Some e)) /\
  (forall (filename' : string) (b' : Z) (st1 : ScanState) (err : error),
     bundleBase filename' = Some b' -> beforeStart s range b' = false ->
     0 <= expected st1 <= b' ->
     OpenObject store filename' = OpenFails err \/ OpenObject store filename' = ReaderFails err ->
     fst (checkMergedBlockFileBroken store filename' (lastBlockHash st1)) = (true, "", Some err) /\
     exists st' evs,
       walkFn store s range st1 filename' = (st', evs, Some err) /\
       markers evs = missingNames (expected st1) b' s ++ [brokenName b'] /\
       lastBlockHash st' = "") /\
  (forall (filename' last last' : string) (err : error),
     fst (checkMergedBlockFileBroken store filename' last) = (true, last', Some err) ->
     OpenObject store filename' = OpenFails err \/ OpenObject store filename' = ReaderFails err).
Proof.
  intros Hs B G He O C Eof Stop.
  pose proof (bundleBase_bound _ _ B) as Hb.
  assert (R : fst (checkMergedBlockFileBroken store filename (lastBlockHash st))
              = (false, carried (lastBlockHash st) pre, Some e)).
  { unfold checkMergedBlockFileBroken. rewrite O. cbn [fst].
    apply readBlocks_readError; assumption. }
  split; [exact R|]. split; [|split].
  - destruct (checkBundle_spec store s range st filename b false _ (Some e) Hs Hb ltac:(lia) R)
      as (st' & evs & r & E & M & _ & _ & Rr & _).
    subst r. exists st', evs.
    rewrite (walkFn_bundle store s range st filename b B G) by lia.
    split; [exact E|]. split; [rewrite M; apply app_nil_r|].
    cbn [walk]. rewrite (walkFn_bundle store s range st filename b B G) by lia.
    rewrite E, Stop. reflexivity.
  - intros filename' b' st1 err B' G' He' Fail.
    pose proof (bundleBase_bound _ _ B') as Hb'.
    assert (H : fst (checkMergedBlockFileBroken store filename' (lastBlockHash st1))
                = (true, "", Some err)).
    { unfold checkMergedBlockFileBroken. destruct Fail as [F|F]; rewrite F; reflexivity. }
    split; [exact H|].
    destruct (checkBundle_spec store s range st1 filename' b' true _ (Some err) Hs Hb'
                ltac:(lia) H)
      as (st' & evs & r & E & M & L & _ & Rr & _).
    subst r. exists st', evs.
    rewrite (walkFn_bundle store s range st1 filename' b' B' G') by lia.
    split; [exact E|]. split; [exact M|exact L].
  - intros filename' last last' err H. unfold checkMergedBlockFileBroken in H.
    destruct (OpenObject store filename') as [e1|e1|reads]; cbn [fst] in H.
    + inversion H. auto.
    + inversion H. auto.
    + apply readBlocks_broken_no_error in H. discriminate.
Qed.

Lemma C10_read_error_mid_bundle_witness :
  (exists st' evs,
     walkFn readErrStore 100 gapRange
       {| expected := 100; lastBlockHash := ""; destStore := emptyDest |} "0000000100"
       = (st', evs, Some (ErrExternal "unexpected EOF")) /\
     markers evs = []) /\
  (exists st' evs,
     walkFn readErrStore 100 gapRange
       {| expected := 200; lastBlockHash := "0000000199"; destStore := emptyDest |} "0000000200"
       = (st', evs, Some (ErrExternal "not found")) /\
     markers evs = ["0000000200.broken"] /\
     lastBlockHash st' = "").
Proof.
  destruct (C10_read_error_mid_bundle readErrStore 100 gapRange
              {| expected := 100; lastBlockHash := ""; destStore := emptyDest |}
              "0000000100" 100 [blockAt 100; blockAt 101] None
              (ErrExternal "unexpected EOF") [] [] None)
    as (_ & (st' & evs & E & M & _) & F & _).
  - lia.
  - vm_compute. reflexivity.
  - vm_compute. reflexivity.
  - cbn [expected]. lia.
  - vm_compute. reflexivity.
  - apply chainedb_chained. vm_compute. reflexivity.
  - reflexivity.
  - reflexivity.
  - split.
    + exists st', evs. split; [exact E|]. rewrite M. vm_compute. reflexivity.
    + destruct (F "0000000200" 200
                  {| expected := 200; lastBlockHash := "0000000199"; destStore := emptyDest |}
                  (ErrExternal "not found"))
        as (_ & st2 & evs2 & E2 & M2 & L2).
      * vm_compute. reflexivity.
      * vm_compute. reflexivity.
      * cbn [expected]. lia.
      * left. vm_compute. reflexivity.
      * exists st2, evs2. split; [exact E2|]. split; [|exact L2].
        rewrite M2. vm_compute. reflexivity.
Defined.

End ToolsClaims.

(** ** The downloader: lemmas and claims *)

Module FirehoseClaims.
Import Firehose FirehoseSpec FirehoseExamples.

Section Facts.

Context {B : Type}.
Variable chain : Chain B.
Variable firehoseClient : Client.
Variable requestInfo : RequestInfo.
Variable mergeWriter : Writer.
Variable blockRange : BlockRange.

Lemma toBlock_session (st : Session) (response : Response) :
  lastBlockID (fst (fst (toBlock chain st response))) = lastBlockID st /\
  lastBlockNum (fst (fst (toBlock chain st response))) = lastBlockNum st /\
  processed (fst (fst (toBlock chain st response))) = processed st.
Proof.
  unfold toBlock. destruct (Metadata response) as [meta|].
  - destruct (CursorFromOpaque chain (RespCursor response)) as [e|[id num]]; cbn; auto.
  - destruct (negb (fallbackBlockTypeChecked st) && BlockFactoryIsPbbstream chain); [cbn; auto|].
    destruct (UnmarshalTo chain (RespBlock response)) as [e|block]; [cbn; auto|].
    destruct (Encode chain (wrapBlock chain block)); cbn; auto.
Qed.

Lemma toBlock_events (st : Session) (response : Response) :
  Forall plainEvent (snd (fst (toBlock chain st response))).
Proof.
  unfold toBlock. destruct (Metadata response) as [meta|].
  - destruct (CursorFromOpaque chain (RespCursor response)) as [e|[id num]]; cbn; constructor.
  - destruct (negb (fallbackBlockTypeChecked st)); cbn [andb].
    + destruct (BlockFactoryIsPbbstream chain); [cbn; repeat constructor|].
      destruct (UnmarshalTo chain (RespBlock response)) as [e|block]; [cbn; repeat constructor|].
      destruct (Encode chain (wrapBlock chain block));
        destruct (negb (IsLIBNumDerivable chain block) && _); cbn; repeat constructor.
    + destruct (UnmarshalTo chain (RespBlock response)) as [e|block]; [cbn; repeat constructor|].
      destruct (Encode chain (wrapBlock chain block));
        destruct (negb (IsLIBNumDerivable chain block) && _); cbn; repeat constructor.
Qed.

Lemma toBlock_no_write (st : Session) (response : Response) :
  writerInput (snd (fst (toBlock chain st response))) = [].
Proof.
  unfold toBlock. destruct (Metadata response) as [meta|].
  - destruct (CursorFromOpaque chain (RespCursor response)) as [e|[id num]]; reflexivity.
  - destruct (negb (fallbackBlockTypeChecked st)); cbn [andb].
    + destruct (BlockFactoryIsPbbstream chain); [reflexivity|].
      destruct (UnmarshalTo chain (RespBlock response)) as [e|block]; [reflexivity|].
      destruct (Encode chain (wrapBlock chain block));
        destruct (negb (IsLIBNumDerivable chain block) && _); reflexivity.
    + destruct (UnmarshalTo chain (RespBlock response)) as [e|block]; [reflexivity|].
      destruct (Encode chain (wrapBlock chain block));
        destruct (negb (IsLIBNumDerivable chain block) && _); reflexivity.
Qed.

Lemma acceptBlock_events (st : Session) (blk : Block) :
  Forall plainEvent (snd (fst (acceptBlock mergeWriter st blk))).
Proof.
  unfold acceptBlock.
  destruct (negb (String.eqb (lastBlockID st) "") && _); [constructor|].
  destruct (mergeWriter (processed st) blk); cbn; repeat constructor.
Qed.

Lemma handleResponse_events (st : Session) (response : Response) :
  Forall plainEvent (snd (fst (handleResponse chain mergeWriter st response))).
Proof.
  unfold handleResponse.
  pose proof (toBlock_events st response) as T.
  destruct (toBlock chain st response) as [[st1 evs1] [e|blk]]; cbn [fst snd] in *; [exact T|].
  pose proof (acceptBlock_events st1 blk) as A.
  destruct (acceptBlock mergeWriter st1 blk) as [[st2 evs2] res]. cbn [fst snd] in *.
  apply Forall_app. split; assumption.
Qed.

(** What the inner loop leaves in the trace: the events of the responses
    it handled and, when it breaks, the logged error and one wait. *)
Lemma recvLoop_events (ending : error) (rs : list Response) : forall st : Session,
  exists plain : list event,
    Forall plainEvent plain /\
    ((snd (recvLoop chain mergeWriter rs ending st) = Break /\
      is_EOF ending = false /\
      snd (fst (recvLoop chain mergeWriter rs ending st))
        = plain ++ [LogError ending retryDelay; Sleep retryDelay]) \/
     ((exists res, snd (recvLoop chain mergeWriter rs ending st) = Return res) /\
      snd (fst (recvLoop chain mergeWriter rs ending st)) = plain)).
Proof.
  induction rs as [|response rs IH]; intros st; cbn [recvLoop].
  - destruct (is_EOF ending) eqn:E.
    + exists []. split; [constructor|]. right. cbn. eauto.
    + exists []. split; [constructor|]. left. cbn. auto.
  - pose proof (handleResponse_events st response) as H.
    destruct (handleResponse chain mergeWriter st response) as [[st1 evs1] res].
    cbn [fst snd] in H. destruct res as [e|].
    + exists evs1. split; [exact H|]. right. cbn. eauto.
    + destruct (IH st1) as (plain & P & D).
      destruct (recvLoop chain mergeWriter rs ending st1) as [[st2 evs2] ex].
      cbn [fst snd] in *. exists (evs1 ++ plain). split; [apply Forall_app; auto|].
      destruct D as [(X & E & T)|(X & T)]; subst evs2.
      * left. rewrite app_assoc. auto.
      * right. auto.
Qed.

Lemma retryDiscipline_plain (req : Request) (plain rest : list event) :
  Forall plainEvent plain ->
  retryDiscipline req rest -> retryDiscipline req (plain ++ rest).
Proof.
  induction 1 as [|ev plain Hev Hall IH]; intros R; [exact R|].
  cbn [app]. destruct ev; cbn in Hev; try contradiction; cbn [retryDiscipline]; auto.
Qed.

Lemma requests_plain (plain rest : list event) :
  Forall plainEvent plain -> requests (plain ++ rest) = requests rest.
Proof.
  induction 1 as [|ev plain Hev Hall IH]; [reflexivity|].
  cbn [app]. destruct ev; cbn in Hev; try contradiction; cbn [requests]; auto.
Qed.

Lemma sleeps_plain (plain rest : list event) :
  Forall plainEvent plain -> sleeps (plain ++ rest) = sleeps rest.
Proof.
  induction 1 as [|ev plain Hev Hall IH]; [reflexivity|].
  cbn [app]. destruct ev; cbn in Hev; try contradiction; cbn [sleeps]; auto.
Qed.

(** The trace of the outer loop: it is empty or starts with a call of
    [Blocks], every call has the one request [mkRequest], and the events
    of the retries are in order. *)
Lemma downloadLoop_trace (fuel : nat) : forall (attempt : nat) (st : Session),
  let evs := snd (fst (downloadLoop chain firehoseClient requestInfo mergeWriter blockRange
                         fuel attempt st)) in
  (evs = [] \/ exists rest, evs = CallBlocks (mkRequest requestInfo blockRange) :: rest) /\
  Forall (fun r => r = mkRequest requestInfo blockRange) (requests evs) /\
  retryDiscipline (mkRequest requestInfo blockRange) evs.
Proof.
  induction fuel as [|fuel IH]; intros attempt st; cbv zeta in *; cbn [downloadLoop].
  - cbn. auto.
  - destruct (firehoseClient attempt (mkRequest requestInfo blockRange)) as [e|stream].
    + cbn. split; [right; eexists; reflexivity|]. split; [repeat constructor|exact I].
    + destruct (recvLoop_events (ending stream) (responses stream) st) as (plain & P & D).
      destruct (recvLoop chain mergeWriter (responses stream) (ending stream) st)
        as [[st1 evs1] ex].
      cbn [fst snd] in D. destruct D as [(X & E & T)|((res & X) & T)]; subst ex evs1.
      * specialize (IH (S attempt) st1).
        destruct (downloadLoop chain firehoseClient requestInfo mergeWriter blockRange
                    fuel (S attempt) st1) as [[st2 evs2] out].
        cbn [fst snd] in *. destruct IH as (S0 & Rq & Rd).
        split; [right; eexists; reflexivity|]. split.
        -- cbn [app requests]. constructor; [reflexivity|].
           rewrite <- app_assoc, requests_plain by exact P. exact Rq.
        -- cbn [app retryDiscipline]. rewrite <- app_assoc.
           apply retryDiscipline_plain; [exact P|].
           cbn [app retryDiscipline]. repeat split; try assumption.
           destruct S0 as [S0|[rest S0]]; subst evs2; [exact I|reflexivity].
      * cbn [fst snd]. split; [right; eexists; reflexivity|]. split.
        -- cbn [requests]. constructor; [reflexivity|].
           rewrite <- (app_nil_r plain), requests_plain by exact P. constructor.
        -- cbn [retryDiscipline]. rewrite <- (app_nil_r plain).
           apply retryDiscipline_plain; [exact P|exact I].
Qed.

End Facts.

(** C2.  Once the session has a last block id, a streamed block whose
    parent id differs from it makes the command return the error of a
    broken sequence: the block is not given to the writer, the session is
    as it was, and the responses that follow are not read.  A block whose
    parent id matches is given to the writer, and the session's last id
    and number become those of the block. *)
Theorem C2_continuity_check {B : Type}
    (chain : Chain B) (mergeWriter : Writer)
    (st st1 : Session) (response : Response) (evs1 : list event) (blk : Block)
    (rest : list Response) (ending : error) :
  lastBlockID st <> "" ->
  toBlock chain st response = (st1, evs1, inr blk) ->
  (ParentId blk <> lastBlockID st ->
     acceptBlock mergeWriter st1 blk
       = (st1, [], Some (ErrInvalidSequence (ParentId blk) (lastBlockNum st) (lastBlockID st))) /\
     recvLoop chain mergeWriter (response :: rest) ending st
       = (st1, evs1,
          Return (Some (ErrInvalidSequence (ParentId blk) (lastBlockNum st) (lastBlockID st)))) /\
     writerInput evs1 = [] /\
     processed st1 = processed st) /\
  (ParentId blk = lastBlockID st ->
     exists st2 res,
       handleResponse chain mergeWriter st response
         = (st2, evs1 ++ [ProcessBlock blk (mergeWriter (processed st) blk)], res) /\
       lastBlockID st2 = Id blk /\
       lastBlockNum st2 = Number blk /\
       processed st2 = processed st ++ [blk]).
Proof.
  intros Hne T.
  pose proof (toBlock_session chain st response) as (S1 & S2 & S3).
  pose proof (toBlock_events chain st response) as Ev.
  rewrite T in S1, S2, S3, Ev. cbn [fst snd] in *.
  apply String.eqb_neq in Hne.
  split.
  - intros Hp. apply String.eqb_neq in Hp.
    assert (A : acceptBlock mergeWriter st1 blk
                = (st1, [], Some (ErrInvalidSequence (ParentId blk) (lastBlockNum st)
                                    (lastBlockID st)))).
    { unfold acceptBlock. rewrite S1, S2, Hne, Hp. reflexivity. }
    split; [exact A|]. split; [|split].
    + cbn [recvLoop]. unfold handleResponse. rewrite T, A, app_nil_r. reflexivity.
    + pose proof (toBlock_no_write chain st response) as Nw.
      rewrite T in Nw. exact Nw.
    + exact S3.
  - intros Hp.
    unfold handleResponse. rewrite T. unfold acceptBlock.
    rewrite S1, S3, Hp, String.eqb_refl. rewrite andb_false_r.
    destruct (mergeWriter (processed st) blk); eexists _, _;
      (split; [reflexivity|]); cbn [lastBlockID lastBlockNum processed]; auto.
Qed.

Lemma C2_continuity_check_witness :
  recvLoop numberChain okWriter [responseAt 5; responseAt 6] io_EOF (session "b0000000002" 2)
  = (session "b0000000002" 2, [],
     Return (Some (ErrInvalidSequence "b0000000004" 2 "b0000000002"))).
Proof.
  destruct (C2_continuity_check numberChain okWriter
              (session "b0000000002" 2) (session "b0000000002" 2) (responseAt 5) []
              {| Id := "b0000000005"; Number := 5; ParentId := "b0000000004"; ParentNum := 4;
                 Timestamp := 0; LibNum := 4; Payload := "0000000005" |}
              [responseAt 6] io_EOF) as [H _].
  - cbn [session lastBlockID]. discriminate.
  - vm_compute. reflexivity.
  - destruct H as (_ & H & _).
    + cbn [ParentId session lastBlockID]. discriminate.
    + exact H.
Defined.

(** C8.  In the fallback path a decoded block whose type cannot derive
    the LIB number reaches the encoder inside an envelope whose LIB
    number is the block number minus one, or the block number itself when
    that is at most the first streamable block; a block whose type can
    derive it reaches the encoder as it is. *)
Theorem C8_approximated_lib {B : Type}
    (chain : Chain B) (st : Session) (response : Response) (block : B) :
  Metadata response = None ->
  fallbackBlockTypeChecked st = true \/ BlockFactoryIsPbbstream chain = false ->
  UnmarshalTo chain (RespBlock response) = inr block ->
  0 <= GetFirehoseBlockNumber chain block < 2 ^ 64 ->
  0 <= GetProtocolFirstStreamableBlock chain ->
  let number := GetFirehoseBlockNumber chain block in
  let first := GetProtocolFirstStreamableBlock chain in
  wrapBlock chain block
    = (if IsLIBNumDerivable chain block then ChainBlock block
       else BlockEnveloppe block (if number <=? first then number else number - 1)) /\
  snd (toBlock chain st response)
    = match Encode chain (wrapBlock chain block) with
      | inl e => inl (ErrEncode e)
      | inr blk => inr blk
      end.
Proof.
  intros M F U Hn Hf number first. split.
  - unfold wrapBlock. destruct (IsLIBNumDerivable chain block); cbn [negb]; [reflexivity|].
    f_equal. unfold approximateLIB. fold number first.
    destruct (Z.leb_spec number first); [reflexivity|].
    apply Z.mod_small. subst number first. lia.
  - unfold toBlock. rewrite M, U.
    assert (G : negb (fallbackBlockTypeChecked st) && BlockFactoryIsPbbstream chain = false).
    { destruct F as [F|F]; rewrite F; [reflexivity|apply andb_false_r]. }
    rewrite G. destruct (Encode chain (wrapBlock chain block)); reflexivity.
Qed.

Lemma C8_approximated_lib_witness :
  wrapBlock numberChain 5 = BlockEnveloppe 5 4 /\
  wrapBlock numberChain 1 = BlockEnveloppe 1 1 /\
  snd (toBlock numberChain initialSession (oldResponseAt 5))
  = inr {| Id := "b0000000005"; Number := 5; ParentId := "b0000000004"; ParentNum := 4;
           Timestamp := 0; LibNum := 4; Payload := "" |}.
Proof.
  destruct (C8_approximated_lib numberChain initialSession (oldResponseAt 5) 5)
    as [H5 T5]; try reflexivity.
  - right. reflexivity.
  - cbn [numberChain GetFirehoseBlockNumber]. lia.
  - cbn [numberChain GetProtocolFirstStreamableBlock]. lia.
  - destruct (C8_approximated_lib numberChain initialSession (oldResponseAt 1) 1)
      as [H1 _]; try reflexivity.
    + right. reflexivity.
    + cbn [numberChain GetFirehoseBlockNumber]. lia.
    + cbn [numberChain GetProtocolFirstStreamableBlock]. lia.
    + split; [rewrite H5; reflexivity|]. split; [rewrite H1; reflexivity|].
      rewrite T5. vm_compute. reflexivity.
Defined.

End FirehoseClaims.

(** ** The checker: further properties *)

Module ToolsExtras.
Import Tools ToolsSpec ToolsExamples ToolsFacts ToolsWalk ToolsReport.

(** *** The files the callback passes over *)

Lemma length_append (a b : string) :
  String.length (a ++ b) = (String.length a + String.length b)%nat.
Proof. induction a as [|c a IH]; cbn; [reflexivity|]. rewrite IH. reflexivity. Qed.

Lemma substring_all (a : string) : substring 0 (String.length a) a = a.
Proof. induction a as [|c a IH]; cbn; [reflexivity|]. rewrite IH. reflexivity. Qed.

Lemma substring_suffix (name suffix : string) :
  substring (String.length name) (String.length suffix) (name ++ suffix) = suffix.
Proof. induction name as [|c name IH]; cbn; [apply substring_all|exact IH]. Qed.

Lemma HasSuffix_append (name suffix : string) : HasSuffix (name ++ suffix) suffix = true.
Proof.
  unfold HasSuffix. rewrite length_append.
  replace (String.length name + String.length suffix - String.length suffix)%nat
    with (String.length name) by lia.
  rewrite substring_suffix, String.eqb_refl.
  destruct (Nat.leb_spec (String.length suffix) (String.length name + String.length suffix));
    [reflexivity|lia].
Qed.

Lemma digitsN_append (k : nat) : forall (x : Z) (acc ext : string),
  (digitsN k x acc ++ ext)%string = digitsN k x (acc ++ ext).
Proof.
  induction k as [|k IH]; intros x acc ext; [reflexivity|].
  cbn [digitsN]. rewrite IH. reflexivity.
Qed.

Lemma isDigit_digitVal (c : ascii) (d : Z) : digitVal c = Some d -> isDigit c = true.
Proof.
  destruct c as [[] [] [] [] [] [] [] []]; vm_compute; intros H;
    first [reflexivity | discriminate H].
Qed.

Lemma takeDigits_run (n : nat) : forall (name m : string),
  takeDigits n name = Some m ->
  forall j : nat, (j < n)%nat ->
    exists c : ascii, String.get j name = Some c /\ isDigit c = true.
Proof.
  induction n as [|n IH]; intros name m H j Hj; [lia|].
  cbn [takeDigits] in H. destruct name as [|c name]; [discriminate|].
  destruct (digitVal c) as [d|] eqn:D; [|discriminate].
  destruct (takeDigits n name) as [r|] eqn:T; [|discriminate].
  destruct j as [|j].
  - exists c. split; [reflexivity|]. apply (isDigit_digitVal c d D).
  - cbn [String.get]. apply (IH name r T). lia.
Qed.

Lemma numberRegex_none (name : string) :
  (forall i : nat, ~ digitRunAt name i) -> numberRegex_FindStringSubmatch name = None.
Proof.
  induction name as [|c name IH]; intros H; rewrite numberRegex_unfold.
  - reflexivity.
  - destruct (takeDigits 10 (String c name)) as [m|] eqn:T.
    + exfalso. apply (H 0%nat). intros j Hj. apply (takeDigits_run 10 _ m T j Hj).
    + apply IH. intros i R. apply (H (S i)). intros j Hj. exact (R j Hj).
Qed.

(** The base number of a name that begins with the ten digits of [v]:
    [v] itself, or 2^32-1 when [v] does not fit 32 bits. *)
Lemma bundleBase_key (v : Z) (ext : string) :
  0 <= v < 10 ^ 10 -> HasSuffix (fmt010d v ++ ext) ".tmp" = false ->
  bundleBase (fmt010d v ++ ext) = Some (Z.min v maxUint32).
Proof.
  intros Hv Hx. unfold bundleBase. rewrite Hx.
  assert (M : numberRegex_FindStringSubmatch (fmt010d v ++ ext) = Some (fmt010d v)).
  { unfold fmt010d. destruct (Z.ltb_spec v (10 ^ 10)) as [_|]; [|lia].
    rewrite numberRegex_unfold, digitsN_append.
    change 10%nat with (10 + 0)%nat at 1.
    rewrite (takeDigits_digitsN 10 v ("" ++ ext) "" 0 eq_refl). reflexivity. }
  rewrite M. f_equal. unfold maxUint32.
  destruct (Z.lt_ge_cases v (2 ^ 32)) as [L|L].
  - rewrite ParseUint_fmt010d by lia. cbn [fst]. lia.
  - rewrite ParseUint_fmt010d_over by lia. cbn [fst]. unfold maxUint32. lia.
Qed.

Lemma beforeStart_spec (s : Z) (range : BlockRange) (b : Z) :
  0 < s < 2 ^ 32 -> 0 <= b < 2 ^ 32 -> 0 <= Start range < 2 ^ 64 ->
  beforeStart s range b = (b + s - 1 <? Start range).
Proof.
  intros Hs Hb Hr. unfold beforeStart.
  rewrite (uint64_small s), (uint64_small (b + s - 1)), (uint64_small (Start range)) by lia.
  reflexivity.
Qed.

(** The callback's main part always prints its line. *)
Lemma checkBundle_speaks (store : Store) (s : Z) (range : BlockRange) (st : ScanState)
    (filename : string) (b : Z) :
  snd (fst (checkBundle store s range st filename b)) <> [].
Proof.
  unfold checkBundle, checkMergedBlockFileBroken.
  destruct (fillMissing _ _ _ _ _) as [[e1 d1] evs1].
  assert (N : forall (evs3 : list event),
             evs1 ++ [Stdout ("checking " ++ filename)%string] ++ evs3 <> []).
  { intros evs3 H. apply app_eq_nil in H. destruct H as [_ H]. discriminate. }
  destruct (OpenObject store filename) as [e|e|reads].
  - destruct (recordBroken d1 b true "") as [[lh d2] evs3]. cbn [fst snd]. apply N.
  - destruct (recordBroken d1 b true "") as [[lh d2] evs3]. cbn [fst snd]. apply N.
  - destruct (readBlocks reads (lastBlockHash st)) as [[br lh0] er].
    destruct (recordBroken d1 b br lh0) as [[lh d2] evs3].
    destruct er as [e|]; [cbn [fst snd]; apply N|].
    destruct (stopReached s range b) as [[|]|]; cbn [fst snd]; apply N.
Qed.

(** X1.  What the callback passes over without any effect: a name that
    ends in [.tmp], whatever number it carries; a name without ten
    decimal digits in a row; and, of the names that begin with the ten
    digits of a base number, exactly those whose bundle ends before the
    start of the range, the base number counting as 2^32-1 when it does
    not fit 32 bits.  Every other such name gives an event or an
    error. *)
Theorem X1_passed_over_files_do_not_matter
    (store : Store) (s : Z) (range : BlockRange) (st : ScanState) :
  0 < s < 2 ^ 32 -> 0 <= Start range < 2 ^ 64 ->
  (forall name : string,
     walkFn store s range st (name ++ ".tmp") = (st, [], None)) /\
  (forall name : string,
     (forall i : nat, ~ digitRunAt name i) ->
     walkFn store s range st name = (st, [], None)) /\
  (forall (v : Z) (ext : string),
     0 <= v < 10 ^ 10 -> HasSuffix (fmt010d v ++ ext) ".tmp" = false ->
     (walkFn store s range st (fmt010d v ++ ext) = (st, [], None)
      <-> Z.min v maxUint32 + s - 1 < Start range)).
Proof.
  intros Hs Hr. split; [|split].
  - intros name. unfold walkFn, bundleBase. rewrite HasSuffix_append. reflexivity.
  - intros name H. unfold walkFn, bundleBase.
    destruct (HasSuffix name ".tmp"); [reflexivity|].
    rewrite (numberRegex_none name H). reflexivity.
  - intros v ext Hv Hx. unfold walkFn. rewrite (bundleBase_key v ext Hv Hx).
    assert (Hb : 0 <= Z.min v maxUint32 < 2 ^ 32) by (unfold maxUint32; lia).
    rewrite (beforeStart_spec s range _ Hs Hb Hr).
    destruct (Z.ltb_spec (Z.min v maxUint32 + s - 1) (Start range)) as [L|L].
    + split; [intros _; exact L|reflexivity].
    + split; [|lia]. intros H. exfalso.
      destruct (Z.min v maxUint32 <? expected st); [discriminate H|].
      apply (checkBundle_speaks store s range st (fmt010d v ++ ext) (Z.min v maxUint32)).
      rewrite H. reflexivity.
Qed.

Lemma X1_passed_over_files_do_not_matter_witness :
  let st := {| expected := 100; lastBlockHash := ""; destStore := emptyDest |} in
  walkFn gapStore 100 gapRange st "0000000300.tmp" = (st, [], None) /\
  walkFn gapStore 100 gapRange st "0000000000" = (st, [], None) /\
  walkFn gapStore 100 gapRange st "0000000100" <> (st, [], None).
Proof.
  intros st.
  destruct (X1_passed_over_files_do_not_matter gapStore 100 gapRange st) as (T & _ & K).
  - lia.
  - cbn [gapRange Start]. lia.
  - split; [exact (T "0000000300")|]. split.
    + apply (K 0 ""); [lia|reflexivity|]. cbn [gapRange Start]. vm_compute. reflexivity.
    + intros H. apply (K 100 "") in H; [|lia|reflexivity].
      cbn [gapRange Start] in H. vm_compute in H. discriminate.
Defined.

(** X2.  A bundle read to the end of its file passes the chain check
    exactly when each of its blocks has an id and links to the block
    before it (the first one to the carried id, if there is one); the
    check of such a file never gives an error. *)
Theorem X2_chain_check_accepts_exactly_linked_blocks (blocks : list Block) (last : string) :
  (fst (fst (readBlocks (okReads blocks) last)) = false <-> chained last blocks) /\
  snd (readBlocks (okReads blocks) last) = None.
Proof.
  split; [|apply readBlocks_okReads_noerr]. split.
  - revert last. induction blocks as [|b blocks IH]; intros last H; [exact I|].
    cbn [okReads map readBlocks] in H. cbn [chained].
    destruct (String.eqb_spec (Id b) "") as [E|E]; [discriminate H|].
    destruct (String.eqb_spec last "") as [L|L].
    + rewrite String.eqb_refl in H. cbn [negb] in H. auto.
    + destruct (String.eqb_spec (PreviousId b) last) as [P|P]; [|discriminate H].
      cbn [negb] in H. auto.
  - intros H. rewrite (readBlocks_clean _ _ H). reflexivity.
Qed.

(** *** The findings of a walk *)

Lemma increasingFrom_le (fs : list finding) (lo lo' : Z) :
  lo' <= lo -> increasingFrom lo fs -> increasingFrom lo' fs.
Proof.
  intros L H. destruct fs as [|f fs]; [exact I|].
  cbn [increasingFrom] in *. destruct H as [H1 H2]. split; [lia|exact H2].
Qed.

Lemma increasingFrom_skipped (name : string) (b s : Z) (br : bool) (rest : list finding) :
  0 < s -> increasingFrom (b + 1) rest ->
  forall (k : nat) (e lo : Z),
    skippedCount e b s = k -> lo <= e -> lo <= b ->
    increasingFrom lo
      (map MissingBundle (skippedBases e b s) ++ CheckedBundle name b br :: rest).
Proof.
  intros Hs Hrest. induction k as [|k IH]; intros e lo Hk Le Lb.
  - unfold skippedBases. rewrite Hk. cbn [seq map app increasingFrom findingBase]. auto.
  - destruct (Z.lt_ge_cases e b) as [L|L].
    + rewrite (skippedBases_cons e b s Hs L).
      cbn [map app increasingFrom findingBase]. split; [exact Le|].
      apply IH; [|lia|lia].
      rewrite (skippedCount_succ e b s Hs L) in Hk. lia.
    + rewrite skippedCount_zero in Hk by lia. discriminate.
Qed.

Lemma checkedFiles_missing (l : list Z) (rest : list finding) :
  checkedFiles (map MissingBundle l ++ rest) = checkedFiles rest.
Proof. induction l as [|x l IH]; [reflexivity|]. cbn. exact IH. Qed.

(** The events of the loop over the skipped bundles, given rounds
    enough. *)
Lemma fillMissing_events (b s : Z) :
  0 < s < 2 ^ 32 -> b < 2 ^ 32 ->
  forall (fuel : nat) (e : Z) (dest : DestStore),
    0 <= e -> (skippedCount e b s <= fuel)%nat ->
    snd (fillMissing fuel e b s dest)
      = flat_map (findingEvents (fault dest)) (map MissingBundle (skippedBases e b s)) /\
    fault (snd (fst (fillMissing fuel e b s dest))) = fault dest.
Proof.
  intros Hs Hb. induction fuel as [|fuel IH]; intros e dest He Hf.
  - assert (C : skippedCount e b s = 0%nat) by lia.
    unfold skippedBases. rewrite C. split; reflexivity.
  - cbn [fillMissing]. destruct (Z.ltb_spec e b) as [L|L].
    + pose proof (skippedCount_succ e b s (proj1 Hs) L) as C.
      destruct (WriteObject dest (fmt010d e ++ ".missing") "") as [dest1 res] eqn:W.
      pose proof (WriteObject_fault _ _ _ _ _ W) as F1.
      pose proof (WriteObject_res _ _ _ _ _ W) as R1.
      rewrite (uint64_small (e + s)) by lia.
      destruct (IH (e + s) dest1 ltac:(lia) ltac:(lia)) as [IH1 IH2].
      destruct (fillMissing fuel (e + s) b s dest1) as [[e2 d2] evs].
      cbn [fst snd] in *. rewrite (skippedBases_cons e b s) by lia.
      cbn [map flat_map findingEvents app]. rewrite IH1, IH2, F1, R1. split; reflexivity.
    + rewrite skippedBases_nil by lia. split; reflexivity.
Qed.

(** The findings of the callback's main part for one bundle. *)
Lemma checkBundle_findings (store : Store) (s : Z) (range : BlockRange) (st : ScanState)
    (filename : string) (b : Z) :
  0 < s < 2 ^ 32 -> 0 <= b < 2 ^ 32 -> 0 <= expected st ->
  exists st' evs r broken,
    checkBundle store s range st filename b = (st', evs, r) /\
    evs = flat_map (findingEvents (fault (destStore st)))
            (map MissingBundle (skippedBases (expected st) b s)
             ++ [CheckedBundle filename b broken]) /\
    fault (destStore st') = fault (destStore st) /\
    (r = None -> expected st' = b + s).
Proof.
  intros Hs Hb He.
  destruct (fst (checkMergedBlockFileBroken store filename (lastBlockHash st)))
    as [[br lh] er] eqn:C.
  destruct (checkBundle_spec store s range st filename b br lh er Hs Hb He C)
    as (st' & evs & r & E & _ & _ & F & _ & X & _).
  exists st', evs, r, br. split; [exact E|]. split; [|split; [exact F|exact X]].
  revert E. unfold checkBundle. rewrite (uint64_small s) by lia.
  destruct (fillMissing_events b s Hs (proj2 Hb) (missingRounds (expected st) b s)
              (expected st) (destStore st) He (missingRounds_enough _ _ _ (proj1 Hs)))
    as [P Q].
  destruct (fillMissing _ _ _ _ _) as [[e1 d1] evs1]. cbn [fst snd] in P, Q.
  assert (O : snd (checkMergedBlockFileBroken store filename (lastBlockHash st))
              = [Stdout ("checking " ++ filename)%string]).
  { unfold checkMergedBlockFileBroken. destruct (OpenObject store filename); reflexivity. }
  destruct (checkMergedBlockFileBroken store filename (lastBlockHash st))
    as [[[br' lh'] er'] evs2].
  cbn [fst snd] in C, O. inversion C; subst br' lh' er' evs2. clear C.
  rewrite flat_map_app, <- P. cbn [flat_map findingEvents]. rewrite app_nil_r.
  unfold recordBroken. destruct br.
  - destruct (WriteObject d1 (fmt010d b ++ ".broken") "") as [d2 res] eqn:W.
    pose proof (WriteObject_res _ _ _ _ _ W) as R2. rewrite Q in R2. subst res.
    destruct er as [e|]; [|destruct (stopReached s range b) as [[|]|]];
      intros E; inversion E; reflexivity.
  - destruct er as [e|]; [|destruct (stopReached s range b) as [[|]|]];
      intros E; inversion E; reflexivity.
Qed.

(** X3.  The events of a walk are, one after the other, those of a list
    of findings: one for each file that was checked, with its line and
    the marker if it is broken, and one for each bundle reported
    missing.  The base numbers of the findings rise strictly from the
    expected base number on: no base number gets two markers, none is
    reported both missing and broken, and the files that were checked
    are the first of the listing's names that are not passed over, in
    the listing's order. *)
Theorem X3_findings_rise_strictly
    (store : Store) (s : Z) (range : BlockRange) (lerr : option error) (files : list string)
    (st : ScanState) :
  0 < s < 2 ^ 32 -> 0 <= expected st ->
  exists (fs : list finding) (n : nat),
    snd (fst (walk (walkFn store s range) files lerr st))
      = flat_map (findingEvents (fault (destStore st))) fs /\
    increasingFrom (expected st) fs /\
    checkedFiles fs = firstn n (consideredFiles s range files).
Proof.
  intros Hs. revert st. induction files as [|f files IH]; intros st He.
  - exists [], 0%nat. cbn. auto.
  - cbn [walk consideredFiles].
    destruct (bundleBase f) as [b|] eqn:B.
    + destruct (beforeStart s range b) eqn:G.
      * assert (W : walkFn store s range st f = (st, [], None))
          by (unfold walkFn; rewrite B, G; reflexivity).
        rewrite W. destruct (IH st He) as (fs & n & M & I & C).
        destruct (walk (walkFn store s range) files lerr st) as [[st2 evs2] res2].
        exists fs, n. cbn [fst snd app] in *. auto.
      * destruct (Z.ltb_spec b (expected st)) as [L|L].
        -- rewrite (walkFn_below store s range st f b B L), G.
           exists [], 0%nat. cbn. auto.
        -- pose proof (bundleBase_bound _ _ B) as Hb.
           rewrite (walkFn_bundle store s range st f b B G L).
           destruct (checkBundle_findings store s range st f b Hs Hb He)
             as (st1 & evs1 & r & br & E & M & F & X).
           rewrite E. destruct r as [e|].
           ++ exists (map MissingBundle (skippedBases (expected st) b s)
                      ++ [CheckedBundle f b br]), 1%nat.
              split; [destruct (is_StopIteration e); exact M|]. split.
              ** apply (increasingFrom_skipped f b s br [] (proj1 Hs) I
                          (skippedCount (expected st) b s)); [reflexivity|lia|lia].
              ** rewrite checkedFiles_missing. reflexivity.
           ++ specialize (X eq_refl).
              destruct (IH st1 ltac:(lia)) as (fs & n & M' & I' & C').
              destruct (walk (walkFn store s range) files lerr st1) as [[st2 evs2] res2].
              cbn [fst snd] in *.
              exists (map MissingBundle (skippedBases (expected st) b s)
                      ++ CheckedBundle f b br :: fs), (S n).
              split; [|split].
              ** rewrite M, M', F.
                 rewrite !flat_map_app. cbn [flat_map]. rewrite app_nil_r, <- app_assoc.
                 reflexivity.
              ** assert (Hfs : increasingFrom (b + 1) fs)
                   by (apply (increasingFrom_le fs (expected st1)); [lia|exact I']).
                 apply (increasingFrom_skipped f b s br fs (proj1 Hs) Hfs
                          (skippedCount (expected st) b s)); [reflexivity|lia|lia].
              ** rewrite checkedFiles_missing. cbn [checkedFiles firstn].
                 rewrite C'. reflexivity.
    + assert (W : walkFn store s range st f = (st, [], None))
        by (unfold walkFn; rewrite B; reflexivity).
      rewrite W. destruct (IH st He) as (fs & n & M & I & C).
      destruct (walk (walkFn store s range) files lerr st) as [[st2 evs2] res2].
      exists fs, n. cbn [fst snd app] in *. auto.
Qed.

Lemma X3_findings_rise_strictly_witness :
  exists (fs : list finding) (n : nat),
    snd (fst (walk (walkFn gapStore 100 gapRange)
                ["0000000100"; "0000000300"] None
                {| expected := 100; lastBlockHash := ""; destStore := emptyDest |}))
      = flat_map (findingEvents (fun _ => None)) fs /\
    increasingFrom 100 fs /\
    checkedFiles fs = firstn n [("0000000100", 100); ("0000000300", 300)].
Proof.
  apply (X3_findings_rise_strictly gapStore 100 gapRange None ["0000000100"; "0000000300"]
           {| expected := 100; lastBlockHash := ""; destStore := emptyDest |}).
  - lia.
  - cbn [expected]. lia.
Defined.

(** *** What the destination store gains *)

Lemma succeeded_app (a b : list event) : succeeded (a ++ b) = succeeded a ++ succeeded b.
Proof.
  induction a as [|e a IH]; [reflexivity|].
  destruct e as [line|key [err|]]; cbn [succeeded app]; rewrite IH; reflexivity.
Qed.

Lemma accounts_nil (d : DestStore) : accounts d d [].
Proof. unfold accounts. cbn. rewrite app_nil_r. auto. Qed.

Lemma accounts_app (d1 d2 d3 : DestStore) (a b : list event) :
  accounts d1 d2 a -> accounts d2 d3 b -> accounts d1 d3 (a ++ b).
Proof.
  intros (F1 & O1 & R1) (F2 & O2 & R2). split; [congruence|]. split.
  - rewrite O2, O1, succeeded_app, map_app, app_assoc. reflexivity.
  - apply Forall_app. split; [exact R1|].
    rewrite F1 in R2. exact R2.
Qed.

Lemma accounts_stdout (d : DestStore) (line : string) : accounts d d [Stdout line].
Proof. unfold accounts. cbn. rewrite app_nil_r. auto. Qed.

Lemma accounts_write (d d' : DestStore) (key : string) (res : option error) :
  WriteObject d key "" = (d', res) -> accounts d d' [DestWrite key res].
Proof.
  unfold WriteObject, accounts. destruct (fault d key) as [e|] eqn:F; intros H; inversion H;
    subst; cbn [fault objects succeeded map].
  - rewrite app_nil_r. repeat split. constructor; [symmetry; exact F|constructor].
  - repeat split. constructor; [symmetry; exact F|constructor].
Qed.

Lemma fillMissing_accounts (b s : Z) : forall (fuel : nat) (e : Z) (d : DestStore),
  accounts d (snd (fst (fillMissing fuel e b s d))) (snd (fillMissing fuel e b s d)).
Proof.
  induction fuel as [|fuel IH]; intros e d; cbn [fillMissing]; [apply accounts_nil|].
  destruct (e <? b); [|apply accounts_nil].
  destruct (WriteObject d (fmt010d e ++ ".missing") "") as [d1 res] eqn:W.
  specialize (IH (uint64 (e + s)) d1).
  destruct (fillMissing fuel (uint64 (e + s)) b s d1) as [[e2 d2] evs].
  cbn [fst snd] in *.
  apply (accounts_app d d d2 [Stdout _] (DestWrite _ res :: evs)); [apply accounts_stdout|].
  apply (accounts_app d d1 d2 [DestWrite _ res] evs); [|exact IH].
  apply accounts_write. exact W.
Qed.

Lemma checkBundle_accounts (store : Store) (s : Z) (range : BlockRange) (st : ScanState)
    (filename : string) (b : Z) :
  accounts (destStore st)
           (destStore (fst (fst (checkBundle store s range st filename b))))
           (snd (fst (checkBundle store s range st filename b))).
Proof.
  unfold checkBundle.
  pose proof (fillMissing_accounts b (uint64 s) (missingRounds (expected st) b (uint64 s))
                (expected st) (destStore st)) as A1.
  destruct (fillMissing _ _ _ _ (destStore st)) as [[e1 d1] evs1]. cbn [fst snd] in A1.
  assert (A2 : accounts d1 d1 (snd (checkMergedBlockFileBroken store filename (lastBlockHash st)))).
  { unfold checkMergedBlockFileBroken.
    destruct (OpenObject store filename); apply accounts_stdout. }
  destruct (checkMergedBlockFileBroken store filename (lastBlockHash st))
    as [[[br lh] er] evs2]. cbn [snd] in A2.
  assert (A3 : accounts d1 (snd (fst (recordBroken d1 b br lh))) (snd (recordBroken d1 b br lh))).
  { unfold recordBroken. destruct br; [|apply accounts_nil].
    destruct (WriteObject d1 (fmt010d b ++ ".broken") "") as [d2 res] eqn:W. cbn [fst snd].
    apply (accounts_app d1 d1 d2 [Stdout _] [DestWrite _ res]); [apply accounts_stdout|].
    apply accounts_write. exact W. }
  destruct (recordBroken d1 b br lh) as [[lh2 d2] evs3]. cbn [fst snd] in A3.
  assert (A : accounts (destStore st) d2 (evs1 ++ evs2 ++ evs3)).
  { apply (accounts_app _ d1 _ evs1); [exact A1|].
    apply (accounts_app _ d1 _ evs2); assumption. }
  destruct er; [|destruct (stopReached s range b) as [[|]|]]; cbn [fst snd destStore]; exact A.
Qed.

Lemma walkFn_accounts (store : Store) (s : Z) (range : BlockRange) (st : ScanState)
    (filename : string) :
  accounts (destStore st)
           (destStore (fst (fst (walkFn store s range st filename))))
           (snd (fst (walkFn store s range st filename))).
Proof.
  unfold walkFn. destruct (bundleBase filename) as [b|]; [|apply accounts_nil].
  destruct (beforeStart s range b); [apply accounts_nil|].
  destruct (b <? expected st); [apply accounts_nil|].
  apply checkBundle_accounts.
Qed.

Lemma walk_accounts (store : Store) (s : Z) (range : BlockRange) (lerr : option error)
    (files : list string) : forall st : ScanState,
  accounts (destStore st)
           (destStore (fst (fst (walk (walkFn store s range) files lerr st))))
           (snd (fst (walk (walkFn store s range) files lerr st))).
Proof.
  induction files as [|f files IH]; intros st; cbn [walk]; [apply accounts_nil|].
  pose proof (walkFn_accounts store s range st f) as A.
  destruct (walkFn store s range st f) as [[st1 evs1] res]. cbn [fst snd] in A.
  destruct res as [e|].
  - destruct (is_StopIteration e); exact A.
  - specialize (IH st1).
    destruct (walk (walkFn store s range) files lerr st1) as [[st2 evs2] res2].
    cbn [fst snd] in *. apply (accounts_app _ (destStore st1)); assumption.
Qed.

Lemma succeeded_all (d : DestStore) (evs : list event) :
  (forall key, fault d key = None) ->
  Forall (fun ev => match ev with
                    | DestWrite key res => res = fault d key
                    | Stdout _ => True
                    end) evs ->
  succeeded evs = markers evs.
Proof.
  intros Hd. induction 1 as [|ev evs Hev Hall IH]; [reflexivity|].
  destruct ev as [line|key res]; cbn [succeeded markers]; [exact IH|].
  rewrite Hd in Hev. subst res. rewrite IH. reflexivity.
Qed.

(** X4.  Once the range is resolved and the bundle size is not zero, the
    destination store ends as it began plus one empty object for each
    marker write that succeeded, in the order of the writes; each write
    has the result the store gives for its key, and with a store that
    takes every write the objects gained are those of all markers. *)
Theorem X4_destination_gains_empty_markers
    (store : Store) (dest : DestStore) (s : Z) (range : BlockRange) :
  IsResolved range = true -> s <> 0 ->
  let run := CheckMergedBlocksBatch (inr store) (inr dest) s range in
  written run = objects dest ++ map (fun key => (key, "")) (succeeded (trace run)) /\
  Forall (fun ev => match ev with
                    | DestWrite key res => res = fault dest key
                    | Stdout _ => True
                    end) (trace run) /\
  ((forall key, fault dest key = None) ->
   written run = objects dest ++ map (fun key => (key, "")) (markers (trace run))).
Proof.
  intros R Hs run. subst run. unfold CheckMergedBlocksBatch. rewrite R. cbn [negb].
  unfold startBundle, RoundToBundleStartBlock.
  destruct (Z.eqb_spec s 0) as [E|_]; [contradiction|].
  destruct (WalkFrom store _) as [files lerr].
  pose proof (walk_accounts store s range lerr files
                {| expected := uint64 (uint32 (uint32 (Start range) - uint32 (Start range) mod s));
                   lastBlockHash := ""; destStore := dest |}) as (F & O & Rs).
  destruct (walk _ files lerr _) as [[st evs] res]. cbn [fst snd destStore written trace] in *.
  split; [exact O|]. split; [exact Rs|].
  intros Hd. rewrite O, (succeeded_all dest evs Hd Rs). reflexivity.
Qed.

Lemma X4_destination_gains_empty_markers_witness :
  written (CheckMergedBlocksBatch (inr gapStore) (inr emptyDest) 100 gapRange)
  = [("0000000200.missing", ""); ("0000000300.broken", "")].
Proof.
  destruct (X4_destination_gains_empty_markers gapStore emptyDest 100 gapRange)
    as (_ & _ & H).
  - reflexivity.
  - lia.
  - rewrite H by reflexivity. vm_compute. reflexivity.
Defined.

(** *** The end of a closed range *)

Lemma stopReached_exact (s : Z) (range : BlockRange) (b stop : Z) :
  0 < s < 2 ^ 32 -> 0 <= b < 2 ^ 32 -> Stop range = Some stop -> 1 <= stop <= 2 ^ 32 ->
  b - b mod s + (s - 1) < 2 ^ 32 ->
  stopReached s range b = Some (stop - 1 <=? b - b mod s + (s - 1)).
Proof.
  intros Hs Hb St Hstop Hend. unfold stopReached, RoundToBundleEndBlock. rewrite St.
  destruct (Z.eqb_spec s 0); [lia|].
  pose proof (Z.mod_pos_bound b s ltac:(lia)).
  pose proof (Z.mod_le b s ltac:(lia) ltac:(lia)).
  rewrite (uint32_small b) by lia.
  rewrite (uint64_small (stop - 1)), (uint32_small (stop - 1)) by lia.
  rewrite uint32_small by lia. reflexivity.
Qed.

(** X5.  For a closed range with numbers that fit 32 bits, the callback
    ends the walk after a bundle it checked without an error exactly
    when the last block number of the bundle is stop-1 or more; the walk
    then returns nil with the events of that bundle, whatever names
    follow in the listing and whatever error the listing would end
    with. *)
Theorem X5_walk_ends_at_closing_bundle
    (store : Store) (s : Z) (range : BlockRange) (st : ScanState) (filename : string)
    (b stop : Z) (rest : list string) (lerr : option error) :
  0 < s < 2 ^ 32 ->
  bundleBase filename = Some b -> beforeStart s range b = false ->
  0 <= expected st <= b ->
  Stop range = Some stop -> 1 <= stop <= 2 ^ 32 ->
  b - b mod s + (s - 1) < 2 ^ 32 ->
  snd (fst (checkMergedBlockFileBroken store filename (lastBlockHash st))) = None ->
  snd (walkFn store s range st filename)
    = (if stop - 1 <=? b - b mod s + (s - 1) then Some StopIteration else None) /\
  (stop - 1 <= b - b mod s + (s - 1) ->
   walk (walkFn store s range) (filename :: rest) lerr st
     = (fst (walkFn store s range st filename), None)).
Proof.
  intros Hs B G He St Hstop Hend Herr.
  pose proof (bundleBase_bound _ _ B) as Hb.
  destruct (fst (checkMergedBlockFileBroken store filename (lastBlockHash st)))
    as [[br lh] er] eqn:C.
  cbn [snd] in Herr. subst er.
  destruct (checkBundle_spec store s range st filename b br lh None Hs Hb ltac:(lia) C)
    as (st' & evs & r & E & _ & _ & _ & Rr & _).
  rewrite (stopReached_exact s range b stop Hs Hb St Hstop Hend) in Rr.
  assert (W : walkFn store s range st filename = (st', evs, r))
    by (rewrite (walkFn_bundle store s range st filename b B G) by lia; exact E).
  split.
  - rewrite W. cbn [snd]. rewrite Rr.
    destruct (stop - 1 <=? b - b mod s + (s - 1)); reflexivity.
  - intros L. cbn [walk]. rewrite W. cbn [fst].
    apply Z.leb_le in L. rewrite L in Rr. subst r. reflexivity.
Qed.

Lemma X5_walk_ends_at_closing_bundle_witness :
  snd (walk (walkFn cleanStore 100 cleanRange) ["0000000300"; "0000000400"]
         (Some (ErrExternal "listing failed"))
         {| expected := 300; lastBlockHash := ""; destStore := emptyDest |}) = None.
Proof.
  destruct (X5_walk_ends_at_closing_bundle cleanStore 100 cleanRange
              {| expected := 300; lastBlockHash := ""; destStore := emptyDest |}
              "0000000300" 300 350 ["0000000400"] (Some (ErrExternal "listing failed")))
    as [_ H].
  - lia.
  - vm_compute. reflexivity.
  - vm_compute. reflexivity.
  - cbn [expected]. lia.
  - reflexivity.
  - lia.
  - vm_compute. reflexivity.
  - vm_compute. reflexivity.
  - rewrite H; [reflexivity|]. vm_compute. discriminate.
Defined.

(** *** No bundle of the grid is left out *)

Lemma grid_shift (e s : Z) (n m k : nat) :
  map (fun i => e + Z.of_nat i * s) (seq (n + k) m)
  = map (fun i => e + Z.of_nat n * s + Z.of_nat i * s) (seq k m).
Proof.
  revert k. induction m as [|m IH]; intros k; [reflexivity|].
  cbn [seq map]. f_equal; [lia|].
  rewrite <- Nat.add_succ_r. apply IH.
Qed.

Lemma grid_app (e s : Z) (n m : nat) :
  grid e s (n + m) = grid e s n ++ grid (e + Z.of_nat n * s) s m.
Proof.
  unfold grid. rewrite seq_app, map_app. f_equal.
  rewrite <- (grid_shift e s n m 0). f_equal. f_equal. lia.
Qed.

Lemma findingBase_missing (l : list Z) : map findingBase (map MissingBundle l) = l.
Proof. induction l as [|x l IH]; [reflexivity|]. cbn. rewrite IH. reflexivity. Qed.

(** X15.  When the base numbers of the names that are not passed over
    lie on the grid of the bundle size from the expected base number,
    the findings of a walk, whose events are all the events of it, have
    exactly the base numbers expected,
    expected+fileBlockSize, ... without a hole: every bundle of the grid
    up to the last file checked is either checked or reported
    missing. *)
Theorem X15_every_grid_bundle_is_accounted_for
    (store : Store) (s : Z) (range : BlockRange) (lerr : option error) (files : list string)
    (st : ScanState) :
  0 < s < 2 ^ 32 -> 0 <= expected st ->
  Forall (fun entry => (s | snd entry - expected st)) (consideredFiles s range files) ->
  exists (fs : list finding) (n : nat),
    snd (fst (walk (walkFn store s range) files lerr st))
      = flat_map (findingEvents (fault (destStore st))) fs /\
    map findingBase fs = grid (expected st) s (List.length fs) /\
    checkedFiles fs = firstn n (consideredFiles s range files).
Proof.
  intros Hs. revert st. induction files as [|f files IH]; intros st He Hal.
  - exists [], 0%nat. cbn. auto.
  - cbn [walk consideredFiles] in *.
    destruct (bundleBase f) as [b|] eqn:B.
    + destruct (beforeStart s range b) eqn:G.
      * assert (W : walkFn store s range st f = (st, [], None))
          by (unfold walkFn; rewrite B, G; reflexivity).
        rewrite W. destruct (IH st He Hal) as (fs & n & M & I & C).
        destruct (walk (walkFn store s range) files lerr st) as [[st2 evs2] res2].
        exists fs, n. cbn [fst snd app] in *. auto.
      * inversion Hal as [|x l Hb0 Hrest]; subst x l. cbn [snd] in Hb0.
        destruct (Z.ltb_spec b (expected st)) as [L|L].
        -- rewrite (walkFn_below store s range st f b B L), G.
           exists [], 0%nat. cbn. auto.
        -- pose proof (bundleBase_bound _ _ B) as Hb.
           rewrite (walkFn_bundle store s range st f b B G L).
           destruct (checkBundle_findings store s range st f b Hs Hb He)
             as (st1 & evs1 & r & br & E & M & Ft & X).
           rewrite E.
           assert (Ex : expected st + Z.of_nat (skippedCount (expected st) b s) * s = b).
           { apply skippedCount_exact; [lia|lia|].
             apply Z.mod_divide; [lia|exact Hb0]. }
           assert (Gr : map findingBase
                          (map MissingBundle (skippedBases (expected st) b s)
                           ++ [CheckedBundle f b br])
                        = grid (expected st) s (skippedCount (expected st) b s + 1)).
           { rewrite map_app, findingBase_missing, grid_app. cbn [map findingBase].
             unfold grid at 2. cbn [seq map]. rewrite Ex. f_equal. f_equal. lia. }
           assert (LF : List.length
                          (map MissingBundle (skippedBases (expected st) b s)
                           ++ [CheckedBundle f b br])
                        = (skippedCount (expected st) b s + 1)%nat).
           { rewrite length_app, length_map. unfold skippedBases.
             rewrite length_map, length_seq. reflexivity. }
           set (F := map MissingBundle (skippedBases (expected st) b s)
                     ++ [CheckedBundle f b br]) in *.
           destruct r as [e|].
           ++ exists F, 1%nat.
              split; [destruct (is_StopIteration e); exact M|]. split.
              ** rewrite Gr, LF. reflexivity.
              ** unfold F. rewrite checkedFiles_missing. reflexivity.
           ++ specialize (X eq_refl).
              destruct (IH st1) as (fs & n & M' & I' & C').
              { lia. }
              { rewrite X. apply Forall_forall. intros entry Hin.
                rewrite Forall_forall in Hrest. specialize (Hrest entry Hin).
                destruct Hrest as [k1 K1]. destruct Hb0 as [k0 K0].
                exists (k1 - k0 - 1). lia. }
              destruct (walk (walkFn store s range) files lerr st1) as [[st2 evs2] res2].
              cbn [fst snd] in *.
              exists (F ++ fs), (S n).
              split; [|split].
              ** rewrite M, M', Ft. symmetry. apply flat_map_app.
              ** rewrite map_app, Gr, I', length_app, LF.
                 rewrite (grid_app (expected st) s
                            (skippedCount (expected st) b s + 1) (List.length fs)).
                 f_equal. f_equal. rewrite X. lia.
              ** unfold F. rewrite <- app_assoc, checkedFiles_missing.
                 cbn [app checkedFiles firstn]. rewrite C'. reflexivity.
    + assert (W : walkFn store s range st f = (st, [], None))
        by (unfold walkFn; rewrite B; reflexivity).
      rewrite W. destruct (IH st He Hal) as (fs & n & M & I & C).
      destruct (walk (walkFn store s range) files lerr st) as [[st2 evs2] res2].
      exists fs, n. cbn [fst snd app] in *. auto.
Qed.

Lemma X15_every_grid_bundle_is_accounted_for_witness :
  exists (fs : list finding) (n : nat),
    snd (fst (walk (walkFn gapStore 100 gapRange)
                ["0000000100"; "0000000300"] None
                {| expected := 100; lastBlockHash := ""; destStore := emptyDest |}))
      = flat_map (findingEvents (fun _ => None)) fs /\
    map findingBase fs = grid 100 100 (List.length fs) /\
    checkedFiles fs = firstn n [("0000000100", 100); ("0000000300", 300)].
Proof.
  apply (X15_every_grid_bundle_is_accounted_for gapStore 100 gapRange None
           ["0000000100"; "0000000300"]
           {| expected := 100; lastBlockHash := ""; destStore := emptyDest |}).
  - lia.
  - cbn [expected]. lia.
  - vm_compute. repeat constructor; [exists 0|exists 2]; reflexivity.
Defined.

End ToolsExtras.

(** ** The downloader: further properties *)

Module FirehoseExtras.
Import Firehose FirehoseSpec FirehoseExamples FirehoseClaims FirehoseReport
  FirehoseMoreExamples.

Lemma writerInput_app (a b : list event) : writerInput (a ++ b) = writerInput a ++ writerInput b.
Proof.
  induction a as [|e a IH]; [reflexivity|].
  destruct e; cbn [writerInput app]; rewrite ?IH; reflexivity.
Qed.

Lemma linkedFrom_app (a b : list Block) : forall lastId : string,
  linkedFrom lastId (a ++ b) <-> linkedFrom lastId a /\ linkedFrom (idAfter lastId a) b.
Proof.
  induction a as [|x a IH]; intros lastId; cbn [app linkedFrom idAfter]; [tauto|].
  rewrite IH. tauto.
Qed.

Lemma idAfter_app (a b : list Block) : forall lastId : string,
  idAfter lastId (a ++ b) = idAfter (idAfter lastId a) b.
Proof. induction a as [|x a IH]; intros lastId; [reflexivity|]. apply IH. Qed.

Lemma numAfter_app (a b : list Block) : forall lastNum : Z,
  numAfter lastNum (a ++ b) = numAfter (numAfter lastNum a) b.
Proof. induction a as [|x a IH]; intros lastNum; [reflexivity|]. apply IH. Qed.

Section Runs.

Context {B : Type}.
Variable chain : Chain B.
Variable firehoseClient : Client.
Variable requestInfo : RequestInfo.
Variable mergeWriter : Writer.
Variable blockRange : BlockRange.

Lemma tracks_nil (st : Session) : tracks st [] st.
Proof. unfold tracks. cbn. rewrite app_nil_r. auto. Qed.

Lemma tracks_app (st1 st2 st3 : Session) (a b : list event) :
  tracks st1 a st2 -> tracks st2 b st3 -> tracks st1 (a ++ b) st3.
Proof.
  intros (L1 & P1 & I1 & N1) (L2 & P2 & I2 & N2). unfold tracks.
  rewrite writerInput_app, idAfter_app, numAfter_app, linkedFrom_app.
  rewrite <- I1, <- N1. repeat split; try assumption.
  rewrite P2, P1, app_assoc. reflexivity.
Qed.

Lemma tracks_silent (st : Session) (evs : list event) :
  writerInput evs = [] -> tracks st evs st.
Proof. intros H. unfold tracks. rewrite H. cbn. rewrite app_nil_r. auto. Qed.

Lemma toBlock_tracks (st : Session) (response : Response) :
  tracks st (snd (fst (toBlock chain st response))) (fst (fst (toBlock chain st response))).
Proof.
  pose proof (toBlock_session chain st response) as (S1 & S2 & S3).
  pose proof (toBlock_no_write chain st response) as Nw.
  unfold tracks. rewrite Nw, S1, S2, S3. cbn. rewrite app_nil_r. auto.
Qed.

Lemma acceptBlock_tracks (st : Session) (blk : Block) :
  tracks st (snd (fst (acceptBlock mergeWriter st blk))) (fst (fst (acceptBlock mergeWriter st blk))).
Proof.
  unfold acceptBlock.
  destruct (String.eqb_spec (lastBlockID st) "") as [E|E]; cbn [negb andb].
  - destruct (mergeWriter (processed st) blk); cbn [fst snd]; unfold tracks;
      cbn [writerInput linkedFrom idAfter numAfter processed lastBlockID lastBlockNum]; auto.
  - destruct (String.eqb_spec (ParentId blk) (lastBlockID st)) as [P|P]; cbn [negb].
    + destruct (mergeWriter (processed st) blk); cbn [fst snd]; unfold tracks;
        cbn [writerInput linkedFrom idAfter numAfter processed lastBlockID lastBlockNum]; auto.
    + apply tracks_nil.
Qed.

Lemma handleResponse_tracks (st : Session) (response : Response) :
  tracks st (snd (fst (handleResponse chain mergeWriter st response)))
         (fst (fst (handleResponse chain mergeWriter st response))).
Proof.
  unfold handleResponse. pose proof (toBlock_tracks st response) as T.
  destruct (toBlock chain st response) as [[st1 evs1] [e|blk]]; cbn [fst snd] in *; [exact T|].
  pose proof (acceptBlock_tracks st1 blk) as A.
  destruct (acceptBlock mergeWriter st1 blk) as [[st2 evs2] res]. cbn [fst snd] in *.
  apply (tracks_app st st1 st2); assumption.
Qed.

Lemma recvLoop_tracks (ending : error) (rs : list Response) : forall st : Session,
  tracks st (snd (fst (recvLoop chain mergeWriter rs ending st)))
         (fst (fst (recvLoop chain mergeWriter rs ending st))).
Proof.
  induction rs as [|response rs IH]; intros st; cbn [recvLoop].
  - destruct (is_EOF ending); cbn [fst snd]; apply tracks_silent; reflexivity.
  - pose proof (handleResponse_tracks st response) as H.
    destruct (handleResponse chain mergeWriter st response) as [[st1 evs1] res].
    cbn [fst snd] in H. destruct res as [e|]; [exact H|].
    specialize (IH st1).
    destruct (recvLoop chain mergeWriter rs ending st1) as [[st2 evs2] ex].
    cbn [fst snd] in *. apply (tracks_app st st1 st2); assumption.
Qed.

Lemma downloadLoop_tracks (fuel : nat) : forall (attempt : nat) (st : Session),
  tracks st
    (snd (fst (downloadLoop chain firehoseClient requestInfo mergeWriter blockRange
                 fuel attempt st)))
    (fst (fst (downloadLoop chain firehoseClient requestInfo mergeWriter blockRange
                 fuel attempt st))).
Proof.
  induction fuel as [|fuel IH]; intros attempt st; cbn [downloadLoop]; [apply tracks_nil|].
  destruct (firehoseClient attempt (mkRequest requestInfo blockRange)) as [e|stream].
  - cbn [fst snd]. apply tracks_silent. reflexivity.
  - pose proof (recvLoop_tracks (ending stream) (responses stream) st) as R.
    destruct (recvLoop chain mergeWriter (responses stream) (ending stream) st)
      as [[st1 evs1] ex].
    cbn [fst snd] in R.
    assert (R' : tracks st (CallBlocks (mkRequest requestInfo blockRange) :: evs1) st1).
    { apply (tracks_app st st st1 [CallBlocks _] evs1); [apply tracks_silent; reflexivity|exact R]. }
    destruct ex as [res|]; [exact R'|].
    specialize (IH (S attempt) st1).
    destruct (downloadLoop chain firehoseClient requestInfo mergeWriter blockRange
                fuel (S attempt) st1) as [[st2 evs2] out].
    cbn [fst snd] in *. apply (tracks_app st st1 st2); assumption.
Qed.

(** The errors the command returns, and when it returns nil. *)
Lemma toBlock_terminal (st : Session) (response : Response) (e : error) :
  snd (toBlock chain st response) = inl e -> terminalError e = true.
Proof.
  unfold toBlock. destruct (Metadata response) as [meta|].
  - destruct (CursorFromOpaque chain (RespCursor response)) as [e1|[id num]]; cbn [snd];
      intros H; inversion H; reflexivity.
  - destruct (negb (fallbackBlockTypeChecked st) && BlockFactoryIsPbbstream chain);
      [cbn [snd]; intros H; inversion H; reflexivity|].
    destruct (UnmarshalTo chain (RespBlock response)) as [e1|block];
      [cbn [snd]; intros H; inversion H; reflexivity|].
    destruct (Encode chain (wrapBlock chain block)); cbn [snd]; intros H; inversion H;
      reflexivity.
Qed.

Lemma handleResponse_terminal (st : Session) (response : Response) (e : error) :
  snd (handleResponse chain mergeWriter st response) = Some e -> terminalError e = true.
Proof.
  unfold handleResponse. pose proof (toBlock_terminal st response) as T.
  destruct (toBlock chain st response) as [[st1 evs1] [e1|blk]]; cbn [snd] in *.
  - intros H. inversion H. subst. apply T. reflexivity.
  - unfold acceptBlock.
    destruct (negb (String.eqb (lastBlockID st1) "") && _);
      [cbn; intros H; inversion H; reflexivity|].
    destruct (mergeWriter (processed st1) blk); cbn; intros H; inversion H; reflexivity.
Qed.

Lemma recvLoop_return (ending : error) (rs : list Response) : forall (st : Session),
  match snd (recvLoop chain mergeWriter rs ending st) with
  | Return (Some e) => terminalError e = true
  | Return None => is_EOF ending = true
  | Break => is_EOF ending = false
  end.
Proof.
  induction rs as [|response rs IH]; intros st; cbn [recvLoop].
  - destruct (is_EOF ending) eqn:E; cbn [snd]; auto.
  - pose proof (handleResponse_terminal st response) as H.
    destruct (handleResponse chain mergeWriter st response) as [[st1 evs1] res].
    cbn [snd] in H. destruct res as [e|]; [cbn [snd]; apply H; reflexivity|].
    specialize (IH st1).
    destruct (recvLoop chain mergeWriter rs ending st1) as [[st2 evs2] ex]. exact IH.
Qed.

(** Responses that are all handled and a receive error that is not the
    end of the stream: the inner loop is left by its [break]. *)
Lemma recvLoop_break (ending : error) (rs : list Response) : forall st : Session,
  handled chain mergeWriter st rs -> is_EOF ending = false ->
  snd (recvLoop chain mergeWriter rs ending st) = Break.
Proof.
  induction rs as [|response rs IH]; intros st H E; cbn [recvLoop].
  - rewrite E. reflexivity.
  - destruct H as [H1 H2].
    destruct (handleResponse chain mergeWriter st response) as [[st1 evs1] res].
    cbn [fst snd] in *. subst res. specialize (IH st1 H2 E).
    destruct (recvLoop chain mergeWriter rs ending st1) as [[st2 evs2] ex]. exact IH.
Qed.

End Runs.

(** X6.  Whatever the server sends and however often the stream breaks,
    the blocks the command gives to the writer link: each names as its
    parent the block given before it (a block after one with an empty id
    apart).  They are the session's processed blocks, and the session's
    last block id is the id of the last of them. *)
Theorem X6_writer_input_is_linked {B : Type}
    (chain : Chain B) (firehoseClient : Client) (requestInfo : RequestInfo)
    (mergeWriter : Writer) (blockRange : BlockRange) (fuel : nat) :
  let run := downloadFromFirehose chain firehoseClient requestInfo mergeWriter blockRange fuel in
  linkedFrom "" (writerInput (snd (fst run))) /\
  processed (fst (fst run)) = writerInput (snd (fst run)) /\
  lastBlockID (fst (fst run)) = idAfter "" (writerInput (snd (fst run))).
Proof.
  intros run. subst run. unfold downloadFromFirehose.
  destruct (downloadLoop_tracks chain firehoseClient requestInfo mergeWriter blockRange
              fuel 0%nat initialSession) as (L & P & I & _).
  cbn [initialSession lastBlockID processed app] in *. auto.
Qed.

(** X7.  An error the command returns is one it made or wrapped itself
    (the call of [Blocks], the block type, the decoding, the cursor, the
    sequence of blocks, the writer), never the bare error of a receive;
    and it returns nil only when a stream it opened ended with
    [io.EOF]. *)
Theorem X7_what_the_command_returns {B : Type}
    (chain : Chain B) (firehoseClient : Client) (requestInfo : RequestInfo)
    (mergeWriter : Writer) (blockRange : BlockRange) (fuel attempt : nat) (st : Session) :
  match snd (downloadLoop chain firehoseClient requestInfo mergeWriter blockRange
               fuel attempt st) with
  | Returned (Some e) => terminalError e = true
  | Returned None =>
      exists (n : nat) (stream : Stream),
        (attempt <= n < attempt + fuel)%nat /\
        firehoseClient n (mkRequest requestInfo blockRange) = inr stream /\
        ending stream = io_EOF
  | StillRunning => True
  end.
Proof.
  revert attempt st. induction fuel as [|fuel IH]; intros attempt st; cbn [downloadLoop];
    [exact I|].
  destruct (firehoseClient attempt (mkRequest requestInfo blockRange)) as [e|stream] eqn:C.
  - reflexivity.
  - pose proof (recvLoop_return chain mergeWriter (ending stream) (responses stream) st) as R.
    destruct (recvLoop chain mergeWriter (responses stream) (ending stream) st)
      as [[st1 evs1] ex].
    cbn [snd] in R. destruct ex as [[e|]|].
    + exact R.
    + cbn [snd]. exists attempt, stream. split; [lia|]. split; [exact C|].
      destruct (ending stream); try discriminate R. reflexivity.
    + specialize (IH (S attempt) st1).
      destruct (downloadLoop chain firehoseClient requestInfo mergeWriter blockRange
                  fuel (S attempt) st1) as [[st2 evs2] out].
      cbn [snd] in *. destruct out as [[e|]|]; try exact IH.
      destruct IH as (n & str & Hn & Hc & He). exists n, str. split; [lia|]. auto.
Qed.

Lemma sleeps_app (a b : list event) : sleeps (a ++ b) = sleeps a ++ sleeps b.
Proof.
  induction a as [|e a IH]; [reflexivity|].
  destruct e; cbn [sleeps app]; rewrite ?IH; reflexivity.
Qed.

Lemma requests_app (a b : list event) : requests (a ++ b) = requests a ++ requests b.
Proof.
  induction a as [|e a IH]; [reflexivity|].
  destruct e; cbn [requests app]; rewrite ?IH; reflexivity.
Qed.

(** *** Streams that break *)

Lemma writerInput_processed (blks : list Block) :
  writerInput (map (fun b => ProcessBlock b None) blks) = blks.
Proof. induction blks as [|b blks IH]; [reflexivity|]. cbn. rewrite IH. reflexivity. Qed.

Lemma sleeps_processed (blks : list Block) :
  sleeps (map (fun b => ProcessBlock b None) blks) = [].
Proof. induction blks as [|b blks IH]; [reflexivity|]. exact IH. Qed.

Lemma requests_processed (blks : list Block) :
  requests (map (fun b => ProcessBlock b None) blks) = [].
Proof. induction blks as [|b blks IH]; [reflexivity|]. exact IH. Qed.

Lemma toBlock_meta {B : Type} (chain : Chain B) (st : Session) (response : Response)
    (blk : Block) :
  metaBlock chain response = Some blk -> toBlock chain st response = (st, [], inr blk).
Proof.
  unfold metaBlock, toBlock. destruct (Metadata response) as [meta|]; [|discriminate].
  destruct (CursorFromOpaque chain (RespCursor response)) as [e|[id num]]; [discriminate|].
  intros H. inversion H. reflexivity.
Qed.

(** A stream that gives blocks that link and then breaks. *)
Lemma recvLoop_served_break {B : Type} (chain : Chain B) (mergeWriter : Writer)
    (ending : error) (rs : list Response) : forall (blks : list Block) (st : Session),
  is_EOF ending = false ->
  map (metaBlock chain) rs = map Some blks ->
  linkedFrom (lastBlockID st) blks ->
  (forall hist b, In b blks -> mergeWriter hist b = None) ->
  recvLoop chain mergeWriter rs ending st
  = ({| approximateLIBWarningIssued := approximateLIBWarningIssued st;
        fallbackBlockTypeChecked := fallbackBlockTypeChecked st;
        lastBlockID := idAfter (lastBlockID st) blks;
        lastBlockNum := numAfter (lastBlockNum st) blks;
        processed := processed st ++ blks |},
     map (fun b => ProcessBlock b None) blks ++ [LogError ending retryDelay; Sleep retryDelay],
     Break).
Proof.
  induction rs as [|response rs IH]; intros blks st E M L W.
  - destruct blks; [|discriminate]. cbn [recvLoop]. rewrite E. cbn.
    rewrite app_nil_r. destruct st; reflexivity.
  - destruct blks as [|b blks]; [discriminate|]. cbn [map] in M. inversion M as [[Mb Mr]].
    destruct L as [Lb Lr]. cbn [recvLoop]. unfold handleResponse.
    rewrite (toBlock_meta chain st response b Mb). unfold acceptBlock.
    assert (G : negb (String.eqb (lastBlockID st) "")
                && negb (String.eqb (ParentId b) (lastBlockID st)) = false).
    { destruct Lb as [X|X]; rewrite X, String.eqb_refl; [reflexivity|apply andb_false_r]. }
    rewrite G, (W (processed st) b (or_introl eq_refl)). cbn [app].
    rewrite (IH blks
               {| approximateLIBWarningIssued := approximateLIBWarningIssued st;
                  fallbackBlockTypeChecked := fallbackBlockTypeChecked st;
                  lastBlockID := Id b;
                  lastBlockNum := Number b;
                  processed := processed st ++ [b] |}
               E Mr Lr (fun hist x Hx => W hist x (or_intror Hx))).
    cbn [approximateLIBWarningIssued fallbackBlockTypeChecked lastBlockID lastBlockNum
         processed idAfter numAfter map app].
    rewrite <- app_assoc. reflexivity.
Qed.

(** X8.  There is no bound on the retries.  When every stream breaks
    with an error that is not the end of the stream, after giving
    blocks, none or some, that link on from the blocks of the streams
    before and that the writer takes, the command is still in its loop
    after any number of calls of [Blocks]: each call is made with the
    same request and followed by one wait of [retryDelay], and the
    writer has been given the blocks of all the streams, in order. *)
Theorem X8_retries_without_bound {B : Type}
    (chain : Chain B) (firehoseClient : Client) (requestInfo : RequestInfo)
    (mergeWriter : Writer) (blockRange : BlockRange) (fuel attempt : nat) (st : Session)
    (streams : nat -> Stream) (blks : nat -> list Block) :
  (forall n : nat, (attempt <= n < attempt + fuel)%nat ->
     firehoseClient n (mkRequest requestInfo blockRange) = inr (streams n) /\
     is_EOF (ending (streams n)) = false /\
     map (metaBlock chain) (responses (streams n)) = map Some (blks n)) ->
  linkedFrom (lastBlockID st) (List.concat (map blks (seq attempt fuel))) ->
  (forall hist b, mergeWriter hist b = None) ->
  let run := downloadLoop chain firehoseClient requestInfo mergeWriter blockRange
               fuel attempt st in
  snd run = StillRunning /\
  sleeps (snd (fst run)) = repeat retryDelay fuel /\
  requests (snd (fst run)) = repeat (mkRequest requestInfo blockRange) fuel /\
  writerInput (snd (fst run)) = List.concat (map blks (seq attempt fuel)).
Proof.
  intros H L W. cbv zeta. revert attempt st H L.
  induction fuel as [|fuel IH]; intros attempt st H L; cbn [downloadLoop]; [cbn; auto|].
  destruct (H attempt ltac:(lia)) as (C & E & M). rewrite C.
  cbn [seq map List.concat] in L. apply linkedFrom_app in L. destruct L as [L1 L2].
  rewrite (recvLoop_served_break chain mergeWriter (ending (streams attempt))
             (responses (streams attempt)) (blks attempt) st E M L1
             (fun hist b _ => W hist b)).
  set (st1 := {| approximateLIBWarningIssued := approximateLIBWarningIssued st;
                 fallbackBlockTypeChecked := fallbackBlockTypeChecked st;
                 lastBlockID := idAfter (lastBlockID st) (blks attempt);
                 lastBlockNum := numAfter (lastBlockNum st) (blks attempt);
                 processed := processed st ++ blks attempt |}).
  specialize (IH (S attempt) st1 (fun n Hn => H n ltac:(lia)) L2).
  destruct (downloadLoop chain firehoseClient requestInfo mergeWriter blockRange
              fuel (S attempt) st1) as [[st2 evs2] out].
  cbn [fst snd] in *. destruct IH as (O & S0 & R0 & W0).
  split; [exact O|]. split; [|split].
  - cbn [app sleeps]. rewrite !sleeps_app, sleeps_processed.
    cbn [sleeps app repeat]. rewrite S0. reflexivity.
  - cbn [app requests]. rewrite !requests_app, requests_processed.
    cbn [requests app repeat]. rewrite R0. reflexivity.
  - cbn [app writerInput seq map List.concat].
    rewrite !writerInput_app, writerInput_processed.
    cbn [writerInput app]. rewrite app_nil_r, W0. reflexivity.
Qed.

Lemma X8_retries_without_bound_witness :
  snd (downloadLoop numberChain resumingClient noCursor okWriter range_1_4
         3%nat 0%nat initialSession) = StillRunning /\
  sleeps (snd (fst (downloadLoop numberChain resumingClient noCursor okWriter range_1_4
                      3%nat 0%nat initialSession))) = [4; 4; 4] /\
  writerInput (snd (fst (downloadLoop numberChain resumingClient noCursor okWriter range_1_4
                           3%nat 0%nat initialSession)))
  = [servedBlock 1; servedBlock 2; servedBlock 3].
Proof.
  destruct (X8_retries_without_bound numberChain resumingClient noCursor okWriter range_1_4
              3%nat 0%nat initialSession
              (fun n => {| responses := [responseAt (Z.of_nat n + 1)];
                           ending := ErrExternal "unavailable" |})
              (fun n => [servedBlock (Z.of_nat n + 1)]))
    as (H1 & H2 & _ & H4).
  - intros n Hn. split; [reflexivity|]. split; [reflexivity|].
    destruct n as [|[|[|n]]]; [reflexivity|reflexivity|reflexivity|lia].
  - vm_compute. auto.
  - reflexivity.
  - split; [exact H1|]. split; [exact H2|exact H4].
Defined.

(** *** A stream that is served to its end *)

Lemma recvLoop_served {B : Type} (chain : Chain B) (mergeWriter : Writer)
    (rs : list Response) : forall (blks : list Block) (st : Session),
  map (metaBlock chain) rs = map Some blks ->
  linkedFrom (lastBlockID st) blks ->
  (forall hist b, In b blks -> mergeWriter hist b = None) ->
  recvLoop chain mergeWriter rs io_EOF st
  = ({| approximateLIBWarningIssued := approximateLIBWarningIssued st;
        fallbackBlockTypeChecked := fallbackBlockTypeChecked st;
        lastBlockID := idAfter (lastBlockID st) blks;
        lastBlockNum := numAfter (lastBlockNum st) blks;
        processed := processed st ++ blks |},
     map (fun b => ProcessBlock b None) blks, Return None).
Proof.
  induction rs as [|response rs IH]; intros blks st M L W.
  - destruct blks; [|discriminate]. cbn. rewrite app_nil_r. destruct st; reflexivity.
  - destruct blks as [|b blks]; [discriminate|]. cbn [map] in M. inversion M as [[Mb Mr]].
    destruct L as [Lb Lr]. cbn [recvLoop]. unfold handleResponse.
    rewrite (toBlock_meta chain st response b Mb). unfold acceptBlock.
    assert (G : negb (String.eqb (lastBlockID st) "")
                && negb (String.eqb (ParentId b) (lastBlockID st)) = false).
    { destruct Lb as [E|E]; rewrite E, String.eqb_refl; [reflexivity|apply andb_false_r]. }
    rewrite G, (W (processed st) b (or_introl eq_refl)). cbn [app].
    rewrite (IH blks
               {| approximateLIBWarningIssued := approximateLIBWarningIssued st;
                  fallbackBlockTypeChecked := fallbackBlockTypeChecked st;
                  lastBlockID := Id b;
                  lastBlockNum := Number b;
                  processed := processed st ++ [b] |}
               Mr Lr (fun hist x Hx => W hist x (or_intror Hx))).
    cbn [approximateLIBWarningIssued fallbackBlockTypeChecked lastBlockID lastBlockNum
         processed idAfter numAfter map].
    rewrite <- app_assoc. reflexivity.
Qed.

(** X9.  When the first stream gives responses with metadata whose
    blocks link, ends with [io.EOF], and the writer takes every block,
    the command returns nil after one call of [Blocks], without a wait,
    having given the writer each block once and in the stream's
    order. *)
Theorem X9_stream_served_to_its_end {B : Type}
    (chain : Chain B) (firehoseClient : Client) (requestInfo : RequestInfo)
    (mergeWriter : Writer) (blockRange : BlockRange) (fuel : nat)
    (rs : list Response) (blks : list Block) :
  firehoseClient 0%nat (mkRequest requestInfo blockRange)
    = inr {| responses := rs; ending := io_EOF |} ->
  map (metaBlock chain) rs = map Some blks ->
  linkedFrom "" blks ->
  (forall hist b, In b blks -> mergeWriter hist b = None) ->
  let run := downloadFromFirehose chain firehoseClient requestInfo mergeWriter blockRange
               (S fuel) in
  snd run = Returned None /\
  snd (fst run)
    = CallBlocks (mkRequest requestInfo blockRange) :: map (fun b => ProcessBlock b None) blks /\
  processed (fst (fst run)) = blks /\
  lastBlockID (fst (fst run)) = idAfter "" blks /\
  lastBlockNum (fst (fst run)) = numAfter 0 blks.
Proof.
  intros C M L W run. subst run. unfold downloadFromFirehose. cbn [downloadLoop].
  rewrite C. cbn [responses ending].
  rewrite (recvLoop_served chain mergeWriter rs blks initialSession M L W).
  cbn. auto.
Qed.

Lemma X9_stream_served_to_its_end_witness :
  writerInput (snd (fst (downloadFromFirehose numberChain steadyClient noCursor okWriter
                           range_1_4 1%nat)))
  = [servedBlock 1; servedBlock 2; servedBlock 3].
Proof.
  destruct (X9_stream_served_to_its_end numberChain steadyClient noCursor okWriter range_1_4
              0%nat (serve (mkRequest noCursor range_1_4))
              [servedBlock 1; servedBlock 2; servedBlock 3]) as (_ & H & _).
  - reflexivity.
  - vm_compute. reflexivity.
  - vm_compute. auto.
  - reflexivity.
  - rewrite H. reflexivity.
Defined.

(** *** The warnings *)

Lemma warnings_app (a b : list event) : warnings (a ++ b) = warnings a ++ warnings b.
Proof.
  induction a as [|e a IH]; [reflexivity|].
  destruct e; cbn [warnings app]; rewrite ?IH; reflexivity.
Qed.

Section Warnings.

Context {B : Type}.
Variable chain : Chain B.
Variable firehoseClient : Client.
Variable requestInfo : RequestInfo.
Variable mergeWriter : Writer.
Variable blockRange : BlockRange.

(** The warnings of one response, after those the session has behind
    it: they lead to the warnings of the next session, or the response
    is the first without metadata and the block type is refused. *)
Lemma toBlock_warned (st : Session) (response : Response) :
  wellWarned st ->
  let r := toBlock chain st response in
  (wellWarned (fst (fst r)) /\ warned st ++ warnings (snd (fst r)) = warned (fst (fst r))) \/
  ((exists e, snd r = inl e) /\ warned st ++ warnings (snd (fst r)) = [tooOldWarning]).
Proof.
  unfold wellWarned, warned, toBlock. intros V.
  destruct (Metadata response) as [meta|].
  - left. destruct (CursorFromOpaque chain (RespCursor response)) as [e|[id num]];
      cbn [fst snd warnings]; rewrite app_nil_r; auto.
  - destruct st as [ap ch id num pr]. cbn [approximateLIBWarningIssued fallbackBlockTypeChecked] in *.
    destruct ch; cbn [negb andb].
    + left. destruct (UnmarshalTo chain (RespBlock response)) as [e|block];
        [cbn; rewrite app_nil_r; auto|].
      destruct (Encode chain (wrapBlock chain block));
        destruct (IsLIBNumDerivable chain block); destruct ap; cbn; auto.
    + assert (ap = false) by (destruct ap; [discriminate (V eq_refl)|reflexivity]). subst ap.
      destruct (BlockFactoryIsPbbstream chain).
      * right. cbn. eauto.
      * left. destruct (UnmarshalTo chain (RespBlock response)) as [e|block]; [cbn; auto|].
        destruct (Encode chain (wrapBlock chain block));
          destruct (IsLIBNumDerivable chain block); cbn; auto.
Qed.

Lemma acceptBlock_warned (st : Session) (blk : Block) :
  warned (fst (fst (acceptBlock mergeWriter st blk))) = warned st /\
  (wellWarned st -> wellWarned (fst (fst (acceptBlock mergeWriter st blk)))) /\
  warnings (snd (fst (acceptBlock mergeWriter st blk))) = [].
Proof.
  unfold acceptBlock. destruct (negb (String.eqb (lastBlockID st) "") && _); [cbn; auto|].
  destruct (mergeWriter (processed st) blk); cbn; auto.
Qed.

Lemma warned_total (st : Session) : wellWarned st -> atMostOnce (warned st).
Proof.
  unfold wellWarned, warned, atMostOnce. intros V.
  destruct (approximateLIBWarningIssued st); [auto|].
  destruct (fallbackBlockTypeChecked st); auto.
Qed.

Lemma handleResponse_warned (st : Session) (response : Response) :
  wellWarned st ->
  let r := handleResponse chain mergeWriter st response in
  (wellWarned (fst (fst r)) /\ warned st ++ warnings (snd (fst r)) = warned (fst (fst r))) \/
  ((exists e, snd r = Some e) /\ warned st ++ warnings (snd (fst r)) = [tooOldWarning]).
Proof.
  intros V. cbv zeta. unfold handleResponse.
  pose proof (toBlock_warned st response V) as T. cbv zeta in T.
  destruct (toBlock chain st response) as [[st1 evs1] [e|blk]]; cbn [fst snd] in *.
  - destruct T as [T|[_ T]]; [left; exact T|right; split; [eauto|exact T]].
  - destruct T as [[V1 T]|[[e X] _]]; [|discriminate X].
    pose proof (acceptBlock_warned st1 blk) as (A1 & A2 & A3).
    destruct (acceptBlock mergeWriter st1 blk) as [[st2 evs2] res]. cbn [fst snd] in *.
    left. split; [auto|]. rewrite warnings_app, A3, app_nil_r, A1. exact T.
Qed.

Lemma recvLoop_warned (ending : error) (rs : list Response) : forall st : Session,
  wellWarned st ->
  let r := recvLoop chain mergeWriter rs ending st in
  (wellWarned (fst (fst r)) /\ warned st ++ warnings (snd (fst r)) = warned (fst (fst r))) \/
  ((exists res, snd r = Return res) /\ warned st ++ warnings (snd (fst r)) = [tooOldWarning]).
Proof.
  induction rs as [|response rs IH]; intros st V; cbv zeta; cbn [recvLoop].
  - left. destruct (is_EOF ending); cbn [fst snd warnings]; rewrite app_nil_r; auto.
  - pose proof (handleResponse_warned st response V) as H. cbv zeta in H.
    destruct (handleResponse chain mergeWriter st response) as [[st1 evs1] res].
    cbn [fst snd] in H. destruct res as [e|].
    + cbn [fst snd]. destruct H as [H|[_ H]]; [left; exact H|right; split; [eauto|exact H]].
    + destruct H as [[V1 H]|[[e X] _]]; [|discriminate X].
      specialize (IH st1 V1). cbv zeta in IH.
      destruct (recvLoop chain mergeWriter rs ending st1) as [[st2 evs2] ex].
      cbn [fst snd] in *. rewrite warnings_app, app_assoc, H. exact IH.
Qed.

Lemma downloadLoop_warned (fuel : nat) : forall (attempt : nat) (st : Session),
  wellWarned st ->
  atMostOnce (warned st ++ warnings (snd (fst (downloadLoop chain firehoseClient requestInfo
                                                 mergeWriter blockRange fuel attempt st)))).
Proof.
  induction fuel as [|fuel IH]; intros attempt st V; cbn [downloadLoop].
  - cbn [fst snd warnings]. rewrite app_nil_r. apply warned_total. exact V.
  - destruct (firehoseClient attempt (mkRequest requestInfo blockRange)) as [e|stream].
    + cbn [fst snd warnings]. rewrite app_nil_r. apply warned_total. exact V.
    + pose proof (recvLoop_warned (ending stream) (responses stream) st V) as R.
      cbv zeta in R.
      destruct (recvLoop chain mergeWriter (responses stream) (ending stream) st)
        as [[st1 evs1] ex].
      cbn [fst snd] in R. destruct ex as [res|].
      * cbn [fst snd warnings]. destruct R as [[V1 R]|[_ R]]; rewrite R.
        -- apply warned_total. exact V1.
        -- unfold atMostOnce. auto.
      * destruct R as [[V1 R]|[[res X] _]]; [|discriminate X].
        specialize (IH (S attempt) st1 V1).
        destruct (downloadLoop chain firehoseClient requestInfo mergeWriter blockRange
                    fuel (S attempt) st1) as [[st2 evs2] out].
        cbn [fst snd app warnings] in *. rewrite warnings_app, app_assoc, R. exact IH.
Qed.

End Warnings.

(** X10.  Over a whole run, reconnects included, the command warns at
    most once that the server is too old and at most once that the LIB
    number is approximated, and the second warning never comes without
    the first before it. *)
Theorem X10_each_warning_at_most_once {B : Type}
    (chain : Chain B) (firehoseClient : Client) (requestInfo : RequestInfo)
    (mergeWriter : Writer) (blockRange : BlockRange) (fuel : nat) :
  let ws := warnings (snd (fst (downloadFromFirehose chain firehoseClient requestInfo
                                  mergeWriter blockRange fuel))) in
  ws = [] \/ ws = [tooOldWarning] \/ ws = [tooOldWarning; approximatedWarning].
Proof.
  cbv zeta. unfold downloadFromFirehose.
  apply (downloadLoop_warned chain firehoseClient requestInfo mergeWriter blockRange
           fuel 0%nat initialSession).
  unfold wellWarned. cbn. discriminate.
Qed.

End FirehoseExtras.

(** ** The downloader: the retry *)

Module FirehoseRetry.
Import Firehose FirehoseSpec FirehoseExamples FirehoseClaims FirehoseReport
  FirehoseMoreExamples FirehoseExtras.

(** C1.  What the code does after a receive error.  When the responses
    of a stream are all handled and the stream then ends with an error
    that is not the end of the stream, the inner loop is left by its
    [break]: the error is logged and followed by one wait of
    [retryDelay], and the outer loop calls [Blocks] again with the
    request it made before, that is with the start and stop of the range
    and the cursor of [requestInfo], which no response changes.  The
    session goes on into the new stream with the id and number of the
    last block given to the writer, and the blocks given to the writer
    link on from it, before and after the retry: a block that is sent
    again reaches the writer only if it names the last block as its
    parent. *)
Theorem C1_retry_reissues_initial_request {B : Type}
    (chain : Chain B) (firehoseClient : Client) (requestInfo : RequestInfo)
    (mergeWriter : Writer) (blockRange : BlockRange)
    (fuel attempt : nat) (st : Session) (stream : Stream) :
  firehoseClient attempt (mkRequest requestInfo blockRange) = inr stream ->
  handled chain mergeWriter st (responses stream) ->
  is_EOF (ending stream) = false ->
  let request := mkRequest requestInfo blockRange in
  let st1 := fst (fst (recvLoop chain mergeWriter (responses stream) (ending stream) st)) in
  let evs1 := snd (fst (recvLoop chain mergeWriter (responses stream) (ending stream) st)) in
  let run := downloadLoop chain firehoseClient requestInfo mergeWriter blockRange in
  snd (recvLoop chain mergeWriter (responses stream) (ending stream) st) = Break /\
  (exists plain, Forall plainEvent plain /\
     evs1 = plain ++ [LogError (ending stream) retryDelay; Sleep retryDelay]) /\
  sleeps evs1 = [retryDelay] /\
  run (S fuel) attempt st
    = (fst (fst (run fuel (S attempt) st1)),
       (CallBlocks request :: evs1) ++ snd (fst (run fuel (S attempt) st1)),
       snd (run fuel (S attempt) st1)) /\
  (forall fuel', exists rest,
     snd (fst (run (S fuel') (S attempt) st1)) = CallBlocks request :: rest) /\
  Forall (fun r => r = request) (requests (snd (fst (run (S fuel) attempt st)))) /\
  retryDiscipline request (snd (fst (run (S fuel) attempt st))) /\
  Cursor request = InfoCursor requestInfo /\
  StartBlockNum request = Start blockRange /\
  StopBlockNum request = GetStopBlockOr blockRange 0 /\
  tracks st evs1 st1 /\
  tracks st (snd (fst (run (S fuel) attempt st))) (fst (fst (run (S fuel) attempt st))).
Proof.
  intros Hc Hh He request st1 evs1 run. subst request.
  pose proof (recvLoop_break chain mergeWriter (ending stream) (responses stream) st Hh He)
    as Hb.
  split; [exact Hb|].
  destruct (recvLoop_events chain mergeWriter (ending stream) (responses stream) st)
    as (plain & P & D).
  destruct D as [(_ & E & T)|((res & X) & _)]; [|rewrite Hb in X; discriminate].
  fold evs1 in T.
  split; [exists plain; auto|]. split.
  { rewrite T, sleeps_plain by exact P. reflexivity. }
  split.
  { unfold run at 1. cbn [downloadLoop]. rewrite Hc.
    subst st1 evs1.
    destruct (recvLoop chain mergeWriter (responses stream) (ending stream) st)
      as [[s1 e1] ex].
    cbn [fst snd] in *. subst ex.
    fold run. destruct (run fuel (S attempt) s1) as [[s2 e2] out]. reflexivity. }
  split.
  { intros fuel'.
    destruct (downloadLoop_trace chain firehoseClient requestInfo mergeWriter blockRange
                (S fuel') (S attempt) st1) as ([N|S0] & _).
    - exfalso. revert N. cbn [downloadLoop].
      destruct (firehoseClient (S attempt) (mkRequest requestInfo blockRange)) as [e|str];
        [discriminate|].
      destruct (recvLoop chain mergeWriter (responses str) (ending str) st1) as [[s1 e1] ex].
      destruct ex; [discriminate|].
      destruct (downloadLoop chain firehoseClient requestInfo mergeWriter blockRange
                  fuel' (S (S attempt)) s1) as [[s2 e2] out]. discriminate.
    - exact S0. }
  destruct (downloadLoop_trace chain firehoseClient requestInfo mergeWriter blockRange
              (S fuel) attempt st) as (_ & Rq & Rd).
  split; [exact Rq|]. split; [exact Rd|].
  split; [reflexivity|]. split; [reflexivity|]. split; [reflexivity|]. split.
  - apply recvLoop_tracks.
  - apply downloadLoop_tracks.
Qed.

(** The run in which the retry fails.  The first stream gives the blocks
    1 and 2, the second with the cursor 0000000002, and breaks; the
    request made after the wait has the empty cursor of the first
    request, not the cursor last received, for which the server would
    send the block 3 alone.  The server sends the block 1 again, which
    does not reach the writer: the command returns the error of a broken
    sequence, and the block 3 is never written. *)
Lemma C1_retry_reissues_initial_request_witness :
  let run := downloadLoop numberChain flakyClient noCursor okWriter range_1_4
               5%nat 0%nat initialSession in
  requests (snd (fst run)) = [mkRequest noCursor range_1_4; mkRequest noCursor range_1_4] /\
  sleeps (snd (fst run)) = [4] /\
  Cursor (mkRequest noCursor range_1_4) = "" /\
  map RespCursor (firstn 2 (serve (mkRequest noCursor range_1_4)))
    = ["0000000001"; "0000000002"] /\
  writerInput (snd (fst run)) = [servedBlock 1; servedBlock 2] /\
  snd run = Returned (Some (ErrInvalidSequence "b0000000000" 2 "b0000000002")) /\
  flakyClient 1%nat {| StartBlockNum := 1; StopBlockNum := 4; FinalBlocksOnly := true;
                       Cursor := "0000000002" |}
    = inr {| responses := [responseAt 3]; ending := io_EOF |}.
Proof.
  intros run.
  destruct (C1_retry_reissues_initial_request numberChain flakyClient noCursor okWriter
              range_1_4 4%nat 0%nat initialSession
              {| responses := firstn 2 (serve (mkRequest noCursor range_1_4));
                 ending := ErrExternal "connection reset" |})
    as (_ & _ & _ & H & _).
  - reflexivity.
  - vm_compute. auto.
  - reflexivity.
  - subst run. rewrite H. vm_compute. repeat split; reflexivity.
Defined.

End FirehoseRetry.

(** ** The generator: properties *)

Module GeneratorExtras.
Import Generator GeneratorExamples.

Lemma appendFiles_inr (files : list FileDescriptorProto) :
  forall (acc pfs : list ProtoFile),
    appendFiles files acc = inr pfs ->
    exists collected,
      pfs = acc ++ collected /\ map Some collected = map protoFileOf files.
Proof.
  induction files as [|file files IH]; intros acc pfs H; cbn [appendFiles] in H.
  - inversion H. exists []. rewrite app_nil_r. auto.
  - destruct (Marshalled file) as [e|cnt] eqn:M; [discriminate|].
    destruct (IH _ _ H) as (collected & E & C).
    exists ({| Name := match FileName file with Some n => n | None => EmptyString end;
               Data := cnt |} :: collected).
    split; [rewrite E, <- app_assoc; reflexivity|].
    cbn [map]. unfold protoFileOf at 1. rewrite M, C. reflexivity.
Qed.

Lemma fetchAll_inr (w : World) (tok : string) (repos : list string) :
  forall (acc pfs : list ProtoFile),
    snd (fetchAll w tok repos acc) = inr pfs ->
    exists (sets : list (list FileDescriptorProto)) (collected : list ProtoFile),
      Forall2 (fun repo files =>
                 GetFileDescriptorSet w repo ("Bearer " ++ tok)%string = inr files) repos sets /\
      pfs = acc ++ collected /\
      map Some collected = map protoFileOf (List.concat sets) /\
      fst (fetchAll w tok repos acc) = fetchEvents tok repos.
Proof.
  induction repos as [|repo repos IH]; intros acc pfs H; cbn [fetchAll] in *.
  - inversion H. exists [], []. rewrite app_nil_r. repeat split. constructor.
  - destruct (GetFileDescriptorSet w repo ("Bearer " ++ tok)) as [e|files] eqn:G;
      [discriminate|].
    destruct (appendFiles files acc) as [x|acc'] eqn:A; [discriminate|].
    destruct (appendFiles_inr files acc acc' A) as (c1 & E1 & C1).
    specialize (IH acc' pfs).
    destruct (fetchAll w tok repos acc') as [evs res]. cbn [fst snd] in *.
    destruct (IH H) as (sets & c2 & F & E2 & C2 & Ev).
    exists (files :: sets), (c1 ++ c2). split; [constructor; assumption|].
    split; [rewrite E2, E1, <- app_assoc; reflexivity|]. split.
    + cbn [List.concat]. rewrite !map_app, C1, C2. reflexivity.
    + unfold fetchEvents. cbn [flat_map app]. rewrite Ev. reflexivity.
Qed.

Lemma appendFiles_exit (files : list FileDescriptorProto) :
  forall (acc : list ProtoFile) (x : exit), appendFiles files acc = inl x -> x <> Returns.
Proof.
  induction files as [|file files IH]; intros acc x E; cbn [appendFiles] in E; [discriminate|].
  destruct (Marshalled file) as [e|cnt]; [inversion E; discriminate|].
  eapply IH; eassumption.
Qed.

Lemma fetchAll_exit (w : World) (tok : string) (repos : list string) :
  forall (acc : list ProtoFile) (x : exit),
    snd (fetchAll w tok repos acc) = inl x -> x <> Returns.
Proof.
  induction repos as [|repo repos IH]; intros acc x E; cbn [fetchAll] in E; [discriminate|].
  destruct (GetFileDescriptorSet w repo ("Bearer " ++ tok)) as [e|files];
    [inversion E; discriminate|].
  destruct (appendFiles files acc) as [y|acc'] eqn:A.
  - inversion E. subst. eapply appendFiles_exit; eassumption.
  - specialize (IH acc' x). destruct (fetchAll w tok repos acc') as [evs res].
    apply IH. exact E.
Qed.

Lemma writes_app (a b : list event) : writes (a ++ b) = writes a ++ writes b.
Proof.
  induction a as [|e a IH]; [reflexivity|].
  destruct e; cbn [writes app]; rewrite ?IH; reflexivity.
Qed.

Lemma requested_app (a b : list event) : requested (a ++ b) = requested a ++ requested b.
Proof.
  induction a as [|e a IH]; [reflexivity|].
  destruct e; cbn [requested app]; rewrite ?IH; reflexivity.
Qed.

Lemma naps_app (a b : list event) : naps (a ++ b) = naps a ++ naps b.
Proof.
  induction a as [|e a IH]; [reflexivity|].
  destruct e; cbn [naps app]; rewrite ?IH; reflexivity.
Qed.

Lemma fetchEvents_requested (tok : string) (repos : list string) :
  requested (fetchEvents tok repos) = repos /\
  naps (fetchEvents tok repos) = repeat 1 (List.length repos) /\
  writes (fetchEvents tok repos) = [] /\
  flushes (fetchEvents tok repos) = [].
Proof.
  induction repos as [|repo repos (IH1 & IH2 & IH3 & IH4)]; [auto|].
  unfold fetchEvents in *.
  cbn [flat_map app requested naps writes flushes List.length repeat].
  rewrite IH1, IH2, IH3, IH4. auto.
Qed.

Lemma render_events (w : World) (target pkg : string) (pfs : list ProtoFile)
    (deferred : list event) :
  requested deferred = [] -> naps deferred = [] -> writes deferred = [] ->
  requested (fst (render w target pkg pfs deferred)) = [] /\
  naps (fst (render w target pkg pfs deferred)) = [] /\
  writes (fst (render w target pkg pfs deferred)) = [fst (ExecuteTemplate w pkg pfs)] /\
  (snd (render w target pkg pfs deferred) = Returns ->
   snd (ExecuteTemplate w pkg pfs) = None /\
   flushes (fst (render w target pkg pfs deferred)) = flushes deferred) /\
  (snd (render w target pkg pfs deferred) <> Returns ->
   flushes (fst (render w target pkg pfs deferred)) = []).
Proof.
  intros R N W. unfold render.
  destruct (ExecuteTemplate w pkg pfs) as [text [e|]]; cbn [fst snd app requested naps writes flushes].
  - split; [reflexivity|]. split; [reflexivity|]. split; [reflexivity|]. split.
    + intros E. discriminate E.
    + intros _. reflexivity.
  - rewrite R, N, W. split; [reflexivity|]. split; [reflexivity|]. split; [reflexivity|].
    split.
    + intros _. split; reflexivity.
    + intros E. contradiction.
Qed.

(** X11.  When [main] returns, it has asked the descriptor service for
    each repository once, in order and with the bearer token, has waited
    one second after each, and has written once: the text of the
    template executed on the package name and on the files of all
    repositories in the order received, a file without a name under the
    empty name. *)
Theorem X11_main_renders_all_files_in_order
    (repos : list string) (w : World) (arg0 output packageName : string) :
  Args w = [arg0; output; packageName] ->
  snd (mainOver repos w) = Returns ->
  exists (sets : list (list FileDescriptorProto)) (protofiles : list ProtoFile),
    Forall2 (fun repo files =>
               GetFileDescriptorSet w repo ("Bearer " ++ BUFBUILD_AUTH_TOKEN w)%string
               = inr files) repos sets /\
    map Some protofiles = map protoFileOf (List.concat sets) /\
    requested (fst (mainOver repos w)) = repos /\
    naps (fst (mainOver repos w)) = repeat 1 (List.length repos) /\
    writes (fst (mainOver repos w)) = [fst (ExecuteTemplate w packageName protofiles)] /\
    snd (ExecuteTemplate w packageName protofiles) = None.
Proof.
  intros A. unfold mainOver. rewrite A.
  destruct (String.eqb (BUFBUILD_AUTH_TOKEN w) ""); [discriminate|].
  pose proof (fetchAll_inr w (BUFBUILD_AUTH_TOKEN w) repos []) as F.
  pose proof (fetchAll_exit w (BUFBUILD_AUTH_TOKEN w) repos []) as X.
  destruct (fetchAll w (BUFBUILD_AUTH_TOKEN w) repos []) as [evs [x|pfs]].
  - cbn [snd] in *. intros H. exfalso. exact (X x eq_refl H).
  - cbn [fst snd] in F.
    destruct (F pfs eq_refl) as (sets & collected & F2 & Ep & C & Ev). cbn [app] in Ep.
    subst collected evs.
    destruct (fetchEvents_requested (BUFBUILD_AUTH_TOKEN w) repos) as (Rq & Np & Wr & _).
    destruct (ParseFS w); [discriminate|].
    destruct (String.eqb output "-").
    + pose proof (render_events w "-" packageName pfs [] eq_refl eq_refl eq_refl)
        as (R1 & R2 & R3 & R4 & _).
      destruct (render w "-" packageName pfs []) as [evs2 x]. cbn [fst snd] in *.
      intros H. exists sets, pfs.
      rewrite requested_app, naps_app, writes_app, Rq, Np, Wr, R1, R2, R3, !app_nil_r.
      repeat split; try assumption. apply R4. exact H.
    + destruct (MkdirAll w (Dir w output)); [discriminate|].
      destruct (Create w output); [discriminate|].
      pose proof (render_events w output packageName pfs [Flushed output]
                    eq_refl eq_refl eq_refl) as (R1 & R2 & R3 & R4 & _).
      destruct (render w output packageName pfs [Flushed output]) as [evs2 x].
      cbn [fst snd] in *. intros H. exists sets, pfs.
      rewrite !requested_app, !naps_app, !writes_app, Rq, Np, Wr, R1, R2, R3.
      cbn [requested naps writes app]. rewrite !app_nil_r.
      repeat split; try assumption. apply R4. exact H.
Qed.

Lemma X11_main_renders_all_files_in_order_witness :
  requested (fst (main goodWorld)) = wellKnownProtoRepos /\
  writes (fst (main goodWorld)) = ["wellknown"].
Proof.
  destruct (X11_main_renders_all_files_in_order wellKnownProtoRepos goodWorld
              "generator" "out/registry.go" "wellknown")
    as (sets & pfs & _ & _ & R & _ & W & _).
  - reflexivity.
  - reflexivity.
  - split; [exact R|]. exact W.
Defined.

(** *** Where [main] gives up *)

Lemma appendFiles_ok (files : list FileDescriptorProto) : forall acc : list ProtoFile,
  Forall (fun file => protoFileOf file <> None) files ->
  exists collected,
    appendFiles files acc = inr (acc ++ collected) /\
    map Some collected = map protoFileOf files.
Proof.
  induction files as [|file files IH]; intros acc H; cbn [appendFiles].
  - exists []. rewrite app_nil_r. auto.
  - inversion H as [|x l Hf Hrest]; subst x l.
    unfold protoFileOf in Hf. destruct (Marshalled file) as [e|cnt] eqn:M; [contradiction|].
    destruct (IH (acc ++ [{| Name := match FileName file with
                                       | Some n => n
                                       | None => EmptyString
                                       end;
                             Data := cnt |}]) Hrest) as (collected & E & C).
    eexists (_ :: collected). split.
    + rewrite E, <- app_assoc. reflexivity.
    + cbn [map]. unfold protoFileOf at 1. rewrite M, C. reflexivity.
Qed.

Lemma appendFiles_bad (ok rest : list FileDescriptorProto) (bad : FileDescriptorProto)
    (e : error) (acc : list ProtoFile) :
  Forall (fun file => protoFileOf file <> None) ok ->
  Marshalled bad = inl e ->
  appendFiles (ok ++ bad :: rest) acc = inl (FatalMarshal (FileName bad) e).
Proof.
  revert acc. induction ok as [|file ok IH]; intros acc H M; cbn [app appendFiles].
  - rewrite M. reflexivity.
  - inversion H as [|x l Hf Hrest]; subst x l.
    unfold protoFileOf in Hf. destruct (Marshalled file) as [e1|cnt]; [contradiction|].
    apply IH; assumption.
Qed.

(** The fetch of repositories that all answer with files that can be
    marshalled, followed by the fetch of [more]. *)
Lemma fetchAll_app (w : World) (tok : string) (pre : list string) :
  forall (sets : list (list FileDescriptorProto)) (acc : list ProtoFile),
    Forall2 (fun repo files =>
               GetFileDescriptorSet w repo ("Bearer " ++ tok)%string = inr files /\
               Forall (fun file => protoFileOf file <> None) files) pre sets ->
    exists collected,
      map Some collected = map protoFileOf (List.concat sets) /\
      forall more : list string,
        fetchAll w tok (pre ++ more) acc
        = (fetchEvents tok pre ++ fst (fetchAll w tok more (acc ++ collected)),
           snd (fetchAll w tok more (acc ++ collected))).
Proof.
  induction pre as [|repo pre IH]; intros sets acc H.
  - inversion H. subst. exists []. split; [reflexivity|]. intros more.
    rewrite app_nil_r. cbn [app fetchEvents flat_map].
    destruct (fetchAll w tok more acc). reflexivity.
  - inversion H as [|r files pre' sets' [G Fm] Hrest]; subst.
    destruct (appendFiles_ok files acc Fm) as (c1 & A & C1).
    destruct (IH sets' (acc ++ c1) Hrest) as (c2 & C2 & K).
    exists (c1 ++ c2). split.
    + cbn [List.concat]. rewrite !map_app, C1, C2. reflexivity.
    + intros more. cbn [app fetchAll]. rewrite G, A, (K more), app_assoc.
      unfold fetchEvents. cbn [flat_map app]. reflexivity.
Qed.

Lemma map_Some_inj {A : Type} (a b : list A) : map Some a = map Some b -> a = b.
Proof.
  revert b. induction a as [|x a IH]; intros [|y b] H; try discriminate; [reflexivity|].
  cbn [map] in H. injection H as H1 H2. f_equal; [exact H1|apply IH; exact H2].
Qed.

(** X12.  [main] gives up at the first repository that fails.  After
    repositories that all answered with files that can be marshalled,
    a repository that the service refuses, or one with a file that
    cannot be marshalled, ends the process at once: the trace is the
    requests and waits of the repositories before it and its own
    request, no later repository is asked, and nothing is made or
    written, so a registry of a part of the repositories never comes
    out.  And when every repository was fetched and the execution of the
    template fails, the process ends after the text written so far,
    without the deferred flush of the output file. *)
Theorem X12_main_all_or_nothing
    (w : World) (arg0 output packageName : string)
    (pre : list string) (sets : list (list FileDescriptorProto)) :
  Args w = [arg0; output; packageName] ->
  BUFBUILD_AUTH_TOKEN w <> "" ->
  let tok := BUFBUILD_AUTH_TOKEN w in
  let bearer := ("Bearer " ++ BUFBUILD_AUTH_TOKEN w)%string in
  Forall2 (fun repo files =>
             GetFileDescriptorSet w repo bearer = inr files /\
             Forall (fun file => protoFileOf file <> None) files) pre sets ->
  (forall (repo : string) (post : list string) (e : error),
     GetFileDescriptorSet w repo bearer = inl e ->
     mainOver (pre ++ repo :: post) w
     = (fetchEvents tok pre ++ [Request repo bearer], FatalRequest e)) /\
  (forall (repo : string) (post : list string)
          (ok rest : list FileDescriptorProto) (bad : FileDescriptorProto) (e : error),
     GetFileDescriptorSet w repo bearer = inr (ok ++ bad :: rest) ->
     Forall (fun file => protoFileOf file <> None) ok ->
     Marshalled bad = inl e ->
     mainOver (pre ++ repo :: post) w
     = (fetchEvents tok pre ++ [Request repo bearer], FatalMarshal (FileName bad) e)) /\
  (forall (protofiles : list ProtoFile) (text : string) (e : error),
     map Some protofiles = map protoFileOf (List.concat sets) ->
     output <> "-" -> ParseFS w = None ->
     MkdirAll w (Dir w output) = None -> Create w output = None ->
     ExecuteTemplate w packageName protofiles = (text, Some e) ->
     mainOver pre w
     = (fetchEvents tok pre ++ [MadeDir (Dir w output); Created output; Written output text],
        NoErrorRender e)).
Proof.
  intros A T tok bearer F. subst tok bearer.
  apply String.eqb_neq in T.
  destruct (fetchAll_app w (BUFBUILD_AUTH_TOKEN w) pre sets [] F) as (collected & C & K).
  cbn [app] in K.
  split; [|split].
  - intros repo post e G. unfold mainOver. rewrite A, T, (K (repo :: post)).
    cbn [fetchAll]. rewrite G. reflexivity.
  - intros repo post ok rest bad e G Fo M. unfold mainOver. rewrite A, T, (K (repo :: post)).
    cbn [fetchAll]. rewrite G, (appendFiles_bad ok rest bad e collected Fo M). reflexivity.
  - intros pfs text e Ep No P Mk Cr X. unfold mainOver.
    rewrite A, T. rewrite <- (app_nil_r pre) at 1. rewrite (K []).
    cbn [fetchAll fst snd]. rewrite app_nil_r, P.
    apply String.eqb_neq in No. rewrite No, Mk, Cr.
    rewrite <- C in Ep. apply map_Some_inj in Ep. subst pfs.
    unfold render. rewrite X. reflexivity.
Qed.

Lemma X12_main_all_or_nothing_witness :
  main refusingWorld
  = ([Request "buf.build/streamingfast/firehose-ethereum" "Bearer secret"; Sleep 1;
      Request "buf.build/streamingfast/firehose-near" "Bearer secret"],
     FatalRequest (ErrExternal "rate limited")).
Proof.
  destruct (X12_main_all_or_nothing refusingWorld "generator" "out/registry.go" "wellknown"
              ["buf.build/streamingfast/firehose-ethereum"]
              [twoFiles "buf.build/streamingfast/firehose-ethereum"]) as (H & _).
  - reflexivity.
  - cbn [refusingWorld BUFBUILD_AUTH_TOKEN]. discriminate.
  - constructor; [|constructor]. split; [reflexivity|].
    repeat constructor; vm_compute; discriminate.
  - exact (H "buf.build/streamingfast/firehose-near"
             ["buf.build/streamingfast/firehose-solana"] (ErrExternal "rate limited")
             eq_refl).
Defined.

(** *** [toHex] *)

Lemma byteOf_hex (v : Byte.byte) :
  byteOf (hexDigit (N.shiftr (Byte.to_N v) 4)) (hexDigit (N.land (Byte.to_N v) 15)) = Some v.
Proof. destruct v; reflexivity. Qed.

(** X13.  [toHex] writes two characters for each byte and loses
    nothing: byte strings with the same text are the same. *)
Theorem X13_toHex_is_injective (a b : list Byte.byte) :
  String.length (toHex a) = (2 * List.length a)%nat /\
  (toHex a = toHex b -> a = b).
Proof.
  unfold toHex. split.
  - induction a as [|v a IH]; [reflexivity|].
    cbn [EncodeToString String.length List.length]. rewrite IH. lia.
  - revert b. induction a as [|v a IH]; intros [|v' b] H; cbn [EncodeToString] in H;
      try discriminate; [reflexivity|].
    pose proof (byteOf_hex v) as E. pose proof (byteOf_hex v') as E'.
    remember (hexDigit (N.shiftr (Byte.to_N v) 4)) as h eqn:Eh.
    remember (hexDigit (N.land (Byte.to_N v) 15)) as l eqn:El.
    remember (hexDigit (N.shiftr (Byte.to_N v') 4)) as h' eqn:Eh'.
    remember (hexDigit (N.land (Byte.to_N v') 15)) as l' eqn:El'.
    injection H as H1 H2 H3. rewrite <- H1, <- H2, E in E'. injection E' as Ev.
    f_equal; [exact Ev|]. apply IH. exact H3.
Qed.

End GeneratorExtras.

(** ** The client with [print-cursor-only]: properties *)

Module FirehoseClientExtras.
Import FirehoseClient.

Lemma stdout_lines_app (a b : list event) : printed (a ++ b) = printed a ++ printed b.
Proof.
  induction a as [|e a IH]; [reflexivity|].
  destruct e; cbn [printed app]; rewrite ?IH; reflexivity.
Qed.

Lemma calls_app (a b : list event) : calls (a ++ b) = calls a ++ calls b.
Proof.
  induction a as [|e a IH]; [reflexivity|].
  destruct e; cbn [calls app]; rewrite ?IH; reflexivity.
Qed.

Lemma closes_app (a b : list event) : closes (a ++ b) = (closes a + closes b)%nat.
Proof.
  induction a as [|e a IH]; [reflexivity|].
  destruct e; cbn [closes app]; rewrite ?IH; reflexivity.
Qed.

Lemma cursorLoop_spec (ending : error) (rs : list Response) :
  fst (cursorLoop rs ending)
    = map (fun r => Stdout (Step r ++ " - " ++ Cursor r)%string) rs /\
  snd (cursorLoop rs ending)
    = (if is_EOF ending then None else Some (ErrStreamReceive ending)).
Proof.
  induction rs as [|r rs [IH1 IH2]]; cbn [cursorLoop].
  - destruct (is_EOF ending); auto.
  - destruct (cursorLoop rs ending) as [evs res]. cbn [fst snd map] in *.
    rewrite IH1, IH2. auto.
Qed.

(** X14.  With [print-cursor-only], once the stream is open and the
    printer made, the command calls [Blocks] once and never again,
    prints one line [step - cursor] for each response in the order
    received, returns nil when the stream ends with [io.EOF] and
    otherwise the receive error, wrapped, after the lines of the
    responses received before it; the connection is closed once, as the
    last thing. *)
Theorem X14_cursor_only_prints_each_response
    (blocks : Request -> error + Stream) (requestInfo : RequestInfo) (rangeArg : string)
    (blockRange : Firehose.BlockRange) (stream : Stream) :
  let request :=
    {| StartBlockNum := Firehose.Start blockRange;
       StopBlockNum := Firehose.GetStopBlockOr blockRange 0;
       Transforms := InfoTransforms requestInfo;
       FinalBlocksOnly := InfoFinalBlocksOnly requestInfo;
       ReqCursor := InfoCursor requestInfo |} in
  blocks request = inr stream ->
  let run := getFirehoseClientE (inr (blocks, requestInfo)) rangeArg (inr blockRange) None in
  printed (fst run) = map (fun r => (Step r ++ " - " ++ Cursor r)%string) (responses stream) /\
  snd run = (if is_EOF (ending stream) then None else Some (ErrStreamReceive (ending stream))) /\
  calls (fst run) = [request] /\
  closes (fst run) = 1%nat /\
  exists evs, fst run = evs ++ [ConnClose].
Proof.
  intros request Hb run. subst run. unfold getFirehoseClientE. fold request. rewrite Hb.
  destruct (cursorLoop_spec (ending stream) (responses stream)) as [L R].
  destruct (cursorLoop (responses stream) (ending stream)) as [lines res].
  cbn [fst snd] in *. subst lines res.
  assert (P : forall rs : list Response,
            printed (map (fun r => Stdout (Step r ++ " - " ++ Cursor r)%string) rs)
            = map (fun r => (Step r ++ " - " ++ Cursor r)%string) rs /\
            calls (map (fun r => Stdout (Step r ++ " - " ++ Cursor r)%string) rs) = [] /\
            closes (map (fun r => Stdout (Step r ++ " - " ++ Cursor r)%string) rs) = 0%nat).
  { induction rs as [|r rs (I1 & I2 & I3)]; [auto|].
    cbn [map printed calls closes]. rewrite I1. auto. }
  destruct (P (responses stream)) as (P1 & P2 & P3).
  set (lines := map (fun r => Stdout (Step r ++ " - " ++ Cursor r)%string) (responses stream))
    in *.
  destruct (header stream) as [e|hosts];
    (split; [|split; [|split; [|split]]]);
    try (eexists; reflexivity);
    cbn [app printed calls closes];
    rewrite ?stdout_lines_app, ?calls_app, ?closes_app, ?P1, ?P2, ?P3;
    cbn [printed calls closes app]; rewrite ?app_nil_r; reflexivity.
Qed.

Lemma X14_cursor_only_prints_each_response_witness :
  printed (fst (getFirehoseClientE
                  (inr (fun _ => inr brokenStream,
                        {| InfoTransforms := []; InfoFinalBlocksOnly := false; InfoCursor := "" |}))
                  "1:3" (inr {| Firehose.Start := 1; Firehose.Stop := Some 3 |}) None))
  = ["STEP_NEW - c1"; "STEP_FINAL - c2"].
Proof.
  destruct (X14_cursor_only_prints_each_response (fun _ => inr brokenStream)
              {| InfoTransforms := []; InfoFinalBlocksOnly := false; InfoCursor := "" |}
              "1:3" {| Firehose.Start := 1; Firehose.Stop := Some 3 |} brokenStream)
    as (H & _).
  - reflexivity.
  - rewrite H. reflexivity.
Defined.

End FirehoseClientExtras.
